(** * MineWright agent reflex: the tactical decision engine, the per-agent
    actor and the sync manager, embedded from
    [cloudflare/src/tactical.py], [cloudflare/src/index.py] and
    [cloudflare/src/sync.py].

    Conventions of the embedding.
    - Python [float] values are real numbers ([R]): arithmetic is exact, and
      there is no NaN or infinity.  [int] values are [Z].  The comparisons
      [<], [<=] and [==] on floats are [Rltb], [Rleb] and [Reqb].
    - A Python exception is a value of [exn]; a function that may raise
      returns [exn + A].  Code that mutates an object and may raise returns
      the outcome together with the object afterwards.
    - The game's entity and block dicts, and the request bodies, are records
      whose fields are optional: a missing key is [None], and
      [d.get(k, default)] is [get_or default].  A field holds a value of the
      type the code uses it at.  Stored state, mission payloads and telemetry
      are [json] values.
    - [list.sort(key=..., reverse=True)] is a stable sort; the stable
      descending sort of a list is unique, and is computed here by
      insertion ([sort_desc]).
    - [datetime.utcnow()] reads a clock that every reading advances. *)

From Stdlib Require Import Reals Lra Lia ZArith List String Bool.
From Stdlib Require Import Sorting.Sorted Permutation.
Import ListNotations.

Set Warnings "-register-all".

Open Scope string_scope.
Open Scope list_scope.
Open Scope R_scope.

(** ** Python-level helpers *)

Definition Rltb (x y : R) : bool := if Rlt_dec x y then true else false.
Definition Rleb (x y : R) : bool := if Rle_dec x y then true else false.
Definition Reqb (x y : R) : bool := if Req_dec_T x y then true else false.

(** [d.get(key, default)] on an optional field. *)
Definition get_or {A : Type} (default : A) (o : option A) : A :=
  match o with
  | Some v => v
  | None => default
  end.

(** [l[-n:]] for a positive [n]: the last [n] elements, the whole list when
    it is shorter. *)
Definition last_n {A : Type} (n : nat) (l : list A) : list A :=
  skipn (List.length l - n)%nat l.

(** Exceptions raised by the modelled code. *)
Inductive exn : Type :=
| ZeroDivisionError
| KeyError (key : string)
| ValueError (msg : string)
| TypeError (msg : string)
| AttributeError (attr : string)
| JSONDecodeError.

(** [str(e)], as far as it is modelled: the argument the exception
    carries.  The wording Python and its runtime put around it (the quotes
    of a KeyError, "is not a valid AgentStatus", "object has no attribute")
    is not modelled.  The code only copies the text, into the body of the
    500 response and into the error event; no property reads it. *)
Definition exn_message (e : exn) : string :=
  match e with
  | ZeroDivisionError => "float division by zero"
  | KeyError k => k
  | ValueError m => m
  | TypeError m => m
  | AttributeError a => a
  | JSONDecodeError => "invalid JSON"
  end.

Definition result (A : Type) : Type := (exn + A)%type.

(** A [datetime], as a count of microseconds. *)
Definition datetime : Type := Z.

(** JSON-like Python values: request payloads, stored state, telemetry.
    [JIso t] is the text [t.isoformat()] gives, kept symbolic;
    [datetime.fromisoformat] reads it back. *)
Inductive json : Type :=
| JNull
| JBool (b : bool)
| JInt (z : Z)
| JFloat (r : R)
| JStr (s : string)
| JIso (t : datetime)
| JList (l : list json)
| JDict (d : list (string * json)).

(** Python truthiness, as tested by [if v:] and [not v]. *)
Definition truthy (v : json) : bool :=
  match v with
  | JNull => false
  | JBool b => b
  | JInt z => negb (z =? 0)%Z
  | JFloat r => negb (Reqb r 0)
  | JStr s => negb (String.eqb s "")
  | JIso _ => true
  | JList l => match l with [] => false | _ :: _ => true end
  | JDict d => match d with [] => false | _ :: _ => true end
  end.

(** [d.get(k)] on a dict value. *)
Fixpoint dict_get (k : string) (d : list (string * json)) : option json :=
  match d with
  | [] => None
  | (k', v) :: rest => if String.eqb k k' then Some v else dict_get k rest
  end.

(** [d[k]] *)
Definition subscript (d : list (string * json)) (k : string) : result json :=
  match dict_get k d with
  | Some v => inr v
  | None => inl (KeyError k)
  end.

(** [[f(x) for x in l]], stopping at the first exception. *)
Fixpoint map_result {A B : Type} (f : A -> result B) (l : list A)
  : result (list B) :=
  match l with
  | [] => inr []
  | x :: rest =>
      match f x with
      | inl e => inl e
      | inr y =>
          match map_result f rest with
          | inl e => inl e
          | inr ys => inr (y :: ys)
          end
      end
  end.

(** [x / y] with the divisor checked, as Python does. *)
Definition py_div (x : R) (y : Z) : result R :=
  if (y =? 0)%Z then inl ZeroDivisionError else inr (x / IZR y).

(** ** Stable descending sort by a real key *)

Section StableSort.
Context {A : Type}.
Variable key : A -> R.

(** [x] is placed before the first element whose key is not greater:
    it stays in front of the elements of equal key that followed it. *)
Fixpoint insert_desc (x : A) (l : list A) : list A :=
  match l with
  | [] => [x]
  | y :: l' => if Rltb (key x) (key y) then y :: insert_desc x l'
               else x :: l
  end.

Definition sort_desc (l : list A) : list A :=
  fold_right insert_desc [] l.

(** The order of a list sorted by [sort_desc]. *)
Definition desc (a b : A) : Prop := key b <= key a.

End StableSort.

(** ** tactical.py *)

Module Tactical.

Record Position : Type := mkPosition { px : R; py : R; pz : R }.

Record Threat : Type := mkThreat {
  entity_type : string;
  t_position : Position;
  distance : R;
  danger_level : R;
  estimated_health : Z
}.

Record Hazard : Type := mkHazard {
  hazard_type : string;
  h_position : Position;
  severity : R
}.

(** The [reasoning] f-strings, kept symbolic: the constructor is the
    literal prefix, the arguments are the interpolated values. *)
Inductive Reasoning : Type :=
| FatalHazard (ty : string) (p : Position)
| Danger (ty : string) (dist : R)
| Engage (ty : string) (dist : R)
| Caution (ty : string)
| Avoid (ty : string)
| AreaClear (mission : string).

Record TacticalDecision : Type := mkDecision {
  action : string;
  priority : R;
  reasoning : Reasoning;
  target_position : option Position;
  confidence : R
}.

(** [0 if c == 0 else (-1 if c > 0 else 1)] *)
Definition away_sign (c : R) : Z :=
  if Reqb c 0 then 0%Z else if Rltb 0 c then (-1)%Z else 1%Z.

(** The target shared by the four moving decisions: the x and z
    coordinates displaced by [away_sign * step]. *)
Definition displaced (p : Position) (step : Z) : Position :=
  mkPosition (px p + IZR (away_sign (px p) * step))
             (py p)
             (pz p + IZR (away_sign (pz p) * step)).

Definition flee_from_hazard (h : Hazard) : TacticalDecision :=
  mkDecision "flee" 1.0 (FatalHazard (hazard_type h) (h_position h))
             (Some (displaced (h_position h) 5)) 1.0.

Definition flee_from_threat (t : Threat) : TacticalDecision :=
  mkDecision "flee" 0.9 (Danger (entity_type t) (distance t))
             (Some (displaced (t_position t) 10)) 0.95.

Definition combat_decision (t : Threat) : TacticalDecision :=
  mkDecision "attack" (danger_level t) (Engage (entity_type t) (distance t))
             (Some (displaced (t_position t) 2)) 0.8.

Definition hold_position (t : Threat) : TacticalDecision :=
  mkDecision "shield" (danger_level t) (Caution (entity_type t)) None 0.7.

Definition avoid_hazard (h : Hazard) : TacticalDecision :=
  mkDecision "dodge" (severity h) (Avoid (hazard_type h))
             (Some (displaced (h_position h) 3)) 0.8.

(** [current_mission or 'idle']: [None] and the empty string are falsy. *)
Definition mission_or_idle (m : option string) : string :=
  match m with
  | Some s => if String.eqb s "" then "idle" else s
  | None => "idle"
  end.

Definition continue_mission (current_mission : option string)
  : TacticalDecision :=
  mkDecision "hold" 0.1 (AreaClear (mission_or_idle current_mission))
             None 0.9.

Definition get_quick_decision (threats : list Threat) (hazards : list Hazard)
    (combat_score : R) (current_mission : option string) : TacticalDecision :=
  let fatal_hazards := filter (fun h => Rltb 0.8 (severity h)) hazards in
  let critical_threats := filter (fun t => Rltb 0.7 (danger_level t)) threats in
  let medium_hazards := filter (fun h => Rltb 0.4 (severity h)) hazards in
  let low_danger :=
    match medium_hazards with
    | h :: _ => avoid_hazard h
    | [] => continue_mission current_mission
    end in
  match fatal_hazards with
  | h :: _ => flee_from_hazard h
  | [] =>
    match critical_threats with
    | t :: _ =>
        if Rltb 0.6 combat_score then combat_decision t
        else flee_from_threat t
    | [] =>
      match threats with
      | t :: _ =>
          if Rltb 0.4 (danger_level t) then
            if Rltb 0.7 combat_score then combat_decision t
            else hold_position t
          else low_danger
      | [] => low_danger
      end
    end
  end.

(** *** Threat assessment *)

Definition ENTITY_DANGER_RATINGS : list (string * R) :=
  [ ("warden", 10.0); ("ender_dragon", 10.0); ("wither", 10.0);
    ("witch", 6.0); ("vindicator", 5.0); ("evoker", 5.0);
    ("piglin_brute", 5.0);
    ("creeper", 4.0); ("zombie_pigman", 4.0); ("blaze", 3.5);
    ("ghast", 3.5); ("bogged", 3.0);
    ("skeleton", 2.5); ("stray", 2.5); ("spider", 2.0);
    ("cave_spider", 2.5); ("drowned", 2.0); ("husk", 2.0);
    ("phantom", 2.5);
    ("zombie", 1.5); ("zombie_villager", 1.5); ("slime", 1.0);
    ("silverfish", 1.0);
    ("enderman", 0.5);
    ("piglin", 0.0); ("villager", 0.0); ("animal", 0.0) ].

(** [table.get(k)] on a dict written as a literal. *)
Fixpoint lookup {V : Type} (k : string) (table : list (string * V))
  : option V :=
  match table with
  | [] => None
  | (k', v) :: rest => if String.eqb k k' then Some v else lookup k rest
  end.

(** An entity dict of [nearby_entities]. *)
Record Entity : Type := mkEntity {
  e_type : option string;
  e_x : option R;
  e_y : option R;
  e_z : option R;
  e_health : option Z
}.

(** A block dict of [nearby_blocks]. *)
Record Block : Type := mkBlock {
  b_type : option string;
  b_x : option R;
  b_y : option R;
  b_z : option R;
  b_solid : option bool
}.

Definition euclid (p q : Position) : R :=
  sqrt ((px p - px q) ^ 2 + (py p - py q) ^ 2 + (pz p - pz q) ^ 2).

Definition health_factor (agent_health : Z) : R :=
  if (agent_health <? 5)%Z then 2.0
  else if (agent_health <? 10)%Z then 1.5
  else if (15 <? agent_health)%Z then 0.8
  else 1.0.

Definition calculate_danger_level (base_danger dist : R) (agent_health : Z)
    (combat_score : R) : R :=
  let distance_factor := Rmax 0.0 (1.0 - dist / 20.0) in
  let combat_factor := Rmax 0.5 (1.0 - combat_score * 0.5) in
  let raw_danger :=
    base_danger * distance_factor * health_factor agent_health
    * combat_factor in
  Rmin 1.0 (Rmax 0.0 (raw_danger / 10.0)).

Definition entity_position (e : Entity) : Position :=
  mkPosition (get_or 0 (e_x e)) (get_or 0 (e_y e)) (get_or 0 (e_z e)).

(** The [Threat] the loop body builds for one entity, before the
    low-danger test. *)
Definition threat_of (agent_position : Position) (current_health : Z)
    (combat_score : R) (e : Entity) : Threat :=
  let ty := get_or "unknown" (e_type e) in
  let pos := entity_position e in
  let dist := euclid agent_position pos in
  let base_danger := get_or 1.0 (lookup ty ENTITY_DANGER_RATINGS) in
  mkThreat ty pos dist
    (calculate_danger_level base_danger dist current_health combat_score)
    (get_or 20%Z (e_health e)).

(** The list [threats] when the loop ends: entities whose danger is below
    0.3 are skipped. *)
Definition candidate_threats (agent_position : Position)
    (nearby_entities : list Entity) (current_health : Z) (combat_score : R)
  : list Threat :=
  filter (fun t => negb (Rltb (danger_level t) 0.3))
    (map (threat_of agent_position current_health combat_score)
         nearby_entities).

Definition assess_threats (agent_position : Position)
    (nearby_entities : list Entity) (current_health : Z) (combat_score : R)
  : list Threat :=
  firstn 5
    (sort_desc danger_level
       (candidate_threats agent_position nearby_entities current_health
          combat_score)).

(** The default of [assess_threats]' last parameter. *)
Definition default_combat_score : R := 0.5.

(** *** Hazard detection *)

Record HazardInfo : Type := mkInfo {
  info_type : string;
  info_severity : R;
  info_radius : Z
}.

Definition dangerous_blocks : list (string * HazardInfo) :=
  [ ("lava", mkInfo "lava" 1.0 3);
    ("fire", mkInfo "fire" 0.7 2);
    ("magma_block", mkInfo "fire" 0.5 1);
    ("campfire", mkInfo "fire" 0.3 1);
    ("sweet_berry_bush", mkInfo "damage" 0.2 0);
    ("wither_rose", mkInfo "damage" 0.4 0);
    ("cactus", mkInfo "damage" 0.3 0) ].

Definition block_position (b : Block) : Position :=
  mkPosition (get_or 0 (b_x b)) (get_or 0 (b_y b)) (get_or 0 (b_z b)).

(** The fall check: more than five blocks below [y - 1], none solid. *)
Definition fall_hazard (agent_position : Position)
    (nearby_blocks : list Block) : list Hazard :=
  let blocks_below :=
    filter (fun b => Rltb (get_or 0 (b_y b)) (py agent_position - 1))
           nearby_blocks in
  let solid_blocks_below :=
    filter (fun b => get_or false (b_solid b)) blocks_below in
  if andb (5 <? List.length blocks_below)%nat
          (List.length solid_blocks_below =? 0)%nat
  then
    [ mkHazard "fall"
        (mkPosition (px agent_position) (py agent_position - 1)
                    (pz agent_position))
        (Rmin 1.0 (INR (List.length blocks_below) / 10.0)) ]
  else [].

(** The suffocation check: a solid block in the head cell. *)
Definition suffocation_hazard (agent_position : Position)
    (nearby_blocks : list Block) : list Hazard :=
  let head_level_blocks :=
    filter (fun b =>
              Rltb (Rabs (get_or 0 (b_y b) - py agent_position - 1)) 0.5
              && get_or false (b_solid b)
              && Rltb (Rabs (get_or 0 (b_x b) - px agent_position)) 0.5
              && Rltb (Rabs (get_or 0 (b_z b) - pz agent_position)) 0.5)
           nearby_blocks in
  match head_level_blocks with
  | [] => []
  | _ :: _ =>
      [ mkHazard "suffocation"
          (mkPosition (px agent_position) (py agent_position + 1)
                      (pz agent_position))
          0.9 ]
  end.

(** The body of the loop over [nearby_blocks]: the hazard one block adds,
    if any. *)
Definition block_hazard (agent_position : Position) (b : Block)
  : result (option Hazard) :=
  let block_type := get_or "" (b_type b) in
  let block_pos := block_position b in
  match lookup block_type dangerous_blocks with
  | None => inr None
  | Some info =>
      let dist := euclid agent_position block_pos in
      if Rleb dist (IZR (info_radius info)) then
        match py_div dist (info_radius info) with
        | inl e => inl e
        | inr q =>
            inr (Some (mkHazard (info_type info) block_pos
                                (info_severity info * (1.0 - q))))
        end
      else inr None
  end.

(** The loop over [nearby_blocks]; it stops at the first exception. *)
Fixpoint block_hazards (agent_position : Position)
    (nearby_blocks : list Block) : result (list Hazard) :=
  match nearby_blocks with
  | [] => inr []
  | b :: rest =>
      match block_hazard agent_position b with
      | inl e => inl e
      | inr o =>
          match block_hazards agent_position rest with
          | inl e => inl e
          | inr hs =>
              inr (match o with Some h => h :: hs | None => hs end)
          end
      end
  end.

(** The list [hazards] just before it is sorted. *)
Definition detected_hazards (agent_position : Position)
    (nearby_blocks : list Block) : result (list Hazard) :=
  match block_hazards agent_position nearby_blocks with
  | inl e => inl e
  | inr hs =>
      inr (fall_hazard agent_position nearby_blocks
           ++ suffocation_hazard agent_position nearby_blocks
           ++ hs)
  end.

Definition detect_hazards (agent_position : Position)
    (nearby_blocks : list Block) : result (list Hazard) :=
  match detected_hazards agent_position nearby_blocks with
  | inl e => inl e
  | inr hs => inr (firstn 5 (sort_desc severity hs))
  end.

(** *** Resources *)

(** A resource dict of [nearby_resources]. *)
Record Resource : Type := mkResource {
  r_type : option string;
  r_x : option R;
  r_y : option R;
  r_z : option R
}.

(** The dict [prioritize_resources] builds for a resource: the resource's
    own keys, with "priority" and "distance". *)
Record Prioritized : Type := mkPrioritized {
  p_resource : Resource;
  p_priority : R;
  p_distance : R
}.

Definition resource_position (r : Resource) : Position :=
  mkPosition (get_or 0 (r_x r)) (get_or 0 (r_y r)) (get_or 0 (r_z r)).

(** [resource_type in mission_needs] *)
Definition needed (resource_type : string) (mission_needs : list string)
  : bool :=
  existsb (String.eqb resource_type) mission_needs.

(** On reals the priority falls strictly with the distance while it is
    positive; on floats two distances one rounding apart can give the same
    priority.  The properties below state no more than that it does not
    grow. *)
Definition calculate_resource_priority (resource_type : string) (dist : R)
    (current_inventory : list (string * Z)) (mission_needs : list string)
  : R :=
  let priority := 0.0 in
  let priority :=
    if needed resource_type mission_needs then priority + 10.0
    else priority in
  let current_count := get_or 0%Z (lookup resource_type current_inventory) in
  let priority :=
    if (current_count <? 10)%Z then
      priority + IZR (10 - current_count) * 0.5
    else priority in
  let priority := priority - dist * 0.1 in
  Rmax 0.0 priority.

(** The dict the loop body of [prioritize_resources] appends. *)
Definition prioritized_of (agent_position : Position)
    (current_inventory : list (string * Z)) (mission_needs : list string)
    (r : Resource) : Prioritized :=
  let resource_type := get_or "" (r_type r) in
  let dist := euclid agent_position (resource_position r) in
  mkPrioritized r
    (calculate_resource_priority resource_type dist current_inventory
       mission_needs)
    dist.

Definition prioritize_resources (nearby_resources : list Resource)
    (agent_position : Position) (current_inventory : list (string * Z))
    (mission_needs : list string) : list Prioritized :=
  firstn 10
    (sort_desc p_priority
       (map (prioritized_of agent_position current_inventory mission_needs)
            nearby_resources)).

(** *** Path adjustment *)

(** The two inner loops of [adjust_pathfinding_for_threats]: a threat of
    danger above 0.5, or else a hazard of severity above 0.4, is closer
    than 5.0 to the waypoint. *)
Definition too_dangerous (threats : list Threat) (hazards : list Hazard)
    (waypoint : Position) : bool :=
  existsb (fun t => Rltb (euclid waypoint (t_position t)) 5.0
                    && Rltb 0.5 (danger_level t)) threats
  || existsb (fun h => Rltb (euclid waypoint (h_position h)) 5.0
                       && Rltb 0.4 (severity h)) hazards.

Definition adjust_pathfinding_for_threats (current_path : list Position)
    (threats : list Threat) (hazards : list Hazard) : list Position :=
  match current_path with
  | [] => current_path
  | first :: _ =>
      let adjusted_path :=
        filter (fun w => negb (too_dangerous threats hazards w))
               current_path in
      match adjusted_path with
      | [] => [last current_path first]     (* current_path[-1] *)
      | _ :: _ => adjusted_path
      end
  end.

(** *** Vocabulary and inputs of the properties *)

(** [tgt] is [p] moved by [step] on the x and z axes, each against the sign
    of [p]'s coordinate, and not at all where the coordinate is 0. *)
Definition moved_against_sign (step : R) (p tgt : Position) : Prop :=
  py tgt = py p /\
  (px p = 0 -> px tgt = px p) /\
  (0 < px p -> px tgt = px p - step) /\
  (px p < 0 -> px tgt = px p + step) /\
  (pz p = 0 -> pz tgt = pz p) /\
  (0 < pz p -> pz tgt = pz p - step) /\
  (pz p < 0 -> pz tgt = pz p + step).

(** [x] is the first element of [l] whose key is above [bound]. *)
Definition first_above {A : Type} (key : A -> R) (bound : R) (l : list A)
    (x : A) : Prop :=
  exists pre post,
    l = pre ++ x :: post /\ bound < key x /\
    forall y, In y pre -> key y <= bound.

(** No element of [l] has a key above [bound]. *)
Definition none_above {A : Type} (key : A -> R) (bound : R) (l : list A)
  : Prop :=
  forall y, In y l -> key y <= bound.

(** The first threat of the list, if there is one, has a danger level of
    at most [bound]. *)
Definition head_at_most (bound : R) (threats : list Threat) : Prop :=
  forall t rest, threats = t :: rest -> danger_level t <= bound.

(** The five actions of a decision. *)
Definition known_action (a : string) : Prop :=
  a = "flee" \/ a = "attack" \/ a = "shield" \/ a = "dodge" \/ a = "hold".

Definition unit_interval (x : R) : Prop := 0 <= x <= 1.

(** No threat of danger above 0.5 and no hazard of severity above 0.4 is
    closer than 5 to the waypoint. *)
Definition clear_of (threats : list Threat) (hazards : list Hazard)
    (w : Position) : Prop :=
  (forall t, In t threats -> 0.5 < danger_level t ->
             5 <= euclid w (t_position t)) /\
  (forall h, In h hazards -> 0.4 < severity h ->
             5 <= euclid w (h_position h)).

(** The inventory count the priority is computed from. *)
Definition inventory_count (resource_type : string)
    (current_inventory : list (string * Z)) : Z :=
  get_or 0%Z (lookup resource_type current_inventory).

(** The number of hazards that stand before [h] once [pre ++ h :: post] is
    sorted by non-increasing severity, the sort being stable: the hazards
    of [pre] that are no less severe than [h], and the hazards of [post]
    that are more severe. *)
Definition ranked_ahead (h : Hazard) (pre post : list Hazard) : nat :=
  (List.length (filter (fun x => Rleb (severity h) (severity x)) pre)
   + List.length (filter (fun x => Rltb (severity h) (severity x)) post))%nat.

Definition lava_at_5 : Hazard := mkHazard "lava" (mkPosition 5 64 0) 1.0.

Definition suffocation_then_lava : list Hazard :=
  [ mkHazard "suffocation" (mkPosition 1 65 0) 0.9;
    mkHazard "lava" (mkPosition 3 64 0) 1.0 ].

(** A warden on the agent's own block, its health not given. *)
Definition warden : Entity :=
  mkEntity (Some "warden") (Some 0) (Some 64) (Some 0) None.

Definition spawn : Position := mkPosition 0 64 0.


Definition origin : Position := mkPosition 0 0 0.

(** A cactus block dict without coordinates: they default to 0. *)
Definition bare_cactus : Block := mkBlock (Some "cactus") None None None None.

Definition lava_2_east : Block :=
  mkBlock (Some "lava") (Some 2) (Some 0) (Some 0) (Some false).

Definition lava_3_east : Block :=
  mkBlock (Some "lava") (Some 3) (Some 0) (Some 0) (Some false).

Definition fire_at (x y z : R) : Block :=
  mkBlock (Some "fire") (Some x) (Some y) (Some z) (Some false).

(** Five fire blocks next to the agent, and a lava block 2 away. *)
Definition ring_of_fire : list Block :=
  [ fire_at 1 0 0; fire_at (-1) 0 0; fire_at 0 0 1; fire_at 0 0 (-1);
    fire_at 0 1 0; lava_2_east ].

End Tactical.

(** ** sync.py *)

Module Sync.

Record ForemanConfig : Type := mkConfig {
  base_url : string;
  api_key : string;
  cfg_agent_id : string;
  sync_interval_seconds : Z
}.

Record SyncState : Type := mkSyncState {
  last_sync : option datetime;
  last_sync_success : bool;
  sync_failures : Z;
  last_error : option string;
  pending_updates : list json
}.

(** [SyncState()] *)
Definition new_SyncState : SyncState := mkSyncState None true 0 None [].

(** A [SyncManager], with the clock [datetime.utcnow()] reads: every
    reading advances it.  [sm_sync_state] is the attribute
    [self.sync_state]. *)
Record SyncManager : Type := mkSyncManager {
  config : ForemanConfig;
  sm_sync_state : SyncState;
  sm_clock : datetime
}.

Definition set_sync_state (m : SyncManager) (st : SyncState) : SyncManager :=
  mkSyncManager (config m) st (sm_clock m).

Definition tick (m : SyncManager) : SyncManager :=
  mkSyncManager (config m) (sm_sync_state m) (sm_clock m + 1)%Z.

(** The response the source builds in place of the coordinator's. *)
Definition simulated_response : json :=
  JDict [ ("status", JStr "synced"); ("missions", JList []);
          ("configUpdates", JDict []) ].

(** The payload [sync_state] builds, on the manager as it is once
    [last_sync] is set. *)
Definition sync_payload (m1 : SyncManager) (agent_state : json) : json :=
  JDict [ ("agentId", JStr (cfg_agent_id (config m1)));
          ("timestamp", JIso (sm_clock m1));
          ("state", agent_state);
          ("pendingUpdates", JList (pending_updates (sm_sync_state m1))) ].

(** [self.sync_state.last_sync = datetime.utcnow()] *)
Definition stamp_last_sync (m : SyncManager) : SyncManager :=
  let st0 := sm_sync_state m in
  tick (set_sync_state m
          (mkSyncState (Some (sm_clock m)) (last_sync_success st0)
             (sync_failures st0) (last_error st0) (pending_updates st0))).

(** The body of [SyncManager.sync_state], with the call the source has
    commented out ("Send to Foreman") restored: [send payload] is what that
    call does.  The result pairs what the method returns or raises with the
    manager afterwards. *)
Definition sync_state_sending (send : json -> result unit) (m : SyncManager)
    (agent_state : json) : result json * SyncManager :=
  let m1 := stamp_last_sync m in
  let st1 := sm_sync_state m1 in
  (* try: *)
  let payload := sync_payload m1 agent_state in
  let m2 := tick m1 in
  match send payload with
  | inr _ =>
      (inr simulated_response,
       set_sync_state m2 (mkSyncState (last_sync st1) true 0 None []))
  | inl e =>
      (* except Exception as e: *)
      let entry :=
        JDict [ ("timestamp", JIso (sm_clock m2)); ("state", agent_state) ] in
      let appended := pending_updates st1 ++ [entry] in
      let kept :=
        if (10 <? List.length appended)%nat then last_n 10 appended
        else appended in
      (inl e,
       tick (set_sync_state m2
               (mkSyncState (last_sync st1) false (sync_failures st1 + 1)
                  (Some (exn_message e)) kept)))
  end.

(** [SyncManager.sync_state] as the source has it: nothing is sent ("for
    now, simulate successful sync"), so no statement of the [try] block
    raises and the [except] block is never entered.
    (On an instance the attribute [sync_state] that [__init__] sets hides
    this method; it is reached as [SyncManager.sync_state(manager, state)].
    See [call_sync_state] for the call on an instance.) *)
Definition sync_state (m : SyncManager) (agent_state : json)
  : result json * SyncManager :=
  sync_state_sending (fun _ => inr tt) m agent_state.

(** [delta.total_seconds()], a [datetime] counting microseconds. *)
Definition total_seconds (delta : Z) : R := IZR delta / 1000000.

(** [SyncManager.should_sync]: the clock is read only when there was a sync
    before. *)
Definition should_sync (m : SyncManager) : bool * SyncManager :=
  match last_sync (sm_sync_state m) with
  | None => (true, m)
  | Some t =>
      let elapsed := (sm_clock m - t)%Z in
      (Rleb (IZR (sync_interval_seconds (config m))) (total_seconds elapsed),
       tick m)
  end.

(** The manager when the clock reads [now]. *)
Definition sm_at_time (m : SyncManager) (now : datetime) : SyncManager :=
  mkSyncManager (config m) (sm_sync_state m) now.

(** *** TelemetryLogger *)

Record TelemetryEvent : Type := mkTelemetryEvent {
  te_event_type : string;
  te_timestamp : datetime;
  te_agent_id : string;
  te_data : json
}.

Record TelemetryLogger : Type := mkTelemetryLogger {
  tl_agent_id : string;
  buffer_size : Z;
  buffer : list TelemetryEvent
}.

Definition set_buffer (tl : TelemetryLogger) (b : list TelemetryEvent)
  : TelemetryLogger :=
  mkTelemetryLogger (tl_agent_id tl) (buffer_size tl) b.

(** [l[-k:]] for an int [k]: the last [k] elements for a positive [k], the
    whole list for 0 (the slice is [l[0:]]), and [l[|k|:]] for a negative
    one. *)
Definition slice_last {A : Type} (k : Z) (l : list A) : list A :=
  if (0 <? k)%Z then last_n (Z.to_nat k) l
  else skipn (Z.to_nat (- k)) l.

(** [l[:k]] for an int [k]: a negative [k] counts from the end. *)
Definition slice_first {A : Type} (k : Z) (l : list A) : list A :=
  if (k <? 0)%Z then firstn (List.length l - Z.to_nat (- k)) l
  else firstn (Z.to_nat k) l.

(** [TelemetryLogger.log], the clock reading [now]: the event it returns,
    and the logger afterwards. *)
Definition log (tl : TelemetryLogger) (now : datetime) (event_type : string)
    (data : json) : TelemetryEvent * TelemetryLogger :=
  let event := mkTelemetryEvent event_type now (tl_agent_id tl) data in
  let appended := buffer tl ++ [event] in
  let kept :=
    if (buffer_size tl <? Z.of_nat (List.length appended))%Z then
      slice_last (buffer_size tl) appended
    else appended in
  (event, set_buffer tl kept).

(** The sort key of [get_events]. *)
Definition timestamp_key (e : TelemetryEvent) : R := IZR (te_timestamp e).

(** [if event_type:] on an optional string. *)
Definition type_given (event_type : option string) : bool :=
  match event_type with
  | Some ty => negb (String.eqb ty "")
  | None => false
  end.

Definition of_type (event_type : option string) (e : TelemetryEvent) : bool :=
  String.eqb (te_event_type e) (get_or "" event_type).

Definition not_before (t : datetime) (e : TelemetryEvent) : bool :=
  (t <=? te_timestamp e)%Z.

(** [TelemetryLogger.get_events]: the events it returns, and the logger
    afterwards.  [events] starts as the list [self.buffer] itself; each
    filter that applies binds it to a new list; [events.sort] then sorts
    the list in place, which is the buffer when no filter applied. *)
Definition get_events (tl : TelemetryLogger) (event_type : option string)
    (since : option datetime) (limit : Z)
  : list TelemetryEvent * TelemetryLogger :=
  let events := buffer tl in
  let events :=
    if type_given event_type then filter (of_type event_type) events
    else events in
  let events :=
    match since with
    | Some t => filter (not_before t) events
    | None => events
    end in
  let sorted := sort_desc timestamp_key events in
  let is_buffer :=
    negb (type_given event_type)
    && match since with Some _ => false | None => true end in
  (slice_first limit sorted, if is_buffer then set_buffer tl sorted else tl).

(** [TelemetryLogger.clear_events]: the count it returns, and the logger
    afterwards. *)
Definition clear_events (tl : TelemetryLogger) (before : option datetime)
  : Z * TelemetryLogger :=
  match before with
  | None => (Z.of_nat (List.length (buffer tl)), set_buffer tl [])
  | Some t =>
      let old_count := Z.of_nat (List.length (buffer tl)) in
      let kept := filter (not_before t) (buffer tl) in
      ((old_count - Z.of_nat (List.length kept))%Z, set_buffer tl kept)
  end.

(** *** Sending, and the periodic sync *)

(** [TelemetryEvent.to_dict] *)
Definition TelemetryEvent_to_dict (e : TelemetryEvent) : json :=
  JDict [ ("eventType", JStr (te_event_type e));
          ("timestamp", JIso (te_timestamp e));
          ("agentId", JStr (te_agent_id e));
          ("data", te_data e) ].

Definition telemetry_payload (m : SyncManager) (events : list TelemetryEvent)
  : json :=
  JDict [ ("agentId", JStr (cfg_agent_id (config m)));
          ("events", JList (map TelemetryEvent_to_dict events)) ].

(** [self.sync_state.last_error = msg] *)
Definition set_last_error (m : SyncManager) (msg : string) : SyncManager :=
  let st := sm_sync_state m in
  set_sync_state m
    (mkSyncState (last_sync st) (last_sync_success st) (sync_failures st)
       (Some msg) (pending_updates st)).

(** [SyncManager.send_telemetry].  As in [sync_state] the call that sends is
    commented out in the source, and [send] stands for it. *)
Definition send_telemetry (send : json -> result unit) (m : SyncManager)
    (events : list TelemetryEvent) : bool * SyncManager :=
  match events with
  | [] => (true, m)
  | _ :: _ =>
      match send (telemetry_payload m events) with
      | inr _ => (true, m)
      | inl e => (false, set_last_error m (exn_message e))
      end
  end.

(** [SyncManager.get_missions]: the request is commented out in the source,
    the missions are the empty list it builds instead. *)
Definition get_missions (m : SyncManager) : list json * SyncManager :=
  ([], m).

(** [sync_manager.sync_state(agent_state)] on an instance.  [__init__] binds
    the instance attribute [sync_state] to a [SyncState]; the lookup finds it
    before the method of the class, and a dataclass instance cannot be
    called. *)
Definition call_sync_state (m : SyncManager) (agent_state : json)
  : result json * SyncManager :=
  (inl (TypeError "'SyncState' object is not callable"), m).

(** The dict [perform_periodic_sync] returns. *)
Record SyncResult : Type := mkSyncResult {
  synced : bool;
  missions : json;
  configUpdates : json;
  telemetrySent : bool
}.

Definition perform_periodic_sync (send : json -> result unit)
    (sync_manager : SyncManager) (agent_state : json)
    (telemetry_logger : TelemetryLogger)
  : result SyncResult * SyncManager * TelemetryLogger :=
  let result := mkSyncResult false (JList []) (JDict []) false in
  let (due, sync_manager) := should_sync sync_manager in
  if negb due then (inr result, sync_manager, telemetry_logger)
  else
    match call_sync_state sync_manager agent_state with
    | (inl e, sync_manager) => (inl e, sync_manager, telemetry_logger)
    | (inr (JDict sync_response), sync_manager) =>
        let result :=
          mkSyncResult true
            (get_or (JList []) (dict_get "missions" sync_response))
            (get_or (JDict []) (dict_get "configUpdates" sync_response))
            false in
        (* get_missions returns the empty list: nothing to extend with *)
        let (_, sync_manager) := get_missions sync_manager in
        match buffer telemetry_logger with
        | [] => (inr result, sync_manager, telemetry_logger)
        | _ :: _ =>
            let (telemetry_sent, sync_manager) :=
              send_telemetry send sync_manager (buffer telemetry_logger) in
            let result :=
              mkSyncResult (synced result) (missions result)
                (configUpdates result) telemetry_sent in
            if telemetry_sent then
              (inr result, sync_manager,
               snd (clear_events telemetry_logger None))
            else (inr result, sync_manager, telemetry_logger)
        end
    | (inr _, sync_manager) =>
        (inl (AttributeError "get"), sync_manager, telemetry_logger)
    end.

(** *** Inputs of the properties *)

(** The events logged one after the other, each with the reading of the
    clock, its type and its data. *)
Fixpoint log_all (tl : TelemetryLogger)
    (entries : list (datetime * string * json)) : TelemetryLogger :=
  match entries with
  | [] => tl
  | (now, event_type, data) :: rest =>
      log_all (snd (log tl now event_type data)) rest
  end.

Definition event_of (tl : TelemetryLogger)
    (entry : datetime * string * json) : TelemetryEvent :=
  let '(now, event_type, data) := entry in
  mkTelemetryEvent event_type now (tl_agent_id tl) data.

(** A full logger of size 2, its events in the order of their time. *)
Definition full_logger : TelemetryLogger :=
  mkTelemetryLogger "steve-1" 2
    [ mkTelemetryEvent "combat" 10%Z "steve-1" JNull;
      mkTelemetryEvent "mission" 20%Z "steve-1" JNull ].

Definition some_manager : SyncManager :=
  mkSyncManager (mkConfig "http://localhost:8080" "" "steve-1" 5)
                new_SyncState 0%Z.

End Sync.

(** ** index.py *)

Module Actor.
Import Tactical.

Inductive AgentStatus : Type :=
| IDLE | PLANNING | EXECUTING | WAITING | COMBAT | ERROR.

Definition status_value (s : AgentStatus) : string :=
  match s with
  | IDLE => "idle"
  | PLANNING => "planning"
  | EXECUTING => "executing"
  | WAITING => "waiting"
  | COMBAT => "combat"
  | ERROR => "error"
  end.

(** [AgentStatus(value)] *)
Definition AgentStatus_of_value (v : string) : result AgentStatus :=
  if String.eqb v "idle" then inr IDLE
  else if String.eqb v "planning" then inr PLANNING
  else if String.eqb v "executing" then inr EXECUTING
  else if String.eqb v "waiting" then inr WAITING
  else if String.eqb v "combat" then inr COMBAT
  else if String.eqb v "error" then inr ERROR
  else inl (ValueError v).

(** index.py and tactical.py each declare dataclasses [Position], [Threat],
    [Hazard] and [TacticalDecision] with the same fields.  Those of index.py
    have a [to_dict] method, those of tactical.py have none.  The records of
    [Tactical] hold the fields; an object in the agent state carries the
    module its class comes from. *)
Inductive pyclass : Type := IndexClass | TacticalClass.

Record AgentState : Type := mkAgentState {
  agent_id : string;
  status : AgentStatus;
  position : Position;
  health : Z;
  hunger : Z;
  current_task : option string;
  inventory_slots : Z;
  last_active : datetime;
  active_threats : list (pyclass * Threat);
  known_hazards : list (pyclass * Hazard);
  mission_queue : list json;
  telemetry_events : list json
}.

Definition set_position (p : Position) (s : AgentState) : AgentState :=
  mkAgentState (agent_id s) (status s) p (health s) (hunger s)
    (current_task s) (inventory_slots s) (last_active s) (active_threats s)
    (known_hazards s) (mission_queue s) (telemetry_events s).

Definition set_status (v : AgentStatus) (s : AgentState) : AgentState :=
  mkAgentState (agent_id s) v (position s) (health s) (hunger s)
    (current_task s) (inventory_slots s) (last_active s) (active_threats s)
    (known_hazards s) (mission_queue s) (telemetry_events s).

Definition set_health (v : Z) (s : AgentState) : AgentState :=
  mkAgentState (agent_id s) (status s) (position s) v (hunger s)
    (current_task s) (inventory_slots s) (last_active s) (active_threats s)
    (known_hazards s) (mission_queue s) (telemetry_events s).

Definition set_hunger (v : Z) (s : AgentState) : AgentState :=
  mkAgentState (agent_id s) (status s) (position s) (health s) v
    (current_task s) (inventory_slots s) (last_active s) (active_threats s)
    (known_hazards s) (mission_queue s) (telemetry_events s).

Definition set_current_task (v : option string) (s : AgentState)
  : AgentState :=
  mkAgentState (agent_id s) (status s) (position s) (health s) (hunger s)
    v (inventory_slots s) (last_active s) (active_threats s)
    (known_hazards s) (mission_queue s) (telemetry_events s).

Definition set_last_active (v : datetime) (s : AgentState) : AgentState :=
  mkAgentState (agent_id s) (status s) (position s) (health s) (hunger s)
    (current_task s) (inventory_slots s) v (active_threats s)
    (known_hazards s) (mission_queue s) (telemetry_events s).

Definition set_active_threats (v : list (pyclass * Threat)) (s : AgentState)
  : AgentState :=
  mkAgentState (agent_id s) (status s) (position s) (health s) (hunger s)
    (current_task s) (inventory_slots s) (last_active s) v
    (known_hazards s) (mission_queue s) (telemetry_events s).

Definition set_known_hazards (v : list (pyclass * Hazard)) (s : AgentState)
  : AgentState :=
  mkAgentState (agent_id s) (status s) (position s) (health s) (hunger s)
    (current_task s) (inventory_slots s) (last_active s) (active_threats s)
    v (mission_queue s) (telemetry_events s).

Definition set_mission_queue (v : list json) (s : AgentState) : AgentState :=
  mkAgentState (agent_id s) (status s) (position s) (health s) (hunger s)
    (current_task s) (inventory_slots s) (last_active s) (active_threats s)
    (known_hazards s) v (telemetry_events s).

Definition set_telemetry_events (v : list json) (s : AgentState)
  : AgentState :=
  mkAgentState (agent_id s) (status s) (position s) (health s) (hunger s)
    (current_task s) (inventory_slots s) (last_active s) (active_threats s)
    (known_hazards s) (mission_queue s) v.

(** *** Exceptions in sequence *)

Definition rbind {A B : Type} (r : result A) (k : A -> result B) : result B :=
  match r with
  | inl e => inl e
  | inr x => k x
  end.

Notation "x <-- r ;; k" := (rbind r (fun x => k))
  (at level 61, r at next level, right associativity).

(** The stored records are typed as the dataclasses are annotated.  Python
    stores any value unchecked; here a value of another type than the
    annotation is refused with TypeError.  The actor writes no such value. *)
Definition as_str (v : json) : result string :=
  match v with JStr s => inr s | _ => inl (TypeError "str expected") end.

Definition as_int (v : json) : result Z :=
  match v with JInt z => inr z | _ => inl (TypeError "int expected") end.

Definition as_float (v : json) : result R :=
  match v with
  | JFloat r => inr r
  | JInt z => inr (IZR z)
  | _ => inl (TypeError "float expected")
  end.

Definition as_dict (v : json) : result (list (string * json)) :=
  match v with JDict d => inr d | _ => inl (TypeError "mapping expected") end.

Definition as_list (v : json) : result (list json) :=
  match v with JList l => inr l | _ => inl (TypeError "list expected") end.

Definition as_optional_str (v : json) : result (option string) :=
  match v with
  | JNull => inr None
  | JStr s => inr (Some s)
  | _ => inl (TypeError "str or None expected")
  end.

Definition as_datetime (v : json) : result datetime :=
  match v with
  | JIso t => inr t
  | _ => inl (ValueError "Invalid isoformat string")
  end.

Definition optional_str_json (o : option string) : json :=
  match o with Some s => JStr s | None => JNull end.

(** *** to_dict and from_dict *)

Definition Position_to_dict (p : Position) : json :=
  JDict [ ("x", JFloat (px p)); ("y", JFloat (py p)); ("z", JFloat (pz p)) ].

(** [Position.from_dict].  Python stores the three values unchecked; here
    a coordinate that is no number is refused with TypeError, where the code
    goes on and raises at the first arithmetic on it (or stores it).  The
    properties below are about bodies and stored states whose coordinates
    are numbers. *)
Definition Position_from_dict (data : list (string * json))
  : result Position :=
  x <-- subscript data "x" ;; x <-- as_float x ;;
  y <-- subscript data "y" ;; y <-- as_float y ;;
  z <-- subscript data "z" ;; z <-- as_float z ;;
  inr (mkPosition x y z).

(** [t.to_dict()]: defined by index.py's [Threat] only. *)
Definition Threat_to_dict (o : pyclass * Threat) : result json :=
  match fst o with
  | TacticalClass => inl (AttributeError "to_dict")
  | IndexClass =>
      let t := snd o in
      inr (JDict [ ("entityType", JStr (entity_type t));
                   ("position", Position_to_dict (t_position t));
                   ("distance", JFloat (distance t));
                   ("dangerLevel", JFloat (danger_level t));
                   ("estimatedHealth", JInt (estimated_health t)) ])
  end.

(** [h.to_dict()]: defined by index.py's [Hazard] only. *)
Definition Hazard_to_dict (o : pyclass * Hazard) : result json :=
  match fst o with
  | TacticalClass => inl (AttributeError "to_dict")
  | IndexClass =>
      let h := snd o in
      inr (JDict [ ("hazardType", JStr (hazard_type h));
                   ("position", Position_to_dict (h_position h));
                   ("severity", JFloat (severity h)) ])
  end.

(** [decision.to_dict()] on what [get_quick_decision] returns, an instance
    of tactical.py's [TacticalDecision]: that class has no such method. *)
Definition tactical_decision_to_dict (d : TacticalDecision) : result json :=
  inl (AttributeError "to_dict").

(** The keyword check of a dataclass constructor called as [Cls( **kw )]:
    a key that is no field is refused, and so is a field without a key. *)
Definition check_kwargs (fields : list string) (kw : list (string * json))
  : result unit :=
  match find (fun k => negb (existsb (String.eqb k) fields)) (map fst kw) with
  | Some k => inl (TypeError "unexpected keyword argument")
  | None =>
      match find (fun f => negb (existsb (String.eqb f) (map fst kw)))
                 fields with
      | Some f => inl (TypeError "missing required argument")
      | None => inr tt
      end
  end.

Definition Threat_fields : list string :=
  [ "entity_type"; "position"; "distance"; "danger_level";
    "estimated_health" ].

Definition Hazard_fields : list string :=
  [ "hazard_type"; "position"; "severity" ].

(** [Threat( **t )] *)
Definition Threat_from_kwargs (t : json) : result (pyclass * Threat) :=
  kw <-- as_dict t ;;
  _ <-- check_kwargs Threat_fields kw ;;
  ty <-- subscript kw "entity_type" ;; ty <-- as_str ty ;;
  p <-- subscript kw "position" ;; p <-- as_dict p ;;
  p <-- Position_from_dict p ;;
  d <-- subscript kw "distance" ;; d <-- as_float d ;;
  dl <-- subscript kw "danger_level" ;; dl <-- as_float dl ;;
  eh <-- subscript kw "estimated_health" ;; eh <-- as_int eh ;;
  inr (IndexClass, mkThreat ty p d dl eh).

(** [Hazard( **h )] *)
Definition Hazard_from_kwargs (h : json) : result (pyclass * Hazard) :=
  kw <-- as_dict h ;;
  _ <-- check_kwargs Hazard_fields kw ;;
  ty <-- subscript kw "hazard_type" ;; ty <-- as_str ty ;;
  p <-- subscript kw "position" ;; p <-- as_dict p ;;
  p <-- Position_from_dict p ;;
  sv <-- subscript kw "severity" ;; sv <-- as_float sv ;;
  inr (IndexClass, mkHazard ty p sv).

Definition _serialize_state (state : AgentState) : result json :=
  threats <-- map_result Threat_to_dict (active_threats state) ;;
  hazards <-- map_result Hazard_to_dict (known_hazards state) ;;
  inr (JDict
    [ ("agentId", JStr (agent_id state));
      ("status", JStr (status_value (status state)));
      ("position", Position_to_dict (position state));
      ("health", JInt (health state));
      ("hunger", JInt (hunger state));
      ("currentTask", optional_str_json (current_task state));
      ("inventorySlots", JInt (inventory_slots state));
      ("lastActive", JIso (last_active state));
      ("activeThreats", JList threats);
      ("knownHazards", JList hazards);
      ("missionQueue", JList (mission_queue state));
      ("telemetryEvents", JList (last_n 100 (telemetry_events state))) ]).

Definition _deserialize_state (data : json) : result AgentState :=
  data <-- as_dict data ;;
  id <-- subscript data "agentId" ;; id <-- as_str id ;;
  st <-- subscript data "status" ;; st <-- as_str st ;;
  st <-- AgentStatus_of_value st ;;
  pos <-- subscript data "position" ;; pos <-- as_dict pos ;;
  pos <-- Position_from_dict pos ;;
  hp <-- subscript data "health" ;; hp <-- as_int hp ;;
  hg <-- subscript data "hunger" ;; hg <-- as_int hg ;;
  task <-- as_optional_str (get_or JNull (dict_get "currentTask" data)) ;;
  slots <-- as_int (get_or (JInt 36) (dict_get "inventorySlots" data)) ;;
  la <-- subscript data "lastActive" ;; la <-- as_datetime la ;;
  ts <-- as_list (get_or (JList []) (dict_get "activeThreats" data)) ;;
  threats <-- map_result Threat_from_kwargs ts ;;
  hs <-- as_list (get_or (JList []) (dict_get "knownHazards" data)) ;;
  hazards <-- map_result Hazard_from_kwargs hs ;;
  queue <-- as_list (get_or (JList []) (dict_get "missionQueue" data)) ;;
  events <-- as_list (get_or (JList []) (dict_get "telemetryEvents" data)) ;;
  inr (mkAgentState id st pos hp hg task slots la threats hazards queue
         events).

(** *** The actor object *)

(** An [AgentStateDO] with its durable storage and the clock
    [datetime.utcnow()] reads. *)
Record ActorObj : Type := mkActor {
  durable_id : string;              (* self.state.id *)
  storage : option json;            (* the value stored under "state" *)
  self_agent_id : option string;    (* self.agent_id *)
  state_data : option AgentState;   (* self.state_data *)
  clock : datetime
}.

(** A computation on the actor: what it returns or raises, and the actor
    afterwards.  What was mutated before an exception stays mutated. *)
Definition M (A : Type) : Type := ActorObj -> result A * ActorObj.

Definition ret {A : Type} (x : A) : M A := fun a => (inr x, a).

Definition raise {A : Type} (e : exn) : M A := fun a => (inl e, a).

Definition bind {A B : Type} (m : M A) (k : A -> M B) : M B :=
  fun a =>
    match m a with
    | (inl e, a') => (inl e, a')
    | (inr x, a') => k x a'
    end.

(** [try: m except Exception as e: handler(e)] *)
Definition try_except {A : Type} (m : M A) (handler : exn -> M A) : M A :=
  fun a =>
    match m a with
    | (inl e, a') => handler e a'
    | (inr x, a') => (inr x, a')
    end.

Definition lift {A : Type} (r : result A) : M A := fun a => (r, a).

Notation "x <- m ;; k" := (bind m (fun x => k))
  (at level 61, m at next level, right associativity).
Notation "m ;; k" := (bind m (fun _ => k))
  (at level 61, right associativity).

Definition get_actor : M ActorObj := fun a => (inr a, a).

(** [datetime.utcnow()]: every reading is later than the one before. *)
Definition utcnow : M datetime :=
  fun a =>
    (inr (clock a),
     mkActor (durable_id a) (storage a) (self_agent_id a) (state_data a)
             (clock a + 1)%Z).

(** [self.storage.put("state", data)] *)
Definition storage_put (data : json) : M unit :=
  fun a =>
    (inr tt,
     mkActor (durable_id a) (Some data) (self_agent_id a) (state_data a)
             (clock a)).

Definition set_self_agent_id (id : string) : M unit :=
  fun a =>
    (inr tt,
     mkActor (durable_id a) (storage a) (Some id) (state_data a) (clock a)).

(** [self.state_data = st] *)
Definition put_state (st : AgentState) : M unit :=
  fun a =>
    (inr tt,
     mkActor (durable_id a) (storage a) (self_agent_id a) (Some st)
             (clock a)).

(** A read of [self.state_data.<field>]: AttributeError on [None]. *)
Definition get_state : M AgentState :=
  fun a =>
    match state_data a with
    | Some st => (inr st, a)
    | None => (inl (AttributeError "state_data"), a)
    end.

(** [self.state_data.<field> = ...] *)
Definition modify_state (f : AgentState -> AgentState) : M unit :=
  st <- get_state ;; put_state (f st).

Definition _save_state : M unit :=
  a <- get_actor ;;
  match state_data a with
  | Some st =>
      data <- lift (_serialize_state st) ;;
      storage_put data ;;
      now <- utcnow ;;
      modify_state (set_last_active now)
  | None => ret tt
  end.

(** The branch of [_ensure_loaded] that creates the state. *)
Definition initialize_state : M unit :=
  a <- get_actor ;;
  set_self_agent_id (durable_id a) ;;
  now <- utcnow ;;
  put_state (mkAgentState (durable_id a) IDLE (mkPosition 0 64 0) 20 20
               None 36 now [] [] [] []) ;;
  _save_state.

Definition _ensure_loaded : M unit :=
  a <- get_actor ;;
  match state_data a with
  | Some _ => ret tt
  | None =>
      match storage a with
      | Some data =>
          if truthy data then
            st <- lift (_deserialize_state data) ;; put_state st
          else initialize_state
      | None => initialize_state
      end
  end.

(** The event [_log_telemetry] appends when the clock reads [now]. *)
Definition telemetry_event (event_type : string) (data : json)
    (now : datetime) : json :=
  JDict [ ("type", JStr event_type); ("data", data);
          ("timestamp", JIso now) ].

Definition _log_telemetry (event_type : string) (data : json) : M unit :=
  _ensure_loaded ;;
  now <- utcnow ;;
  let event := telemetry_event event_type data now in
  modify_state (fun st =>
    set_telemetry_events (telemetry_events st ++ [event]) st) ;;
  st <- get_state ;;
  (if (100 <? List.length (telemetry_events st))%nat then
     put_state (set_telemetry_events (last_n 100 (telemetry_events st)) st)
   else ret tt) ;;
  _save_state.

Definition _log_error (context message : string) : M unit :=
  _log_telemetry "error"
    (JDict [ ("context", JStr context); ("message", JStr message) ]).

(** *** Requests and responses *)

(** A request body, read as JSON: each key is present or not.  The mission
    and the telemetry data are any JSON value. *)
Record Body : Type := mkBody {
  b_position : option (list (string * json));
  b_status : option string;
  b_health : option Z;
  b_hunger : option Z;
  b_currentTask : option (option string);
  b_mission : option json;
  b_nearbyEntities : option (list Entity);
  b_nearbyBlocks : option (list Block);
  b_combatScore : option R;
  b_type : option string;
  b_data : option json
}.

Record Request : Type := mkRequest {
  method : string;
  path : string;
  req_body : option Body       (* [None]: the body is no JSON *)
}.

Record Response : Type := mkResponse {
  resp_body : json;
  resp_status : Z
}.

(** [await request.json()] *)
Definition request_json (request : Request) : M Body :=
  match req_body request with
  | Some b => ret b
  | None => raise JSONDecodeError
  end.

Definition method_not_allowed : Response :=
  mkResponse (JDict [ ("error", JStr "Method not allowed") ]) 405.

(** [if key in body: self.state_data.<field> = decode(body[key])] *)
Definition update_if_present {A B : Type} (field : option A)
    (decode : A -> result B) (set : B -> AgentState -> AgentState) : M unit :=
  match field with
  | Some v => x <- lift (decode v) ;; modify_state (set x)
  | None => ret tt
  end.

Definition _handle_sync (request : Request) : M Response :=
  _ensure_loaded ;;
  if String.eqb (method request) "GET" then
    st <- get_state ;;
    data <- lift (_serialize_state st) ;;
    ret (mkResponse data 200)
  else if String.eqb (method request) "POST" then
    body <- request_json request ;;
    update_if_present (b_position body) Position_from_dict set_position ;;
    update_if_present (b_status body) AgentStatus_of_value set_status ;;
    update_if_present (b_health body) inr set_health ;;
    update_if_present (b_hunger body) inr set_hunger ;;
    update_if_present (b_currentTask body) inr set_current_task ;;
    match b_mission body with
    | Some mission =>
        modify_state (fun st =>
          set_mission_queue (mission_queue st ++ [mission]) st)
    | None => ret tt
    end ;;
    _save_state ;;
    st <- get_state ;;
    now <- utcnow ;;
    ret (mkResponse
           (JDict [ ("status", JStr "synced");
                    ("agentId", JStr (agent_id st));
                    ("timestamp", JIso now) ])
           200)
  else ret method_not_allowed.

Definition _handle_mission (request : Request) : M Response :=
  _ensure_loaded ;;
  if String.eqb (method request) "GET" then
    st <- get_state ;;
    ret (mkResponse
           (JDict [ ("agentId", JStr (agent_id st));
                    ("missions", JList (mission_queue st));
                    ("current", optional_str_json (current_task st)) ])
           200)
  else if String.eqb (method request) "POST" then
    body <- request_json request ;;
    let mission := get_or JNull (b_mission body) in
    if negb (truthy mission) then
      ret (mkResponse (JDict [ ("error", JStr "Missing mission") ]) 400)
    else
      modify_state (fun st =>
        set_mission_queue (mission_queue st ++ [mission]) st) ;;
      _save_state ;;
      st <- get_state ;;
      ret (mkResponse
             (JDict [ ("status", JStr "queued");
                      ("queueLength",
                       JInt (Z.of_nat (List.length (mission_queue st)))) ])
             200)
  else if String.eqb (method request) "DELETE" then
    st <- get_state ;;
    match mission_queue st with
    | completed :: rest =>
        put_state (set_mission_queue rest st) ;;
        _save_state ;;
        ret (mkResponse (JDict [ ("completed", completed) ]) 200)
    | [] =>
        ret (mkResponse (JDict [ ("error", JStr "No missions to complete") ])
                        404)
    end
  else ret method_not_allowed.

(** *** The engine calls of a handler *)

(** A call of a function of tactical.py, with the arguments it is given.
    [assess_threats] is called without [combat_capability]: the argument
    recorded is the default the function then runs with. *)
Inductive EngineCall : Type :=
| assess_threats_call (agent_position : Position)
    (nearby_entities : list Entity) (current_health : Z)
    (combat_capability : R)
| detect_hazards_call (agent_position : Position)
    (nearby_blocks : list Block)
| get_quick_decision_call (threats : list Threat) (hazards : list Hazard)
    (combat_score : R) (current_mission : option string).

(** A computation on the actor that also lists, in their order, the engine
    calls it made; an exception leaves the calls made before it. *)
Definition Traced (A : Type) : Type :=
  ActorObj -> result A * ActorObj * list EngineCall.

Definition retT {A : Type} (x : A) : Traced A := fun a => (inr x, a, []).

Definition bindT {A B : Type} (m : Traced A) (k : A -> Traced B) : Traced B :=
  fun a =>
    match m a with
    | (inl e, a', calls) => (inl e, a', calls)
    | (inr x, a', calls) =>
        match k x a' with
        | (r, a'', calls') => (r, a'', calls ++ calls')
        end
    end.

(** A step that calls no function of the engine. *)
Definition quiet {A : Type} (m : M A) : Traced A := fun a => (m a, []).

(** The call [c], which returns or raises [r]. *)
Definition engine_call {A : Type} (c : EngineCall) (r : result A)
  : Traced A :=
  fun a => (r, a, [c]).

(** The computation without the list of its calls. *)
Definition erase {A : Type} (m : Traced A) : M A := fun a => fst (m a).

Notation "x <~ m ;; k" := (bindT m (fun x => k))
  (at level 61, m at next level, right associativity).

Definition call_assess_threats (agent_position : Position)
    (nearby_entities : list Entity) (current_health : Z)
  : Traced (list Threat) :=
  engine_call
    (assess_threats_call agent_position nearby_entities current_health
       default_combat_score)
    (inr (assess_threats agent_position nearby_entities current_health
            default_combat_score)).

Definition call_detect_hazards (agent_position : Position)
    (nearby_blocks : list Block) : Traced (list Hazard) :=
  engine_call (detect_hazards_call agent_position nearby_blocks)
              (detect_hazards agent_position nearby_blocks).

Definition call_get_quick_decision (threats : list Threat)
    (hazards : list Hazard) (combat_score : R)
    (current_mission : option string) : Traced TacticalDecision :=
  engine_call
    (get_quick_decision_call threats hazards combat_score current_mission)
    (inr (get_quick_decision threats hazards combat_score current_mission)).

(** [_handle_tactical], with the engine calls it makes. *)
Definition _handle_tactical_calls (request : Request) : Traced Response :=
  _ <~ quiet _ensure_loaded ;;
  if negb (String.eqb (method request) "POST") then retT method_not_allowed
  else
    body <~ quiet (request_json request) ;;
    _ <~ quiet (update_if_present (b_position body) Position_from_dict
                  set_position) ;;
    st <~ quiet get_state ;;
    let nearby_entities := get_or [] (b_nearbyEntities body) in
    let nearby_blocks := get_or [] (b_nearbyBlocks body) in
    let current_health := get_or (health st) (b_health body) in
    let combat_score := get_or 0.0 (b_combatScore body) in
    threats <~ call_assess_threats (position st) nearby_entities
                 current_health ;;
    hazards <~ call_detect_hazards (position st) nearby_blocks ;;
    _ <~ quiet (modify_state (fun st =>
           set_health current_health
             (set_known_hazards (map (pair TacticalClass) hazards)
                (set_active_threats (map (pair TacticalClass) threats)
                   st)))) ;;
    st <~ quiet get_state ;;
    decision <~ call_get_quick_decision threats hazards combat_score
                  (current_task st) ;;
    quiet (
      decision_dict <- lift (tactical_decision_to_dict decision) ;;
      _log_telemetry "tactical"
        (JDict [ ("decision", decision_dict);
                 ("threats", JInt (Z.of_nat (List.length threats)));
                 ("hazards", JInt (Z.of_nat (List.length hazards))) ]) ;;
      _save_state ;;
      decision_dict <- lift (tactical_decision_to_dict decision) ;;
      threat_dicts <-
        lift (map_result Threat_to_dict (map (pair TacticalClass) threats)) ;;
      hazard_dicts <-
        lift (map_result Hazard_to_dict (map (pair TacticalClass) hazards)) ;;
      now <- utcnow ;;
      ret (mkResponse
             (JDict [ ("decision", decision_dict);
                      ("threats", JList threat_dicts);
                      ("hazards", JList hazard_dicts);
                      ("timestamp", JIso now) ])
             200)).

Definition _handle_tactical (request : Request) : M Response :=
  erase (_handle_tactical_calls request).

(** What the three engine calls of [_handle_tactical] return, on the state
    [st] the handler holds once the position is updated. *)
Definition tactical_analysis (st : AgentState) (body : Body)
  : result (list Threat * list Hazard * TacticalDecision) :=
  let nearby_entities := get_or [] (b_nearbyEntities body) in
  let nearby_blocks := get_or [] (b_nearbyBlocks body) in
  let current_health := get_or (health st) (b_health body) in
  let combat_score := get_or 0.0 (b_combatScore body) in
  let threats :=
    assess_threats (position st) nearby_entities current_health
      default_combat_score in
  hazards <-- detect_hazards (position st) nearby_blocks ;;
  inr (threats, hazards,
       get_quick_decision threats hazards combat_score (current_task st)).

Definition _handle_telemetry (request : Request) : M Response :=
  _ensure_loaded ;;
  if negb (String.eqb (method request) "POST") then ret method_not_allowed
  else
    body <- request_json request ;;
    _log_telemetry (get_or "unknown" (b_type body))
                   (get_or (JDict []) (b_data body)) ;;
    ret (mkResponse (JDict [ ("status", JStr "logged") ]) 200).

Definition _handle_health : M Response :=
  a <- get_actor ;;
  now <- utcnow ;;
  ret (mkResponse
         (JDict [ ("status", JStr "healthy");
                  ("agentId",
                   JStr (match state_data a with
                         | Some st => agent_id st
                         | None => "uninitialized"
                         end));
                  ("timestamp", JIso now) ])
         200).

(** [s.endswith(suffix)] *)
Definition endswith (s suffix : string) : bool :=
  let n := String.length s in
  let k := String.length suffix in
  (k <=? n)%nat && String.eqb (substring (n - k) k s) suffix.

(** The [try] block of [AgentStateDO.fetch]: the handler of the path. *)
Definition route (request : Request) : M Response :=
  if endswith (path request) "/sync" then _handle_sync request
  else if endswith (path request) "/mission" then _handle_mission request
  else if endswith (path request) "/tactical" then _handle_tactical request
  else if endswith (path request) "/telemetry" then _handle_telemetry request
  else if endswith (path request) "/health" then _handle_health
  else ret (mkResponse
              (JDict [ ("error", JStr "Not found");
                       ("path", JStr (path request)) ])
              404).

(** The [except] block of [AgentStateDO.fetch]. *)
Definition internal_error (e : exn) : M Response :=
  _log_error "fetch" (exn_message e) ;;
  ret (mkResponse
         (JDict [ ("error", JStr "Internal server error");
                  ("message", JStr (exn_message e)) ])
         500).

(** [AgentStateDO.fetch]: an exception of a handler is logged and answered
    with status 500; an exception of the logging itself leaves [fetch]. *)
Definition fetch (request : Request) : M Response :=
  try_except (route request) internal_error.

(** A new actor: nothing stored, nothing loaded. *)
Definition new_actor (id : string) (now : datetime) : ActorObj :=
  mkActor id None None None now.

(** The actor object is discarded and built again by [__init__]; what is
    stored stays. *)
Definition restarted (a : ActorObj) : ActorObj :=
  mkActor (durable_id a) (storage a) None None (clock a).

Definition at_time (a : ActorObj) (now : datetime) : ActorObj :=
  mkActor (durable_id a) (storage a) (self_agent_id a) (state_data a) now.

(** The actors that requests, saves, logged events, restarts and the
    passing of time lead to from a new actor. *)
Inductive reachable : ActorObj -> Prop :=
| reach_new (id : string) (now : datetime) : reachable (new_actor id now)
| reach_fetch (a : ActorObj) (request : Request) :
    reachable a -> reachable (snd (fetch request a))
| reach_save (a : ActorObj) :
    reachable a -> reachable (snd (_save_state a))
| reach_log (a : ActorObj) (event_type : string) (data : json) :
    reachable a -> reachable (snd (_log_telemetry event_type data a))
| reach_restart (a : ActorObj) : reachable a -> reachable (restarted a)
| reach_time (a : ActorObj) (now : datetime) :
    reachable a -> reachable (at_time a now).

(** *** Vocabulary and inputs of the properties *)

Definition zombie_threat : Threat :=
  mkThreat "zombie" (mkPosition 5 64 0) 5 0.6 20.

Definition lava_hazard : Hazard :=
  mkHazard "lava" (mkPosition 10 63 0) 0.8.

(** An [AgentState] built with index.py's own classes: one threat, one
    hazard, one queued mission, no telemetry. *)
Definition state_with_threat : AgentState :=
  mkAgentState "steve-1" COMBAT (mkPosition 0 64 0) 18 20
    (Some "build-shelter") 36 0%Z
    [ (IndexClass, zombie_threat) ] [ (IndexClass, lava_hazard) ]
    [ JStr "gather-wood" ] [].

(** The actor once [_save_state] has stored [data]. *)
Definition saved (a : ActorObj) (st : AgentState) (data : json) : ActorObj :=
  mkActor (durable_id a) (Some data) (self_agent_id a)
          (Some (set_last_active (clock a) st)) (clock a + 1)%Z.

(** The actor with its loaded state replaced. *)
Definition with_state (a : ActorObj) (st : AgentState) : ActorObj :=
  mkActor (durable_id a) (storage a) (self_agent_id a) (Some st) (clock a).

Definition delete_request : Request :=
  mkRequest "DELETE" "/agents/steve-1/mission" None.

Definition mission_body (m : json) : Body :=
  mkBody None None None None None (Some m) None None None None None.

Definition post_mission (m : json) : Request :=
  mkRequest "POST" "/agents/steve-1/mission" (Some (mission_body m)).

(** The actor once an event is logged, before the state is saved. *)
Definition logged (a : ActorObj) (st : AgentState) (event_type : string)
    (data : json) : ActorObj :=
  mkActor (durable_id a) (storage a) (self_agent_id a)
    (Some (set_telemetry_events
             (last_n 100 (telemetry_events st
                          ++ [telemetry_event event_type data (clock a)]))
             st))
    (clock a + 1)%Z.

(** The loaded state holds at most 100 telemetry events. *)
Definition mem_ok (a : ActorObj) : Prop :=
  forall st, state_data a = Some st ->
    (List.length (telemetry_events st) <= 100)%nat.

(** The stored state holds at most 100 telemetry events. *)
Definition stored_ok (a : ActorObj) : Prop :=
  forall d l, storage a = Some (JDict d) ->
    dict_get "telemetryEvents" d = Some (JList l) ->
    (List.length l <= 100)%nat.

Definition telemetry_bounded (a : ActorObj) : Prop := mem_ok a /\ stored_ok a.

(** [m] keeps the bound, whether it returns or raises. *)
Definition keeps {A : Type} (m : M A) : Prop :=
  forall a, telemetry_bounded a -> telemetry_bounded (snd (m a)).

Definition telemetry_request : Request :=
  mkRequest "POST" "/agents/steve-1/telemetry"
    (Some (mkBody None None None None None None None None None
             (Some "combat") (Some (JDict [ ("hits", JInt 2) ])))).

(** The state once the handler has read the position of the body. *)
Definition positioned (st : AgentState) (body : Body) : result AgentState :=
  match b_position body with
  | Some d => p <-- Position_from_dict d ;; inr (set_position p st)
  | None => inr st
  end.

(** The state once the handler has stored what the engine returned. *)
Definition assessed (st : AgentState) (body : Body) (threats : list Threat)
    (hazards : list Hazard) : AgentState :=
  set_health (get_or (health st) (b_health body))
    (set_known_hazards (map (pair TacticalClass) hazards)
       (set_active_threats (map (pair TacticalClass) threats) st)).

Definition warden_request : Request :=
  mkRequest "POST" "/agents/steve-1/tactical"
    (Some (mkBody None None None None None None (Some [warden]) None
                  (Some 0.9) None None)).

(** A new actor that was sent the missions "A" and "B". *)
Definition queued_A_B : ActorObj :=
  snd (fetch (post_mission (JStr "B"))
         (snd (fetch (post_mission (JStr "A")) (new_actor "steve-1" 0%Z)))).

(** The same actor once it was asked for a decision with a warden nearby:
    the request raised, and the assessed threat stays in the state. *)
Definition after_warden : ActorObj := snd (fetch warden_request queued_A_B).

(** The body with its "combatScore" key set, or removed. *)
Definition with_combatScore (cs : option R) (body : Body) : Body :=
  mkBody (b_position body) (b_status body) (b_health body) (b_hunger body)
    (b_currentTask body) (b_mission body) (b_nearbyEntities body)
    (b_nearbyBlocks body) cs (b_type body) (b_data body).

(** A loaded actor at the spawn point, in full health. *)
Definition idle_actor : ActorObj :=
  mkActor "steve-1" None (Some "steve-1")
    (Some (mkAgentState "steve-1" IDLE spawn 20 20 None 36 0%Z [] [] [] []))
    1%Z.

(** The objects of the list are instances of tactical.py's class: the
    engine made them. *)
Definition engine_made {A : Type} (l : list (pyclass * A)) : Prop :=
  Forall (fun o => fst o = TacticalClass) l.

(** A loaded state of the actor [id]. *)
Definition state_sound (id : string) (st : AgentState) : Prop :=
  agent_id st = id /\
  engine_made (active_threats st) /\ engine_made (known_hazards st).

(** A stored value the actor [id] can load. *)
Definition stored_sound (id : string) (data : json) : Prop :=
  truthy data = true /\
  exists st, _deserialize_state data = inr st /\ agent_id st = id /\
             active_threats st = [] /\ known_hazards st = [].

Definition sound (a : ActorObj) : Prop :=
  (forall st, state_data a = Some st -> state_sound (durable_id a) st) /\
  (forall data, storage a = Some data -> stored_sound (durable_id a) data).

(** [m] keeps the actor [id] sound, and its id, whether it returns or
    raises. *)
Definition preserves (id : string) {A : Type} (m : M A) : Prop :=
  forall a, durable_id a = id -> sound a ->
    sound (snd (m a)) /\ durable_id (snd (m a)) = id.

(** The last character of a string. *)
Fixpoint last_char (s : string) : option Ascii.ascii :=
  match s with
  | EmptyString => None
  | String c EmptyString => Some c
  | String _ rest => last_char rest
  end.

(** The missions [ms] are posted one after the other. *)
Fixpoint post_all (ms : list json) (a : ActorObj) : ActorObj :=
  match ms with
  | [] => a
  | m :: rest => post_all rest (snd (fetch (post_mission m) a))
  end.

(** [n] times DELETE /mission: what each request returned or raised, and
    the actor afterwards. *)
Fixpoint complete_n (n : nat) (a : ActorObj)
  : list (result Response) * ActorObj :=
  match n with
  | O => ([], a)
  | S k =>
      let (r, a1) := fetch delete_request a in
      let (rs, a2) := complete_n k a1 in
      (r :: rs, a2)
  end.

(** The answer to a DELETE /mission that completed [m]. *)
Definition completed_response (m : json) : result Response :=
  inr (mkResponse (JDict [ ("completed", m) ]) 200).

(** A state that can be saved as it is: no threats, no hazards. *)
Definition calm (st : AgentState) : Prop :=
  active_threats st = [] /\ known_hazards st = [].



(** A new actor, as the runtime makes it. *)
Definition idle_restart : ActorObj := new_actor "steve-1" 0%Z.

(** A POST to /sync that moves the agent and names a status that does
    not exist. *)
Definition sync_moved : Request :=
  mkRequest "POST" "/agents/steve-1/sync"
    (Some (mkBody (Some [ ("x", JInt 7); ("y", JInt 64); ("z", JInt 7) ])
                  (Some "dancing") (Some 3%Z) None None None None None None
                  None None)).

End Actor.

(** * Properties *)

(** ** Comparisons on reals *)

Lemma Rltb_true (x y : R) : x < y -> Rltb x y = true.
Proof.
  intros H. unfold Rltb.
  destruct (Rlt_dec x y); [reflexivity | contradiction].
Qed.

Lemma Rltb_false (x y : R) : y <= x -> Rltb x y = false.
Proof. intros H. unfold Rltb. destruct (Rlt_dec x y); [lra | reflexivity]. Qed.

Lemma Rltb_lt (x y : R) : Rltb x y = true <-> x < y.
Proof.
  unfold Rltb.
  destruct (Rlt_dec x y); split; intros; try discriminate; tauto.
Qed.

Lemma Rltb_ge (x y : R) : Rltb x y = false <-> y <= x.
Proof.
  unfold Rltb.
  destruct (Rlt_dec x y); split; intros; try discriminate; try lra;
    reflexivity.
Qed.

Lemma Rleb_true (x y : R) : x <= y -> Rleb x y = true.
Proof.
  intros H. unfold Rleb.
  destruct (Rle_dec x y); [reflexivity | contradiction].
Qed.

Lemma Rleb_false (x y : R) : y < x -> Rleb x y = false.
Proof. intros H. unfold Rleb. destruct (Rle_dec x y); [lra | reflexivity]. Qed.

Lemma Reqb_true (x y : R) : x = y -> Reqb x y = true.
Proof.
  intros H. unfold Reqb.
  destruct (Req_dec_T x y); [reflexivity | contradiction].
Qed.

Lemma Reqb_false (x y : R) : x <> y -> Reqb x y = false.
Proof.
  intros H. unfold Reqb.
  destruct (Req_dec_T x y); [contradiction | reflexivity].
Qed.

(** Decides every comparison of the goal whose two sides are closed
    arithmetic. *)
Ltac Rdecide :=
  repeat match goal with
  | |- context [Rltb ?a ?b] =>
      first [ rewrite (Rltb_true a b) by lra | rewrite (Rltb_false a b) by lra ]
  | |- context [Rleb ?a ?b] =>
      first [ rewrite (Rleb_true a b) by lra | rewrite (Rleb_false a b) by lra ]
  | |- context [Reqb ?a ?b] =>
      first [ rewrite (Reqb_true a b) by lra | rewrite (Reqb_false a b) by lra ]
  end.

(** ** The first element of a filter *)

Lemma filter_first {A : Type} (f : A -> bool) (l : list A) (x : A) :
  In x l -> f x = true ->
  exists h pre post,
    l = pre ++ h :: post /\ f h = true /\
    (forall y, In y pre -> f y = false) /\
    filter f l = h :: filter f post.
Proof.
  induction l as [|a l IH]; intros Hin Hx; [destruct Hin|].
  destruct (f a) eqn:Ea.
  - exists a, [], l. simpl. rewrite Ea. repeat split; auto. intros y [].
  - destruct Hin as [->|Hin]; [congruence|].
    destruct (IH Hin Hx) as (h & pre & post & -> & Hh & Hpre & Hf).
    exists h, (a :: pre), post. simpl. rewrite Ea. repeat split; auto.
    intros y [<-|Hy]; auto.
Qed.

(** ** The stable descending sort *)

Section StableSortFacts.
Context {A : Type}.
Variable key : A -> R.

Lemma insert_desc_perm (x : A) (l : list A) :
  Permutation (x :: l) (insert_desc key x l).
Proof.
  induction l as [|y l IH]; simpl; [reflexivity|].
  destruct (Rltb (key x) (key y)); [|reflexivity].
  rewrite perm_swap. apply perm_skip, IH.
Qed.

Lemma sort_desc_perm (l : list A) : Permutation l (sort_desc key l).
Proof.
  induction l as [|x l IH]; simpl; [reflexivity|].
  rewrite <- insert_desc_perm. apply perm_skip, IH.
Qed.

Lemma insert_desc_sorted (x : A) (l : list A) :
  StronglySorted (desc key) l ->
  StronglySorted (desc key) (insert_desc key x l).
Proof.
  induction l as [|y l IH]; intros Hs; simpl.
  - repeat constructor.
  - inversion Hs as [|? ? Hl Hall]; subst.
    destruct (Rltb (key x) (key y)) eqn:E.
    + apply Rltb_lt in E. constructor; [auto|].
      rewrite <- (insert_desc_perm x l).
      constructor; [unfold desc; lra | exact Hall].
    + apply Rltb_ge in E. constructor; [exact Hs|].
      constructor; [exact E|].
      eapply Forall_impl; [|exact Hall].
      unfold desc; intros; lra.
Qed.

Lemma sort_desc_sorted (l : list A) :
  StronglySorted (desc key) (sort_desc key l).
Proof.
  induction l as [|x l IH]; simpl; [constructor|].
  apply insert_desc_sorted, IH.
Qed.

(** Stability: the elements of one key keep the order they had. *)
Lemma insert_desc_stable (d : R) (x : A) (l : list A) :
  filter (fun a => Reqb (key a) d) (insert_desc key x l)
  = filter (fun a => Reqb (key a) d) (x :: l).
Proof.
  induction l as [|y l IH]; [reflexivity|].
  simpl insert_desc. destruct (Rltb (key x) (key y)) eqn:E; [|reflexivity].
  apply Rltb_lt in E. simpl in *. rewrite IH.
  unfold Reqb.
  destruct (Req_dec_T (key x) d), (Req_dec_T (key y) d); try reflexivity.
  lra.
Qed.

Lemma sort_desc_stable (d : R) (l : list A) :
  filter (fun a => Reqb (key a) d) (sort_desc key l)
  = filter (fun a => Reqb (key a) d) l.
Proof.
  induction l as [|x l IH]; [reflexivity|].
  simpl sort_desc. rewrite insert_desc_stable. simpl. now rewrite IH.
Qed.

Lemma firstn_sorted (n : nat) (l : list A) :
  StronglySorted (desc key) l -> StronglySorted (desc key) (firstn n l).
Proof.
  revert n. induction l as [|x l IH]; intros [|n] Hs; simpl; try constructor.
  - inversion Hs; subst; auto.
  - inversion Hs as [|? ? _ Hall]; subst.
    rewrite Forall_forall in *. intros y Hy. apply Hall.
    rewrite <- (firstn_skipn n l). apply in_or_app; auto.
Qed.

End StableSortFacts.

(** The filter of a prefix is a prefix of the filter. *)
Lemma filter_firstn_prefix {A : Type} (f : A -> bool) (n : nat) (l : list A) :
  exists k, filter f (firstn n l) = firstn k (filter f l).
Proof.
  revert n. induction l as [|x l IH]; intros [|n]; simpl;
    try (exists 0%nat; reflexivity).
  destruct (IH n) as [k Hk]. destruct (f x).
  - exists (S k). simpl. now rewrite Hk.
  - exists k. exact Hk.
Qed.

Lemma filter_none {A : Type} (f : A -> bool) (l : list A) :
  (forall x, In x l -> f x = false) -> filter f l = [].
Proof.
  induction l as [|x l IH]; intros H; [reflexivity|]. simpl.
  rewrite (H x (or_introl eq_refl)). apply IH. intros; apply H; now right.
Qed.

Lemma filter_all {A : Type} (f : A -> bool) (l : list A) :
  (forall x, In x l -> f x = true) -> filter f l = l.
Proof.
  induction l as [|x l IH]; intros H; [reflexivity|]. simpl.
  rewrite (H x (or_introl eq_refl)). f_equal. apply IH.
  intros; apply H; now right.
Qed.

Lemma filter_filter_comm {A : Type} (f g : A -> bool) (l : list A) :
  filter f (filter g l) = filter g (filter f l).
Proof.
  induction l as [|x l IH]; [reflexivity|]. simpl.
  destruct (f x) eqn:F, (g x) eqn:G; simpl; rewrite ?F, ?G, IH; reflexivity.
Qed.

(** ** [l[-n:]] *)

(** Where the sort puts an element. *)
Section SortPosition.
Context {A : Type}.
Variable key : A -> R.

Lemma insert_desc_filter_length (f : A -> bool) (x : A) (l : list A) :
  List.length (filter f (insert_desc key x l))
  = List.length (filter f (x :: l)).
Proof.
  induction l as [|y l IH]; [reflexivity|].
  simpl insert_desc. destruct (Rltb (key x) (key y)); [|reflexivity].
  simpl in *. destruct (f y), (f x); simpl in *; lia.
Qed.

Lemma sort_desc_filter_length (f : A -> bool) (l : list A) :
  List.length (filter f (sort_desc key l)) = List.length (filter f l).
Proof.
  induction l as [|x l IH]; [reflexivity|].
  change (sort_desc key (x :: l)) with (insert_desc key x (sort_desc key l)).
  rewrite insert_desc_filter_length. simpl. destruct (f x); simpl; lia.
Qed.

Lemma insert_desc_split (x : A) (l : list A) :
  StronglySorted (desc key) l ->
  insert_desc key x l
  = filter (fun y => Rltb (key x) (key y)) l
    ++ x :: filter (fun y => negb (Rltb (key x) (key y))) l.
Proof.
  induction 1 as [|y l Hs IH Hall]; [reflexivity|].
  simpl. destruct (Rltb (key x) (key y)) eqn:E; simpl.
  - now rewrite IH.
  - apply Rltb_ge in E. rewrite Forall_forall in Hall.
    assert (Hle : forall z, In z l -> Rltb (key x) (key z) = false).
    { intros z Hz. apply Rltb_false. specialize (Hall z Hz).
      unfold desc in Hall. lra. }
    rewrite (filter_none _ l Hle).
    rewrite (filter_all (fun y0 => negb (Rltb (key x) (key y0))) l).
    + reflexivity.
    + intros z Hz. now rewrite (Hle z Hz).
Qed.

Lemma insert_desc_behind (a h : A) (front back : list A) :
  Forall (fun y => key h <= key y) front -> key a < key h ->
  insert_desc key a (front ++ h :: back)
  = front ++ h :: insert_desc key a back.
Proof.
  intros Hf Ha. induction Hf as [|y front Hy Hf IH]; simpl.
  - now rewrite Rltb_true by exact Ha.
  - rewrite Rltb_true by lra. now rewrite IH.
Qed.

Lemma insert_desc_in_front (a h : A) (front back : list A) :
  Forall (fun y => key h <= key y) front -> key h <= key a ->
  exists front',
    insert_desc key a (front ++ h :: back) = front' ++ h :: back /\
    List.length front' = S (List.length front) /\
    Forall (fun y => key h <= key y) front'.
Proof.
  intros Hf Ha. induction Hf as [|y front Hy Hf IH]; simpl.
  - rewrite Rltb_false by exact Ha. exists [a]. repeat split.
    constructor; [exact Ha | constructor].
  - destruct (Rltb (key a) (key y)).
    + destruct IH as (front' & -> & Hlen & Hall).
      exists (y :: front'). split; [reflexivity|].
      split; [simpl; now rewrite Hlen | now constructor].
    + exists (a :: y :: front). split; [reflexivity|].
      split; [reflexivity|].
      constructor; [exact Ha | constructor; assumption].
Qed.

(** In the sorted list, an element is preceded by as many elements as were
    before it with a key no smaller, or after it with a greater key. *)
Lemma sort_desc_position (pre post : list A) (h : A) :
  exists front back,
    sort_desc key (pre ++ h :: post) = front ++ h :: back /\
    Forall (fun y => key h <= key y) front /\
    List.length front
    = (List.length (filter (fun x => Rleb (key h) (key x)) pre)
       + List.length (filter (fun x => Rltb (key h) (key x)) post))%nat.
Proof.
  induction pre as [|a pre IH].
  - change (sort_desc key ([] ++ h :: post))
      with (insert_desc key h (sort_desc key post)).
    rewrite (insert_desc_split h _ (sort_desc_sorted key post)).
    do 2 eexists. split; [reflexivity|]. split.
    + rewrite Forall_forall. intros y Hy. apply filter_In in Hy.
      destruct Hy as [_ Hy]. apply Rltb_lt in Hy. lra.
    + now rewrite sort_desc_filter_length.
  - destruct IH as (front & back & E & Hall & Hlen).
    change (sort_desc key ((a :: pre) ++ h :: post))
      with (insert_desc key a (sort_desc key (pre ++ h :: post))).
    rewrite E. cbn [filter].
    destruct (Rle_dec (key h) (key a)) as [Hle|Hlt].
    + rewrite (Rleb_true _ _ Hle).
      destruct (insert_desc_in_front a h front back Hall Hle)
        as (front' & -> & Hlen' & Hall').
      exists front', back. split; [reflexivity|]. split; [exact Hall'|].
      rewrite Hlen', Hlen. reflexivity.
    + rewrite Rleb_false by lra.
      rewrite (insert_desc_behind a h front back Hall) by lra.
      exists front, (insert_desc key a back). auto.
Qed.

Lemma firstn_keeps_position (n : nat) (front back : list A) (h : A) :
  (List.length front < n)%nat -> In h (firstn n (front ++ h :: back)).
Proof.
  intros Hlen. rewrite firstn_app.
  apply in_or_app. right.
  destruct (n - List.length front)%nat as [|k] eqn:E; [lia|].
  now left.
Qed.

End SortPosition.

Lemma last_n_length {A : Type} (n : nat) (l : list A) :
  List.length (last_n n l) = Nat.min n (List.length l).
Proof. unfold last_n. rewrite length_skipn. lia. Qed.

Lemma last_n_short {A : Type} (n : nat) (l : list A) :
  (List.length l <= n)%nat -> last_n n l = l.
Proof.
  intros H. unfold last_n.
  replace (List.length l - n)%nat with 0%nat by lia. reflexivity.
Qed.

(** The elements dropped are the oldest: [last_n n l] is a suffix of [l]. *)
Lemma last_n_suffix {A : Type} (n : nat) (l : list A) :
  exists dropped, l = dropped ++ last_n n l.
Proof.
  exists (firstn (List.length l - n) l). unfold last_n.
  symmetry. apply firstn_skipn.
Qed.

(** Trimming only when the length exceeds [n] is [last_n n]. *)
Lemma trim_is_last_n {A : Type} (n : nat) (l : list A) :
  (if (n <? List.length l)%nat then last_n n l else l) = last_n n l.
Proof.
  destruct (n <? List.length l)%nat eqn:E; [reflexivity|].
  apply Nat.ltb_ge in E. symmetry. now apply last_n_short.
Qed.

Module SyncFacts.
Import Sync.

(** What the [except] block does, were the send restored and raising [e]:
    the method raises the same [e]; one entry, the snapshot of the state,
    is appended to [pending_updates], of which the last 10 are kept (the
    oldest dropped first); [sync_failures] grows by exactly 1 and
    [last_error] holds the message.  A later call whose send succeeds sets
    [sync_failures] to 0 and empties [pending_updates]. *)
Lemma except_block_buffers_then_success_resets :
  forall (send : json -> result unit) (m : SyncManager) (agent_state : json)
         (e : exn),
    send (sync_payload (stamp_last_sync m) agent_state) = inl e ->
    let r := sync_state_sending send m agent_state in
    let before := sm_sync_state m in
    let after := sm_sync_state (snd r) in
    fst r = inl e /\
    (exists t dropped,
       let entry := JDict [ ("timestamp", JIso t); ("state", agent_state) ] in
       pending_updates after = last_n 10 (pending_updates before ++ [entry]) /\
       pending_updates before ++ [entry]
       = dropped ++ pending_updates after) /\
    (List.length (pending_updates after) <= 10)%nat /\
    sync_failures after = (sync_failures before + 1)%Z /\
    last_error after = Some (exn_message e) /\
    last_sync_success after = false /\
    forall (send' : json -> result unit) (agent_state' : json),
      send' (sync_payload (stamp_last_sync (snd r)) agent_state') = inr tt ->
      let r' := sync_state_sending send' (snd r) agent_state' in
      fst r' = inr simulated_response /\
      sync_failures (sm_sync_state (snd r')) = 0%Z /\
      pending_updates (sm_sync_state (snd r')) = [] /\
      last_sync_success (sm_sync_state (snd r')) = true.
Proof.
  intros send m agent_state e Hsend. cbv zeta.
  destruct (sync_state_sending send m agent_state) as [r0 m'] eqn:Hr.
  unfold sync_state_sending in Hr. rewrite Hsend, trim_is_last_n in Hr.
  injection Hr as Hr0 Hm'. subst r0. cbn [fst snd].
  set (entry := JDict [("timestamp", JIso (sm_clock (tick (stamp_last_sync m))));
                       ("state", agent_state)]) in *.
  assert (Hp : pending_updates (sm_sync_state m')
               = last_n 10 (pending_updates (sm_sync_state m) ++ [entry]))
    by (subst m'; reflexivity).
  split; [reflexivity|]. split.
  - exists (sm_clock (tick (stamp_last_sync m))).
    destruct (last_n_suffix 10 (pending_updates (sm_sync_state m) ++ [entry]))
      as [dropped Hd].
    exists dropped. fold entry. rewrite Hp. split; [reflexivity | exact Hd].
  - split; [rewrite Hp, last_n_length; lia|].
    split; [subst m'; reflexivity|].
    split; [subst m'; reflexivity|].
    split; [subst m'; reflexivity|].
    intros send' agent_state' Hsend'.
    unfold sync_state_sending. rewrite Hsend'. simpl. repeat split.
Qed.

(** C7: no call of [sync_state] fails the way the specification describes.
    On an instance, as [__init__] builds it, the call raises TypeError
    before the method is entered, and the sync state is left as it was: no
    entry is appended to [pending_updates], [sync_failures] is not
    incremented and [last_error] is not set.  Reached through the class,
    the method sends nothing and never raises, so its [except] block is
    never entered: it returns the simulated response, with [sync_failures]
    0 and [pending_updates] empty.  On a new manager the failing call
    leaves 0 failures and no pending update, where the specification has 1
    and one. *)
Theorem C7_failing_call_buffers_nothing :
  forall (m : SyncManager) (agent_state : json),
    (fst (call_sync_state m agent_state)
     = inl (TypeError "'SyncState' object is not callable") /\
     pending_updates (sm_sync_state (snd (call_sync_state m agent_state)))
     = pending_updates (sm_sync_state m) /\
     sync_failures (sm_sync_state (snd (call_sync_state m agent_state)))
     = sync_failures (sm_sync_state m) /\
     last_error (sm_sync_state (snd (call_sync_state m agent_state)))
     = last_error (sm_sync_state m)) /\
    (fst (sync_state m agent_state) = inr simulated_response /\
     sync_failures (sm_sync_state (snd (sync_state m agent_state))) = 0%Z /\
     pending_updates (sm_sync_state (snd (sync_state m agent_state))) = [] /\
     last_error (sm_sync_state (snd (sync_state m agent_state))) = None) /\
    (fst (call_sync_state some_manager agent_state)
     = inl (TypeError "'SyncState' object is not callable") /\
     sync_failures
       (sm_sync_state (snd (call_sync_state some_manager agent_state)))
     = 0%Z /\
     pending_updates
       (sm_sync_state (snd (call_sync_state some_manager agent_state)))
     = []).
Proof.
  intros m agent_state. split; [|split].
  - unfold call_sync_state. cbn [fst snd]. repeat split.
  - unfold sync_state, sync_state_sending. cbn. repeat split.
  - unfold call_sync_state, some_manager, new_SyncState. cbn. repeat split.
Qed.

End SyncFacts.

Module TacticalFacts.
Import Tactical.

Lemma away_sign_cases (c : R) :
  (c = 0 /\ away_sign c = 0%Z) \/
  (0 < c /\ away_sign c = (-1)%Z) \/
  (c < 0 /\ away_sign c = 1%Z).
Proof.
  unfold away_sign, Reqb, Rltb.
  destruct (Req_dec_T c 0); [left; auto|].
  destruct (Rlt_dec 0 c); [right; left; auto|].
  right; right; split; [lra | reflexivity].
Qed.

Lemma displaced_moved (p : Position) (step : Z) :
  moved_against_sign (IZR step) p (displaced p step).
Proof.
  unfold moved_against_sign, displaced; simpl.
  destruct (away_sign_cases (px p)) as [[Hx ->]|[[Hx ->]|[Hx ->]]];
  destruct (away_sign_cases (pz p)) as [[Hz ->]|[[Hz ->]|[Hz ->]]];
  rewrite ?Z.mul_0_l, ?Z.mul_1_l;
  replace (-1 * step)%Z with (- step)%Z by lia; rewrite ?opp_IZR;
  repeat split; intros; try lra.
Qed.

(** C1, as amended: when some hazard has severity above 0.8, the decision
    is to flee, with priority and confidence 1.0, from the FIRST such hazard
    of the list; the target is that hazard's position moved 5 units on x and
    z against the sign of each coordinate.  The hazard fled from is the most
    severe one when the list is sorted by non-increasing severity, as
    [detect_hazards] returns it.  Threats, combat score and mission play no
    part. *)
Theorem C1_flee_from_first_fatal_hazard :
  forall (threats : list Threat) (hazards : list Hazard) (combat_score : R)
         (mission : option string),
    (exists h0, In h0 hazards /\ 0.8 < severity h0) ->
    exists h pre post tgt,
      hazards = pre ++ h :: post /\
      0.8 < severity h /\
      (forall h', In h' pre -> severity h' <= 0.8) /\
      let d := get_quick_decision threats hazards combat_score mission in
      action d = "flee" /\ priority d = 1 /\ confidence d = 1 /\
      target_position d = Some tgt /\
      moved_against_sign 5 (h_position h) tgt /\
      (StronglySorted (fun a b => severity b <= severity a) hazards ->
       forall h', In h' hazards -> severity h' <= severity h).
Proof.
  intros threats hazards cs mission (h0 & Hin & Hsev).
  destruct (filter_first (fun h => Rltb 0.8 (severity h)) hazards h0 Hin
              (Rltb_true _ _ Hsev))
    as (h & pre & post & Heq & Hh & Hpre & Hf).
  exists h, pre, post, (displaced (h_position h) 5).
  apply Rltb_lt in Hh.
  split; [exact Heq|]. split; [exact Hh|].
  split; [intros h' Hh'; apply Rltb_ge; auto|].
  unfold get_quick_decision. rewrite Hf. simpl.
  split; [reflexivity|]. split; [lra|]. split; [lra|].
  split; [reflexivity|].
  split; [apply (displaced_moved (h_position h) 5)|].
  intros Hs h' Hin'. subst hazards.
  apply in_app_or in Hin'. destruct Hin' as [Hin'|[<-|Hin']].
  - apply Hpre, Rltb_ge in Hin'. lra.
  - lra.
  - clear - Hs Hin'. induction pre as [|a pre IH]; simpl in Hs.
    + inversion Hs as [|? ? _ Hall]; subst.
      rewrite Forall_forall in Hall. auto.
    + inversion Hs; subst; auto.
Qed.

Lemma C1_witness :
  (exists h0, In h0 [lava_at_5] /\ 0.8 < severity h0) /\
  action (get_quick_decision [] [lava_at_5] 0.5 None) = "flee".
Proof.
  assert (H : exists h0, In h0 [lava_at_5] /\ 0.8 < severity h0).
  { exists lava_at_5. split; [left; reflexivity | simpl; lra]. }
  split; [exact H|].
  destruct (C1_flee_from_first_fatal_hazard [] [lava_at_5] 0.5 None H)
    as (h & pre & post & tgt & _ & _ & _ & Ha & _).
  exact Ha.
Defined.

(** C1 as stated fails on an unsorted list: the lava hazard (severity 1.0)
    is the most severe one, yet the decision flees from the suffocation
    hazard (severity 0.9) that precedes it, to (-4, 65, 0) and not to
    (-2, 64, 0). *)
Lemma C1_counterexample :
  let lava := mkHazard "lava" (mkPosition 3 64 0) 1.0 in
  let d := get_quick_decision [] suffocation_then_lava 0.5 None in
  In lava suffocation_then_lava /\
  (forall h, In h suffocation_then_lava -> severity h <= severity lava) /\
  target_position d = Some (mkPosition (-4) 65 0) /\
  ~ (exists tgt, target_position d = Some tgt /\
                 moved_against_sign 5 (h_position lava) tgt).
Proof.
  assert (Hd : target_position
                 (get_quick_decision [] suffocation_then_lava 0.5 None)
               = Some (mkPosition (-4) 65 0)).
  { unfold get_quick_decision, suffocation_then_lava. simpl. Rdecide. simpl.
    unfold displaced, away_sign. simpl. Rdecide. simpl.
    do 2 f_equal; lra. }
  cbv zeta. split; [right; left; reflexivity|].
  split.
  - intros h [<-|[<-|[]]]; simpl; lra.
  - split; [exact Hd|].
    intros (tgt & Ht & Hm). rewrite Hd in Ht. inversion Ht; subst tgt.
    destruct Hm as (_ & _ & Hx & _). simpl in Hx.
    assert (0 < 3) as H3 by lra. specialize (Hx H3). lra.
Qed.

(** *** Threat assessment *)

Lemma candidate_threats_ge (pos : Position) (es : list Entity) (hp : Z)
    (cs : R) :
  Forall (fun t => 0.3 <= danger_level t) (candidate_threats pos es hp cs).
Proof.
  unfold candidate_threats. rewrite Forall_forall. intros t Ht.
  apply filter_In in Ht. destruct Ht as [_ Ht].
  apply negb_true_iff, Rltb_ge in Ht. exact Ht.
Qed.

(** C4: [assess_threats] returns at most 5 threats, sorted by non-increasing
    danger level, each of danger level at least 0.3; and the returned threats
    of one danger level are, in order, the first entities of the input that
    have this danger level (the sort is stable). *)
Theorem C4_assess_threats_top5_sorted_stable :
  forall (pos : Position) (entities : list Entity) (health : Z) (cs : R),
    let r := assess_threats pos entities health cs in
    (List.length r <= 5)%nat /\
    StronglySorted (fun a b => danger_level b <= danger_level a) r /\
    Forall (fun t => 0.3 <= danger_level t) r /\
    forall d : R, exists k : nat,
      filter (fun t => Reqb (danger_level t) d) r
      = firstn k (filter (fun t => Reqb (danger_level t) d)
                         (map (threat_of pos health cs) entities)).
Proof.
  intros pos entities health cs r. subst r. unfold assess_threats.
  set (c := candidate_threats pos entities health cs).
  split; [apply firstn_le_length|].
  split; [apply (firstn_sorted danger_level), sort_desc_sorted|].
  split.
  - rewrite Forall_forall. intros t Ht.
    assert (Hc : In t c).
    { apply (Permutation_in t (Permutation_sym (sort_desc_perm danger_level c))).
      rewrite <- (firstn_skipn 5 (sort_desc danger_level c)).
      apply in_or_app; auto. }
    pose proof (candidate_threats_ge pos entities health cs) as Hge.
    rewrite Forall_forall in Hge. apply Hge, Hc.
  - intros d.
    destruct (filter_firstn_prefix (fun t => Reqb (danger_level t) d) 5
                (sort_desc danger_level c)) as [k Hk].
    rewrite Hk, sort_desc_stable. subst c. unfold candidate_threats.
    rewrite filter_filter_comm.
    set (same := filter _ (map _ entities)).
    destruct (Rlt_dec d 0.3) as [Hlt|Hge].
    + exists 0%nat. simpl.
      rewrite filter_none; [now destruct k|].
      intros t Ht. subst same. apply filter_In in Ht. destruct Ht as [_ Ht].
      unfold Reqb in Ht. destruct (Req_dec_T (danger_level t) d); [|discriminate].
      apply negb_false_iff, Rltb_true. lra.
    + exists k. f_equal. apply filter_all.
      intros t Ht. subst same. apply filter_In in Ht. destruct Ht as [_ Ht].
      unfold Reqb in Ht. destruct (Req_dec_T (danger_level t) d); [|discriminate].
      apply negb_true_iff, Rltb_false. lra.
Qed.

(** *** Evaluation at concrete inputs *)

Lemma sqrt_of_square (v x : R) : 0 <= v -> x = v * v -> sqrt x = v.
Proof. intros Hv ->. apply sqrt_square, Hv. Qed.

(** Replaces the distance between two concrete positions by its value. *)
Ltac euclid_is v :=
  match goal with
  | |- context [euclid ?p ?q] =>
      replace (euclid p q) with v
        by (symmetry; unfold euclid; simpl; apply sqrt_of_square; lra)
  end.

(** Evaluates [Rmax] and [Rmin] at closed arguments. *)
Ltac Rminmax_eval :=
  repeat match goal with
  | |- context [Rmax ?x ?y] =>
      first [ rewrite (Rmax_left x y) by lra | rewrite (Rmax_right x y) by lra ]
  | |- context [Rmin ?x ?y] =>
      first [ rewrite (Rmin_left x y) by lra | rewrite (Rmin_right x y) by lra ]
  end.

Lemma warden_danger :
  danger_level (threat_of spawn 20 default_combat_score warden) = 0.6.
Proof.
  unfold threat_of, warden, spawn, default_combat_score. simpl.
  euclid_is 0. unfold calculate_danger_level.
  change (health_factor 20) with 0.8.
  Rminmax_eval. lra.
Qed.

Lemma warden_assessed :
  assess_threats spawn [warden] 20 default_combat_score
  = [threat_of spawn 20 default_combat_score warden].
Proof.
  unfold assess_threats, candidate_threats. cbn [map filter].
  rewrite warden_danger. Rdecide. reflexivity.
Qed.

(** *** Danger level and agent health *)

Lemma clamp_cases (x : R) :
  (x <= 0 /\ Rmin 1.0 (Rmax 0.0 x) = 0) \/
  (0 <= x <= 1 /\ Rmin 1.0 (Rmax 0.0 x) = x) \/
  (1 <= x /\ Rmin 1.0 (Rmax 0.0 x) = 1).
Proof.
  unfold Rmax. destruct (Rle_dec 0.0 x); unfold Rmin;
    match goal with |- context [Rle_dec ?u ?v] => destruct (Rle_dec u v) end;
    lra.
Qed.





(** *** Hazard detection *)

(** C2, the failing input: with the agent at the origin, a cactus block
    whose coordinates are missing (so default to 0) is at distance 0, within
    its radius 0, and the severity adjustment divides by that radius:
    [detect_hazards] raises ZeroDivisionError. *)
Theorem C2_detect_hazards_divides_by_zero_radius :
  detect_hazards origin [bare_cactus] = inl ZeroDivisionError.
Proof.
  unfold detect_hazards, detected_hazards, block_hazards, block_hazard,
    bare_cactus, origin.
  simpl lookup. cbv iota beta zeta. simpl info_radius.
  euclid_is 0. Rdecide. reflexivity.
Qed.

(** The same happens at every agent position, for every block list that
    holds a block of a radius-0 type on the agent's own position. *)
Lemma block_hazard_zero_radius (pos : Position) (b : Block) (info : HazardInfo) :
  lookup (get_or "" (b_type b)) dangerous_blocks = Some info ->
  info_radius info = 0%Z ->
  block_position b = pos ->
  block_hazard pos b = inl ZeroDivisionError.
Proof.
  intros Hl Hr Hp. unfold block_hazard. rewrite Hl, Hr, Hp.
  assert (E : euclid pos pos = 0).
  { unfold euclid. apply sqrt_of_square; [lra | ring]. }
  rewrite E. Rdecide. reflexivity.
Qed.

(** The only exception [detect_hazards] can raise is ZeroDivisionError. *)
Lemma block_hazard_exn (pos : Position) (b : Block) (e : exn) :
  block_hazard pos b = inl e -> e = ZeroDivisionError.
Proof.
  unfold block_hazard, py_div.
  destruct (lookup _ dangerous_blocks) as [info|]; [|discriminate].
  destruct (Rleb _ _); [|discriminate].
  destruct (info_radius info =? 0)%Z; [|discriminate].
  congruence.
Qed.

(** [detect_hazards] raises only on a zero radius: on a block of a type of
    radius 0 that lies on the agent's position. *)
Lemma block_hazard_raises (pos : Position) (b : Block) (e : exn) :
  block_hazard pos b = inl e ->
  exists info,
    lookup (get_or "" (b_type b)) dangerous_blocks = Some info /\
    info_radius info = 0%Z /\ euclid pos (block_position b) = 0.
Proof.
  unfold block_hazard, py_div.
  destruct (lookup _ dangerous_blocks) as [info|]; [|discriminate].
  destruct (Rleb _ _) eqn:Hle; [|discriminate].
  destruct (info_radius info =? 0)%Z eqn:Hr; [|discriminate].
  intros _. exists info. apply Z.eqb_eq in Hr. rewrite Hr in Hle.
  split; [reflexivity|]. split; [exact Hr|].
  unfold Rleb in Hle. destruct (Rle_dec _ _) as [Hd|]; [|discriminate].
  pose proof (sqrt_pos ((px pos - px (block_position b)) ^ 2
                        + (py pos - py (block_position b)) ^ 2
                        + (pz pos - pz (block_position b)) ^ 2)) as Hp.
  unfold euclid in *. lra.
Qed.

Lemma detect_hazards_raises (pos : Position) (blocks : list Block) (e : exn) :
  detect_hazards pos blocks = inl e ->
  exists b, In b blocks /\ block_hazard pos b = inl ZeroDivisionError.
Proof.
  unfold detect_hazards, detected_hazards.
  destruct (block_hazards pos blocks) as [e'|hs] eqn:Eb; [|discriminate].
  intros _. clear e. revert e' Eb.
  induction blocks as [|b blocks IH]; intros e' Eb; [discriminate|].
  simpl in Eb. destruct (block_hazard pos b) as [e1|o] eqn:E1.
  - exists b. split; [now left|].
    now rewrite (block_hazard_exn pos b e1 E1) in E1.
  - destruct (block_hazards pos blocks) as [e2|hs]; [|discriminate].
    destruct (IH e2 eq_refl) as (b' & Hin & Hb'). exists b'. split; auto.
    now right.
Qed.

Lemma block_hazards_In (pos : Position) (blocks : list Block)
    (hs : list Hazard) (b : Block) (h : Hazard) :
  block_hazards pos blocks = inr hs ->
  In b blocks -> block_hazard pos b = inr (Some h) -> In h hs.
Proof.
  revert hs. induction blocks as [|a blocks IH]; intros hs Hb Hin Hh;
    [destruct Hin|].
  simpl in Hb.
  destruct (block_hazard pos a) as [e|o] eqn:Ea; [discriminate|].
  destruct (block_hazards pos blocks) as [e|hs'] eqn:Er; [discriminate|].
  inversion Hb; subst hs; clear Hb.
  destruct Hin as [->|Hin].
  - rewrite Hh in Ea. inversion Ea; subst o. now left.
  - specialize (IH hs' eq_refl Hin Hh). destruct o; [right|]; exact IH.
Qed.

Lemma lava_block_hazard (pos : Position) (b : Block) :
  b_type b = Some "lava" ->
  block_hazard pos b =
    if Rleb (euclid pos (block_position b)) 3
    then inr (Some (mkHazard "lava" (block_position b)
                      (1.0 * (1.0 - euclid pos (block_position b) / 3))))
    else inr None.
Proof.
  intros Ht. unfold block_hazard. rewrite Ht. simpl.
  destruct (Rleb _ _); reflexivity.
Qed.

(** C9, as amended.  For a lava block [b]:
    - at distance 2 it adds to the detected hazards a hazard of type "lava"
      on its position with severity 1/3 (so in (0, 1]); that hazard is in the
      list [detect_hazards] returns whenever detection raises nothing and
      fewer than 5 of the detected hazards rank ahead of it: are more
      severe, or as severe and detected before it (the result is cut to the
      5 first of the stable sort by severity);
    - at a distance above 3 it adds no hazard;
    - at distance exactly 3 it adds a "lava" hazard of severity 0. *)
Theorem C9_lava_block_hazard :
  forall (pos : Position) (b : Block),
    b_type b = Some "lava" ->
    let dist := euclid pos (block_position b) in
    (dist = 2 ->
     forall (blocks : list Block) (hs : list Hazard),
       In b blocks ->
       detected_hazards pos blocks = inr hs ->
       exists h,
         In h hs /\ hazard_type h = "lava" /\
         h_position h = block_position b /\
         severity h = 1 / 3 /\ 0 < severity h <= 1.0 /\
         (forall pre post,
            hs = pre ++ h :: post -> (ranked_ahead h pre post < 5)%nat ->
            exists out, detect_hazards pos blocks = inr out /\ In h out) /\
         ((List.length hs <= 5)%nat ->
          exists out, detect_hazards pos blocks = inr out /\ In h out)) /\
    (3 < dist -> block_hazard pos b = inr None) /\
    (dist = 3 ->
     block_hazard pos b = inr (Some (mkHazard "lava" (block_position b) 0))).
Proof.
  intros pos b Ht dist. subst dist.
  pose proof (lava_block_hazard pos b Ht) as Hb.
  split; [|split].
  - intros Hd blocks hs Hin Hdet.
    rewrite Hd in Hb. rewrite Rleb_true in Hb by lra.
    match type of Hb with _ = inr (Some ?x) => set (h := x) in * end.
    exists h.
    assert (Hh : In h hs).
    { unfold detected_hazards in Hdet.
      destruct (block_hazards pos blocks) as [e|ms] eqn:Em; [discriminate|].
      inversion Hdet; subst hs.
      apply in_or_app; right. apply in_or_app; right.
      eapply block_hazards_In; eauto. }
    assert (Hs : severity h = 1 / 3) by (subst h; simpl; lra).
    split; [exact Hh|]. split; [reflexivity|]. split; [reflexivity|].
    split; [exact Hs|]. split; [rewrite Hs; lra|].
    split.
    + intros pre post E Hrank. unfold detect_hazards. rewrite Hdet.
      eexists; split; [reflexivity|]. rewrite E.
      destruct (sort_desc_position severity pre post h)
        as (front & back & -> & _ & Hlen).
      apply firstn_keeps_position. unfold ranked_ahead in Hrank. lia.
    + intros Hlen. unfold detect_hazards. rewrite Hdet.
      eexists; split; [reflexivity|].
      rewrite firstn_all2.
      * apply (Permutation_in h (sort_desc_perm severity hs)), Hh.
      * rewrite <- (Permutation_length (sort_desc_perm severity hs)).
        exact Hlen.
  - intros Hd. rewrite Hb. now rewrite Rleb_false by lra.
  - intros Hd. rewrite Hb, Hd. rewrite Rleb_true by lra.
    do 3 f_equal. lra.
Qed.

(** Evaluates [Rabs] at closed arguments. *)
Ltac Rabs_eval :=
  repeat match goal with
  | |- context [Rabs ?x] =>
      first [ rewrite (Rabs_pos_eq x) by lra | rewrite (Rabs_left1 x) by lra ]
  end.

Lemma C9_witness :
  b_type lava_2_east = Some "lava" /\
  exists out h,
    detect_hazards origin [lava_2_east] = inr out /\ In h out /\
    hazard_type h = "lava" /\ severity h = 1 / 3.
Proof.
  split; [reflexivity|].
  assert (Hd : euclid origin (block_position lava_2_east) = 2).
  { unfold euclid; simpl; apply sqrt_of_square; lra. }
  assert (Hs : detected_hazards origin [lava_2_east]
               = inr [mkHazard "lava" (mkPosition 2 0 0)
                               (1.0 * (1.0 - 2 / 3))]).
  { unfold detected_hazards, block_hazards.
    rewrite (lava_block_hazard origin lava_2_east eq_refl), Hd.
    unfold fall_hazard, suffocation_hazard. simpl.
    Rabs_eval. Rdecide. reflexivity. }
  destruct (proj1 (C9_lava_block_hazard origin lava_2_east eq_refl) Hd
              [lava_2_east] _ (or_introl eq_refl) Hs)
    as (h & Hin & Hty & _ & Hsev & _ & Hout & _).
  destruct Hin as [<-|[]].
  assert (Hrank : (ranked_ahead
                     (mkHazard "lava" (mkPosition 2 0 0)
                        (1.0 * (1.0 - 2 / 3))) [] [] < 5)%nat)
    by (unfold ranked_ahead; simpl; lia).
  destruct (Hout [] [] eq_refl Hrank) as (out & Ho & Hin).
  exists out. eexists. split; [exact Ho|]. split; [exact Hin|].
  split; [exact Hty | exact Hsev].
Defined.

Lemma fire_block_hazard_1 (b : Block) :
  b_type b = Some "fire" -> euclid origin (block_position b) = 1 ->
  block_hazard origin b
  = inr (Some (mkHazard "fire" (block_position b) (0.7 * (1.0 - 1 / 2)))).
Proof.
  intros Ht Hd. unfold block_hazard. rewrite Ht. simpl. rewrite Hd.
  now rewrite Rleb_true by lra.
Qed.

(** C9 as stated fails twice.  A lava block at distance exactly 3 does
    yield a hazard (of severity 0).  And a lava block at distance 2 yields
    none among the returned hazards when five fire blocks at distance 1
    (severity 0.35 each) fill the five places. *)
Lemma C9_counterexample :
  (euclid origin (block_position lava_3_east) = 3 /\
   exists h, detect_hazards origin [lava_3_east] = inr [h] /\
             hazard_type h = "lava" /\
             h_position h = block_position lava_3_east) /\
  (In lava_2_east ring_of_fire /\
   euclid origin (block_position lava_2_east) = 2 /\
   exists out, detect_hazards origin ring_of_fire = inr out /\
               forall h, In h out -> hazard_type h <> "lava").
Proof.
  split.
  - assert (Hd : euclid origin (block_position lava_3_east) = 3).
    { unfold euclid; simpl; apply sqrt_of_square; lra. }
    split; [exact Hd|].
    eexists. unfold detect_hazards, detected_hazards, block_hazards.
    rewrite (lava_block_hazard origin lava_3_east eq_refl), Hd.
    rewrite Rleb_true by lra.
    unfold fall_hazard, suffocation_hazard. simpl.
    Rabs_eval. Rdecide. simpl. repeat split.
  - split; [unfold ring_of_fire; simpl; tauto|].
    assert (Hd : euclid origin (block_position lava_2_east) = 2).
    { unfold euclid; simpl; apply sqrt_of_square; lra. }
    split; [exact Hd|].
    eexists. unfold detect_hazards, detected_hazards, ring_of_fire, block_hazards.
    rewrite (lava_block_hazard origin lava_2_east eq_refl), Hd.
    rewrite !fire_block_hazard_1;
      try reflexivity;
      try (unfold euclid; simpl; apply sqrt_of_square; lra).
    rewrite Rleb_true by lra.
    unfold fall_hazard, suffocation_hazard. simpl.
    Rabs_eval. repeat (progress Rdecide; simpl).
    split; [reflexivity|].
    intros h [<-|[<-|[<-|[<-|[<-|[]]]]]]; simpl; discriminate.
Qed.

End TacticalFacts.

Module ActorFacts.
Import Tactical Actor TacticalFacts.

(** *** Serialization *)

Lemma status_value_roundtrip (v : AgentStatus) :
  AgentStatus_of_value (status_value v) = inr v.
Proof. destruct v; reflexivity. Qed.

Lemma Position_dict_roundtrip (p : Position) :
  match Position_to_dict p with
  | JDict d => Position_from_dict d = inr p
  | _ => False
  end.
Proof. destruct p; reflexivity. Qed.

Lemma map_result_to_dict_nil {A : Type} (f : A -> result json) (l : list A) :
  map_result f l = inr [] -> l = [].
Proof.
  destruct l as [|x l]; [reflexivity|]. simpl.
  destruct (f x); [discriminate|]. destruct (map_result f l); discriminate.
Qed.

(** What [Threat.to_dict] writes is refused by [Threat( **t )]: its keys
    are in camel case, the fields of the dataclass are not. *)
Lemma Threat_kwargs_refused (o : pyclass * Threat) (d : json) :
  Threat_to_dict o = inr d ->
  Threat_from_kwargs d = inl (TypeError "unexpected keyword argument").
Proof.
  unfold Threat_to_dict. destruct (fst o); [|discriminate].
  intros H. injection H as <-. reflexivity.
Qed.

Lemma Hazard_kwargs_refused (o : pyclass * Hazard) (d : json) :
  Hazard_to_dict o = inr d ->
  Hazard_from_kwargs d = inl (TypeError "unexpected keyword argument").
Proof.
  unfold Hazard_to_dict. destruct (fst o); [|discriminate].
  intros H. injection H as <-. reflexivity.
Qed.

Lemma map_result_refused {A B : Type} (f : A -> result json)
    (g : json -> result B) (e : exn) (l : list A) (ds : list json) :
  (forall o d, f o = inr d -> g d = inl e) ->
  map_result f l = inr ds -> l <> [] -> map_result g ds = inl e.
Proof.
  intros Hfg Hl Hne. destruct l as [|o l]; [contradiction|].
  simpl in Hl. destruct (f o) as [|d] eqn:Eo; [discriminate|].
  destruct (map_result f l); [discriminate|].
  injection Hl as <-. simpl. now rewrite (Hfg o d Eo).
Qed.

(** Deserializing what [_serialize_state] wrote raises TypeError as soon as
    the state holds a threat or a hazard. *)
Lemma deserialize_serialized_raises (st : AgentState) (data : json) :
  _serialize_state st = inr data ->
  active_threats st <> [] \/ known_hazards st <> [] ->
  _deserialize_state data = inl (TypeError "unexpected keyword argument").
Proof.
  unfold _serialize_state. intros Hs Hne.
  destruct (map_result Threat_to_dict (active_threats st)) as [|ts] eqn:Et;
    [discriminate|].
  destruct (map_result Hazard_to_dict (known_hazards st)) as [|hs] eqn:Eh;
    [discriminate|].
  simpl in Hs. injection Hs as <-.
  unfold _deserialize_state. simpl.
  rewrite status_value_roundtrip. simpl.
  destruct (current_task st); simpl.
  all: destruct (active_threats st) as [|o l] eqn:Ea.
  all: try (rewrite (map_result_refused _ _ _ _ _ Threat_kwargs_refused Et)
              by discriminate; reflexivity).
  all: simpl in Et; injection Et as <-; simpl.
  all: destruct Hne as [Hne|Hne]; [contradiction|].
  all: rewrite (map_result_refused _ _ _ _ _ Hazard_kwargs_refused Eh Hne).
  all: reflexivity.
Qed.

(** Without threats and hazards, and with at most 100 telemetry events,
    the round trip gives the state back. *)
Lemma roundtrip_without_threats (st : AgentState) :
  active_threats st = [] -> known_hazards st = [] ->
  (List.length (telemetry_events st) <= 100)%nat ->
  exists data,
    _serialize_state st = inr data /\ _deserialize_state data = inr st.
Proof.
  intros Ht Hh Hlen. unfold _serialize_state. rewrite Ht, Hh. simpl.
  eexists; split; [reflexivity|].
  unfold _deserialize_state. simpl.
  rewrite status_value_roundtrip. simpl.
  rewrite last_n_short by exact Hlen.
  destruct st; simpl in *; subst.
  destruct position0, current_task0; reflexivity.
Qed.

(** C3, the failing input: the state above serializes, and deserializing
    the result raises TypeError instead of giving the state back. *)
Theorem C3_roundtrip_raises_with_a_threat :
  exists data,
    _serialize_state state_with_threat = inr data /\
    _deserialize_state data = inl (TypeError "unexpected keyword argument") /\
    _deserialize_state data <> inr state_with_threat.
Proof.
  eexists. split; [reflexivity|].
  assert (H : forall data, _serialize_state state_with_threat = inr data ->
            _deserialize_state data
            = inl (TypeError "unexpected keyword argument")).
  { intros data Hd. apply (deserialize_serialized_raises _ _ Hd).
    left. discriminate. }
  rewrite (H _ eq_refl). split; [reflexivity | discriminate].
Qed.

(** *** Running the actor *)

Lemma ensure_loaded_loaded (a : ActorObj) (st : AgentState) :
  state_data a = Some st -> _ensure_loaded a = (inr tt, a).
Proof.
  intros H. unfold _ensure_loaded, bind, get_actor. now rewrite H.
Qed.

Lemma save_state_loaded (a : ActorObj) (st : AgentState) :
  state_data a = Some st ->
  _save_state a =
    match _serialize_state st with
    | inl e => (inl e, a)
    | inr data => (inr tt, saved a st data)
    end.
Proof.
  intros H. unfold _save_state, bind, get_actor. rewrite H.
  unfold lift. destruct (_serialize_state st); [reflexivity|].
  unfold storage_put, utcnow, modify_state, bind, get_state, put_state.
  simpl. rewrite H. reflexivity.
Qed.

Lemma serialize_engine_threat (st : AgentState) (t : Threat)
    (rest : list (pyclass * Threat)) :
  active_threats st = (TacticalClass, t) :: rest ->
  _serialize_state st = inl (AttributeError "to_dict").
Proof. intros H. unfold _serialize_state. now rewrite H. Qed.

Lemma serialize_without_threats (st : AgentState) :
  active_threats st = [] -> known_hazards st = [] ->
  exists data, _serialize_state st = inr data.
Proof.
  intros Ht Hh. unfold _serialize_state. rewrite Ht, Hh. simpl. eauto.
Qed.

(** DELETE on a loaded actor: the head is taken off the queue, then the
    state is saved. *)
Lemma handle_mission_delete (a : ActorObj) (st : AgentState) (m : json)
    (rest : list json) :
  state_data a = Some st -> mission_queue st = m :: rest ->
  _handle_mission delete_request a =
    let st' := set_mission_queue rest st in
    match _serialize_state st' with
    | inl e => (inl e, with_state a st')
    | inr data =>
        (inr (mkResponse (JDict [ ("completed", m) ]) 200),
         saved (with_state a st') st' data)
    end.
Proof.
  intros Hs Hq. unfold _handle_mission, bind.
  rewrite (ensure_loaded_loaded a st Hs). simpl.
  unfold get_state. rewrite Hs, Hq. unfold put_state.
  fold (with_state a (set_mission_queue rest st)).
  rewrite (save_state_loaded (with_state a (set_mission_queue rest st))
             (set_mission_queue rest st) eq_refl).
  cbv zeta. destruct (_serialize_state (set_mission_queue rest st));
    reflexivity.
Qed.

Lemma handle_mission_delete_empty (a : ActorObj) (st : AgentState) :
  state_data a = Some st -> mission_queue st = [] ->
  _handle_mission delete_request a =
    (inr (mkResponse (JDict [ ("error", JStr "No missions to complete") ])
                     404), a).
Proof.
  intros Hs Hq. unfold _handle_mission, bind.
  rewrite (ensure_loaded_loaded a st Hs). simpl.
  unfold get_state. now rewrite Hs, Hq.
Qed.

(** POST of a mission that is truthy, on a loaded actor. *)
Lemma handle_mission_post (a : ActorObj) (st : AgentState) (m : json) :
  state_data a = Some st -> truthy m = true ->
  _handle_mission (post_mission m) a =
    let st' := set_mission_queue (mission_queue st ++ [m]) st in
    match _serialize_state st' with
    | inl e => (inl e, with_state a st')
    | inr data =>
        (inr (mkResponse
                (JDict [ ("status", JStr "queued");
                         ("queueLength",
                          JInt (Z.of_nat (List.length (mission_queue st ++ [m])))) ])
                200),
         saved (with_state a st') st' data)
    end.
Proof.
  intros Hs Hm. unfold _handle_mission, bind.
  rewrite (ensure_loaded_loaded a st Hs). simpl. rewrite Hm. simpl.
  unfold modify_state, bind, get_state. rewrite Hs. unfold put_state.
  fold (with_state a (set_mission_queue (mission_queue st ++ [m]) st)).
  rewrite (save_state_loaded
             (with_state a (set_mission_queue (mission_queue st ++ [m]) st))
             (set_mission_queue (mission_queue st ++ [m]) st) eq_refl).
  cbv zeta. destruct (_serialize_state _); reflexivity.
Qed.

(** POST without a mission, or with a falsy one. *)
Lemma handle_mission_post_missing (a : ActorObj) (st : AgentState)
    (request : Request) (body : Body) :
  state_data a = Some st -> method request = "POST" ->
  req_body request = Some body ->
  truthy (get_or JNull (b_mission body)) = false ->
  _handle_mission request a =
    (inr (mkResponse (JDict [ ("error", JStr "Missing mission") ]) 400), a).
Proof.
  intros Hs Hmeth Hb Hm. unfold _handle_mission, bind.
  rewrite (ensure_loaded_loaded a st Hs), Hmeth. simpl.
  unfold request_json. rewrite Hb. unfold ret. now rewrite Hm.
Qed.

Lemma log_telemetry_loaded (a : ActorObj) (st : AgentState)
    (event_type : string) (data : json) :
  state_data a = Some st ->
  _log_telemetry event_type data a =
    let st' :=
      set_telemetry_events
        (last_n 100 (telemetry_events st
                     ++ [telemetry_event event_type data (clock a)])) st in
    match _serialize_state st' with
    | inl e => (inl e, logged a st event_type data)
    | inr stored => (inr tt, saved (logged a st event_type data) st' stored)
    end.
Proof.
  intros Hs. unfold _log_telemetry, bind.
  rewrite (ensure_loaded_loaded a st Hs). simpl.
  unfold modify_state, bind, get_state. simpl. rewrite Hs. simpl.
  fold (telemetry_event event_type data (clock a)).
  set (l := telemetry_events st ++ [telemetry_event event_type data (clock a)]).
  pose proof (trim_is_last_n 100 l) as Ht.
  destruct (100 <? List.length l)%nat; simpl.
  - erewrite save_state_loaded by reflexivity. reflexivity.
  - erewrite save_state_loaded by reflexivity.
    unfold logged. fold l. rewrite <- Ht. reflexivity.
Qed.

(** *** The telemetry bound *)

Lemma keeps_ret {A : Type} (x : A) : keeps (ret x).
Proof. intros a H; exact H. Qed.

Lemma keeps_raise {A : Type} (e : exn) : keeps (@raise A e).
Proof. intros a H; exact H. Qed.

Lemma keeps_lift {A : Type} (r : result A) : keeps (lift r).
Proof. intros a H; exact H. Qed.

Lemma keeps_get_actor : keeps get_actor.
Proof. intros a H; exact H. Qed.

Lemma keeps_get_state : keeps get_state.
Proof. intros a H. unfold get_state. destruct (state_data a); exact H. Qed.

Lemma keeps_utcnow : keeps utcnow.
Proof. intros a H; exact H. Qed.

Lemma keeps_set_self_agent_id (id : string) : keeps (set_self_agent_id id).
Proof. intros a H; exact H. Qed.

Lemma keeps_bind {A B : Type} (m : M A) (k : A -> M B) :
  keeps m -> (forall x, keeps (k x)) -> keeps (bind m k).
Proof.
  intros Hm Hk a Ha. unfold bind. specialize (Hm a Ha).
  destruct (m a) as [[e|x] a']; simpl in *; [exact Hm|].
  apply Hk, Hm.
Qed.

Lemma keeps_try_except {A : Type} (m : M A) (handler : exn -> M A) :
  keeps m -> (forall e, keeps (handler e)) -> keeps (try_except m handler).
Proof.
  intros Hm Hh a Ha. unfold try_except. specialize (Hm a Ha).
  destruct (m a) as [[e|x] a']; simpl in *; [|exact Hm].
  apply Hh, Hm.
Qed.

Lemma keeps_put_state (st : AgentState) :
  (List.length (telemetry_events st) <= 100)%nat -> keeps (put_state st).
Proof.
  intros Hlen a [Hm Hs]. split.
  - intros st' E. simpl in E. injection E as <-. exact Hlen.
  - exact Hs.
Qed.

(** After [get_state], the value is the loaded state. *)
Lemma keeps_with_state {B : Type} (k : AgentState -> M B) :
  (forall st, (List.length (telemetry_events st) <= 100)%nat -> keeps (k st)) ->
  keeps (bind get_state k).
Proof.
  intros Hk a Ha. unfold bind, get_state.
  destruct (state_data a) as [st|] eqn:E; simpl; [|exact Ha].
  apply Hk; [|exact Ha]. apply (proj1 Ha), E.
Qed.

Lemma keeps_modify_state (f : AgentState -> AgentState) :
  (forall st, telemetry_events (f st) = telemetry_events st) ->
  keeps (modify_state f).
Proof.
  intros Hf. unfold modify_state. apply keeps_with_state.
  intros st Hlen. apply keeps_put_state. now rewrite Hf.
Qed.

Lemma keeps_update_if_present {A B : Type} (field : option A)
    (decode : A -> result B) (set : B -> AgentState -> AgentState) :
  (forall x st, telemetry_events (set x st) = telemetry_events st) ->
  keeps (update_if_present field decode set).
Proof.
  intros Hset. unfold update_if_present. destruct field; [|apply keeps_ret].
  apply keeps_bind; [apply keeps_lift|].
  intros x. apply keeps_modify_state, Hset.
Qed.

Lemma serialize_telemetry (st : AgentState) (d : list (string * json)) :
  _serialize_state st = inr (JDict d) ->
  dict_get "telemetryEvents" d = Some (JList (last_n 100 (telemetry_events st))).
Proof.
  unfold _serialize_state.
  destruct (map_result Threat_to_dict _); [discriminate|].
  destruct (map_result Hazard_to_dict _); [discriminate|].
  simpl. intros H. injection H as <-. reflexivity.
Qed.

Lemma serialize_is_dict (st : AgentState) (data : json) :
  _serialize_state st = inr data -> exists d, data = JDict d.
Proof.
  unfold _serialize_state.
  destruct (map_result Threat_to_dict _); [discriminate|].
  destruct (map_result Hazard_to_dict _); [discriminate|].
  simpl. intros H. injection H as <-. eauto.
Qed.

Lemma keeps_storage_put (st : AgentState) (data : json) :
  _serialize_state st = inr data -> keeps (storage_put data).
Proof.
  intros Hd a [Hm Hs]. split; [exact Hm|].
  intros d l E Hl. simpl in E. injection E as ->.
  rewrite (serialize_telemetry st d Hd) in Hl. injection Hl as <-.
  rewrite last_n_length. lia.
Qed.

Lemma keeps_save_state : keeps _save_state.
Proof.
  unfold _save_state. apply keeps_bind; [apply keeps_get_actor|].
  intros a. destruct (state_data a) as [st|]; [|apply keeps_ret].
  intros a0 Ha0. unfold bind, lift.
  destruct (_serialize_state st) as [e|data] eqn:Ed; [exact Ha0|].
  revert a0 Ha0. change (keeps (storage_put data ;;
                                now <- utcnow ;;
                                modify_state (set_last_active now))).
  apply keeps_bind; [apply (keeps_storage_put st data Ed)|]. intros _.
  apply keeps_bind; [apply keeps_utcnow|]. intros now.
  now apply keeps_modify_state.
Qed.

Lemma keeps_initialize_state : keeps initialize_state.
Proof.
  unfold initialize_state. apply keeps_bind; [apply keeps_get_actor|].
  intros a. apply keeps_bind; [apply keeps_set_self_agent_id|]. intros _.
  apply keeps_bind; [apply keeps_utcnow|]. intros now.
  apply keeps_bind; [|intros _; apply keeps_save_state].
  apply keeps_put_state. simpl. lia.
Qed.

(** Destructs the steps of a chain of [<--] that ends well. *)
Ltac rbind_ok H :=
  repeat match type of H with
  | rbind ?r _ = inr _ =>
      let E := fresh "E" in
      destruct r eqn:E; simpl in H; [discriminate|]
  end.

(** The telemetry events of a deserialized state are those stored. *)
Lemma deserialize_telemetry (data : json) (st : AgentState) :
  _deserialize_state data = inr st ->
  exists d, data = JDict d /\
    as_list (get_or (JList []) (dict_get "telemetryEvents" d))
    = inr (telemetry_events st).
Proof.
  unfold _deserialize_state. intros H.
  destruct data; try discriminate. simpl in H.
  rbind_ok H. injection H as <-. simpl. eauto.
Qed.

Lemma keeps_ensure_loaded : keeps _ensure_loaded.
Proof.
  unfold _ensure_loaded. intros a Ha. unfold bind at 1, get_actor.
  destruct (state_data a) as [st|] eqn:Es; [exact Ha|].
  destruct (storage a) as [data|] eqn:Ed;
    [|apply keeps_initialize_state, Ha].
  destruct (truthy data); [|apply keeps_initialize_state, Ha].
  unfold bind, lift.
  destruct (_deserialize_state data) as [e|st] eqn:E; [exact Ha|].
  apply keeps_put_state; [|exact Ha].
  destruct (deserialize_telemetry data st E) as (d & -> & Hl).
  destruct (dict_get "telemetryEvents" d) as [v|] eqn:Ev; simpl in Hl.
  - destruct v; try discriminate. injection Hl as <-.
    apply (proj2 Ha d l Ed Ev).
  - injection Hl as <-. simpl. lia.
Qed.

Lemma keeps_log_telemetry (event_type : string) (data : json) :
  keeps (_log_telemetry event_type data).
Proof.
  unfold _log_telemetry.
  apply keeps_bind; [apply keeps_ensure_loaded|]. intros _.
  apply keeps_bind; [apply keeps_utcnow|]. intros now.
  (* the append may exceed the bound, the trimming restores it *)
  intros a Ha. unfold bind at 1, modify_state, bind at 1, get_state.
  destruct (state_data a) as [st|] eqn:Es; simpl; [|exact Ha].
  unfold bind at 1, get_state. simpl.
  set (l := telemetry_events st ++ _).
  assert (Hput : forall l', (List.length l' <= 100)%nat ->
            telemetry_bounded
              (mkActor (durable_id a) (storage a) (self_agent_id a)
                       (Some (set_telemetry_events l' st)) (clock a))).
  { intros l' Hl'. split; [|exact (proj2 Ha)].
    intros st' E. simpl in E. injection E as <-. exact Hl'. }
  destruct (100 <? List.length l)%nat eqn:El.
  - unfold bind, put_state. simpl. apply keeps_save_state, Hput.
    rewrite last_n_length. lia.
  - unfold bind, ret. simpl. apply keeps_save_state, Hput.
    apply Nat.ltb_ge in El. exact El.
Qed.

Lemma keeps_handle_sync (request : Request) : keeps (_handle_sync request).
Proof.
  unfold _handle_sync.
  apply keeps_bind; [apply keeps_ensure_loaded|]. intros _.
  destruct (String.eqb (method request) "GET").
  { apply keeps_bind; [apply keeps_get_state|]. intros st.
    apply keeps_bind; [apply keeps_lift|]. intros d. apply keeps_ret. }
  destruct (String.eqb (method request) "POST"); [|apply keeps_ret].
  apply keeps_bind; [unfold request_json; destruct (req_body request);
                     [apply keeps_ret | apply keeps_raise]|].
  intros body.
  repeat (apply keeps_bind;
          [now apply keeps_update_if_present | intros _]).
  apply keeps_bind.
  { destruct (b_mission body); [|apply keeps_ret].
    now apply keeps_modify_state. }
  intros _. apply keeps_bind; [apply keeps_save_state|]. intros _.
  apply keeps_bind; [apply keeps_get_state|]. intros st.
  apply keeps_bind; [apply keeps_utcnow|]. intros now. apply keeps_ret.
Qed.

Lemma keeps_request_json (request : Request) : keeps (request_json request).
Proof.
  unfold request_json. destruct (req_body request);
    [apply keeps_ret | apply keeps_raise].
Qed.

Lemma keeps_handle_mission (request : Request) :
  keeps (_handle_mission request).
Proof.
  unfold _handle_mission.
  apply keeps_bind; [apply keeps_ensure_loaded|]. intros _.
  destruct (String.eqb (method request) "GET").
  { apply keeps_bind; [apply keeps_get_state|]. intros st. apply keeps_ret. }
  destruct (String.eqb (method request) "POST").
  { apply keeps_bind; [apply keeps_request_json|]. intros body.
    destruct (negb _); [apply keeps_ret|].
    apply keeps_bind; [now apply keeps_modify_state|]. intros _.
    apply keeps_bind; [apply keeps_save_state|]. intros _.
    apply keeps_bind; [apply keeps_get_state|]. intros st. apply keeps_ret. }
  destruct (String.eqb (method request) "DELETE"); [|apply keeps_ret].
  apply keeps_with_state. intros st Hlen.
  destruct (mission_queue st) as [|completed rest]; [apply keeps_ret|].
  apply keeps_bind; [now apply keeps_put_state|]. intros _.
  apply keeps_bind; [apply keeps_save_state|]. intros _. apply keeps_ret.
Qed.

(** Erasing the calls of a sequence is sequencing the erased steps. *)
Lemma erase_bindT {A B : Type} (m : Traced A) (k : A -> Traced B)
    (a : ActorObj) :
  erase (bindT m k) a = bind (erase m) (fun x => erase (k x)) a.
Proof.
  unfold erase, bindT, bind.
  destruct (m a) as [[[e|x] a'] calls]; [reflexivity|]. cbn [fst].
  destruct (k x a') as [[r a''] calls']. reflexivity.
Qed.

Lemma keeps_erase_bind {A B : Type} (m : Traced A) (k : A -> Traced B) :
  keeps (erase m) -> (forall x, keeps (erase (k x))) ->
  keeps (erase (bindT m k)).
Proof.
  intros Hm Hk a Ha. rewrite erase_bindT.
  exact (keeps_bind _ _ Hm Hk a Ha).
Qed.

Lemma keeps_quiet {A : Type} (m : M A) : keeps m -> keeps (erase (quiet m)).
Proof. intros H a Ha. exact (H a Ha). Qed.

Lemma keeps_engine_call {A : Type} (c : EngineCall) (r : result A) :
  keeps (erase (engine_call c r)).
Proof. intros a Ha. exact Ha. Qed.

Lemma keeps_retT {A : Type} (x : A) : keeps (erase (retT x)).
Proof. intros a Ha. exact Ha. Qed.

Lemma keeps_handle_tactical (request : Request) :
  keeps (_handle_tactical request).
Proof.
  unfold _handle_tactical, _handle_tactical_calls.
  apply keeps_erase_bind; [apply keeps_quiet, keeps_ensure_loaded|].
  intros _.
  destruct (negb _); [apply keeps_retT|].
  apply keeps_erase_bind; [apply keeps_quiet, keeps_request_json|].
  intros body.
  apply keeps_erase_bind;
    [now apply keeps_quiet, keeps_update_if_present|]. intros _.
  apply keeps_erase_bind; [apply keeps_quiet, keeps_get_state|]. intros st.
  cbv zeta.
  apply keeps_erase_bind; [apply keeps_engine_call|]. intros threats.
  apply keeps_erase_bind; [apply keeps_engine_call|]. intros hazards.
  apply keeps_erase_bind; [now apply keeps_quiet, keeps_modify_state|].
  intros _.
  apply keeps_erase_bind; [apply keeps_quiet, keeps_get_state|]. intros st'.
  apply keeps_erase_bind; [apply keeps_engine_call|]. intros decision.
  apply keeps_quiet.
  apply keeps_bind; [apply keeps_lift|]. intros dd.
  apply keeps_bind; [apply keeps_log_telemetry|]. intros _.
  apply keeps_bind; [apply keeps_save_state|]. intros _.
  repeat (apply keeps_bind; [apply keeps_lift|]; intros ?).
  apply keeps_bind; [apply keeps_utcnow|]. intros now. apply keeps_ret.
Qed.

Lemma keeps_handle_telemetry (request : Request) :
  keeps (_handle_telemetry request).
Proof.
  unfold _handle_telemetry.
  apply keeps_bind; [apply keeps_ensure_loaded|]. intros _.
  destruct (negb _); [apply keeps_ret|].
  apply keeps_bind; [apply keeps_request_json|]. intros body.
  apply keeps_bind; [apply keeps_log_telemetry|]. intros _. apply keeps_ret.
Qed.

Lemma keeps_handle_health : keeps _handle_health.
Proof.
  unfold _handle_health.
  apply keeps_bind; [apply keeps_get_actor|]. intros a.
  apply keeps_bind; [apply keeps_utcnow|]. intros now. apply keeps_ret.
Qed.

Lemma keeps_fetch (request : Request) : keeps (fetch request).
Proof.
  unfold fetch. apply keeps_try_except.
  - unfold route.
    repeat match goal with
           | |- keeps (if ?c then _ else _) => destruct c
           end;
      auto using keeps_handle_sync, keeps_handle_mission,
        keeps_handle_tactical, keeps_handle_telemetry, keeps_handle_health,
        keeps_ret.
  - intros e. unfold internal_error, _log_error.
    apply keeps_bind; [apply keeps_log_telemetry|]. intros _.
    apply keeps_ret.
Qed.

Lemma reachable_bounded (a : ActorObj) : reachable a -> telemetry_bounded a.
Proof.
  induction 1 as [id now | a request _ IH | a _ IH | a ty data _ IH
                 | a _ IH | a now _ IH].
  - split; intros ? **; discriminate.
  - apply keeps_fetch, IH.
  - apply keeps_save_state, IH.
  - apply keeps_log_telemetry, IH.
  - split; [intros st E; discriminate | exact (proj2 IH)].
  - exact IH.
Qed.

(** C6: in every actor reachable from a new one (by requests to any
    handler, saves, logged events, restarts), the loaded state and the stored
    state each hold at most 100 telemetry events; and logging an event keeps
    the most recent 100 of the old events followed by the new one: what is
    dropped is taken from the front, the oldest events. *)
Theorem C6_telemetry_bounded_oldest_evicted :
  forall a : ActorObj,
    reachable a ->
    (forall st, state_data a = Some st ->
       (List.length (telemetry_events st) <= 100)%nat) /\
    (forall d l, storage a = Some (JDict d) ->
       dict_get "telemetryEvents" d = Some (JList l) ->
       (List.length l <= 100)%nat) /\
    (forall st event_type data,
       state_data a = Some st ->
       exists st' dropped,
         state_data (snd (_log_telemetry event_type data a)) = Some st' /\
         telemetry_events st ++ [telemetry_event event_type data (clock a)]
         = dropped ++ telemetry_events st' /\
         List.length (telemetry_events st')
         = Nat.min 100 (List.length (telemetry_events st) + 1)).
Proof.
  intros a Hr. destruct (reachable_bounded a Hr) as [Hm Hs].
  split; [exact Hm|]. split; [exact Hs|].
  intros st ty data Est.
  set (l := telemetry_events st ++ [telemetry_event ty data (clock a)]).
  destruct (last_n_suffix 100 l) as [dropped Hd].
  assert (Hlen : List.length (last_n 100 l)
                 = Nat.min 100 (List.length (telemetry_events st) + 1)).
  { rewrite last_n_length. subst l. rewrite length_app. reflexivity. }
  rewrite (log_telemetry_loaded a st ty data Est). cbv zeta. fold l.
  destruct (_serialize_state _); eexists; exists dropped;
    (split; [reflexivity|]); split; assumption.
Qed.

Lemma C6_witness :
  reachable (snd (fetch telemetry_request (new_actor "steve-1" 0%Z))) /\
  match state_data (snd (fetch telemetry_request (new_actor "steve-1" 0%Z))) with
  | Some st => (List.length (telemetry_events st) <= 100)%nat
  | None => True
  end.
Proof.
  assert (Hr : reachable (snd (fetch telemetry_request (new_actor "steve-1" 0%Z))))
    by apply reach_fetch, reach_new.
  split; [exact Hr|].
  destruct (state_data _) as [st|] eqn:E; [|exact I].
  exact (proj1 (C6_telemetry_bounded_oldest_evicted _ Hr) st E).
Defined.

(** *** The tactical handler *)

Lemma with_state_loaded (a : ActorObj) (st : AgentState) :
  state_data a = Some st -> with_state a st = a.
Proof. intros H. destruct a. simpl in H. subst. reflexivity. Qed.

(** A POST on a loaded actor, once the position of the body is read: the
    engine is asked for the threats, then for the hazards and, when that
    call returns, for the decision; then [to_dict] raises. *)
Lemma handle_tactical_calls_loaded (a : ActorObj) (st st1 : AgentState)
    (request : Request) (body : Body) :
  state_data a = Some st -> method request = "POST" ->
  req_body request = Some body ->
  positioned st body = inr st1 ->
  let entities := get_or [] (b_nearbyEntities body) in
  let blocks := get_or [] (b_nearbyBlocks body) in
  let hp := get_or (health st) (b_health body) in
  let threats := assess_threats (position st1) entities hp 0.5 in
  _handle_tactical_calls request a
  = match detect_hazards (position st1) blocks with
    | inl e =>
        (inl e, with_state a st1,
         [ assess_threats_call (position st1) entities hp 0.5;
           detect_hazards_call (position st1) blocks ])
    | inr hazards =>
        (inl (AttributeError "to_dict"),
         with_state a (assessed st1 body threats hazards),
         [ assess_threats_call (position st1) entities hp 0.5;
           detect_hazards_call (position st1) blocks;
           get_quick_decision_call threats hazards
             (get_or 0.0 (b_combatScore body)) (current_task st) ])
    end.
Proof.
  intros Hs Hmeth Hb Hp. cbv zeta.
  unfold _handle_tactical_calls, bindT, quiet.
  rewrite (ensure_loaded_loaded a st Hs), Hmeth. simpl.
  unfold request_json. rewrite Hb. simpl.
  unfold positioned in Hp. unfold update_if_present.
  destruct (b_position body) as [d|].
  - unfold bind, lift. destruct (Position_from_dict d) as [e|p];
      [discriminate|]. simpl in Hp. injection Hp as <-.
    unfold modify_state, bind, get_state. rewrite Hs. simpl.
    destruct (detect_hazards p _); reflexivity.
  - injection Hp as <-. simpl. unfold get_state. rewrite Hs. simpl.
    unfold modify_state, bind, get_state. simpl. rewrite Hs. simpl.
    rewrite (with_state_loaded a st Hs).
    destruct (detect_hazards (position st) _); reflexivity.
Qed.

Lemma positioned_keeps (st st1 : AgentState) (body : Body) :
  positioned st body = inr st1 ->
  health st1 = health st /\ current_task st1 = current_task st.
Proof.
  unfold positioned. destruct (b_position body) as [d|].
  - destruct (Position_from_dict d); [discriminate|].
    simpl. intros H. injection H as <-. split; reflexivity.
  - intros H. injection H as <-. split; reflexivity.
Qed.

(** On a loaded actor, a POST whose engine calls succeed stores their
    results, then raises: the decision has no [to_dict]. *)
Lemma handle_tactical_loaded (a : ActorObj) (st st1 : AgentState)
    (request : Request) (body : Body) (threats : list Threat)
    (hazards : list Hazard) (decision : TacticalDecision) :
  state_data a = Some st -> method request = "POST" ->
  req_body request = Some body ->
  positioned st body = inr st1 ->
  tactical_analysis st1 body = inr (threats, hazards, decision) ->
  _handle_tactical request a
  = (inl (AttributeError "to_dict"),
     with_state a (assessed st1 body threats hazards)).
Proof.
  intros Hs Hmeth Hb Hp Ha. unfold _handle_tactical, erase.
  rewrite (handle_tactical_calls_loaded a st st1 request body Hs Hmeth Hb Hp).
  destruct (positioned_keeps st st1 body Hp) as [Hh Hc].
  unfold tactical_analysis in Ha. rewrite Hh in Ha.
  destruct (detect_hazards (position st1) (get_or [] (b_nearbyBlocks body)))
    as [e|hs]; [discriminate|].
  simpl in Ha. injection Ha as <- <- _. reflexivity.
Qed.

(** The [except] block on a loaded actor. *)
Lemma internal_error_loaded (a : ActorObj) (st : AgentState) (e : exn) :
  state_data a = Some st ->
  internal_error e a =
    let data := JDict [ ("context", JStr "fetch");
                        ("message", JStr (exn_message e)) ] in
    let st' :=
      set_telemetry_events
        (last_n 100 (telemetry_events st
                     ++ [telemetry_event "error" data (clock a)])) st in
    match _serialize_state st' with
    | inl e' => (inl e', logged a st "error" data)
    | inr stored =>
        (inr (mkResponse
                (JDict [ ("error", JStr "Internal server error");
                         ("message", JStr (exn_message e)) ])
                500),
         saved (logged a st "error" data) st' stored)
    end.
Proof.
  intros Hs. unfold internal_error, _log_error, bind.
  rewrite (log_telemetry_loaded a st _ _ Hs). cbv zeta.
  destruct (_serialize_state _); reflexivity.
Qed.

(** With a threat of the engine in the state, every save raises; so a
    handler that raised ends [fetch] with an exception, and no response. *)
Lemma fetch_raises_with_engine_threat (a a1 : ActorObj) (st1 : AgentState)
    (request : Request) (e : exn) (t : Threat)
    (rest : list (pyclass * Threat)) :
  route request a = (inl e, a1) ->
  state_data a1 = Some st1 ->
  active_threats st1 = (TacticalClass, t) :: rest ->
  exists st2,
    fetch request a
    = (inl (AttributeError "to_dict"),
       with_state (at_time a1 (clock a1 + 1)%Z) st2) /\
    active_threats st2 = active_threats st1 /\
    mission_queue st2 = mission_queue st1.
Proof.
  intros Hr Hs Ht. unfold fetch, try_except. rewrite Hr.
  rewrite (internal_error_loaded a1 st1 e Hs). cbv zeta.
  erewrite serialize_engine_threat by exact Ht.
  eexists. split; [reflexivity|]. split; reflexivity.
Qed.

(** *** A run that loses a mission *)

(** Evaluates a run of the actor that decides no comparison of reals. *)
Ltac run :=
  cbv -[IZR Q2R Rltb Rleb Reqb Rmax Rmin sqrt Rabs Rplus Rminus Rmult Rdiv
        Rinv Ropp pow INR Z.add Z.of_nat].

Lemma queued_A_B_state :
  exists st,
    state_data queued_A_B = Some st /\
    mission_queue st = [JStr "A"; JStr "B"] /\
    position st = spawn /\ health st = 20%Z /\
    active_threats st = [] /\ known_hazards st = [].
Proof.
  unfold queued_A_B. run. eexists. split; [reflexivity|]. repeat split.
Qed.

Lemma after_warden_state :
  fst (fetch warden_request queued_A_B) = inl (AttributeError "to_dict") /\
  exists st t,
    state_data after_warden = Some st /\
    mission_queue st = [JStr "A"; JStr "B"] /\
    active_threats st = [(TacticalClass, t)].
Proof.
  destruct queued_A_B_state as (st & Hs & Hq & Hp & Hh & Ht & Hk).
  unfold after_warden.
  assert (Ha : tactical_analysis st
                 (mkBody None None None None None None (Some [warden]) None
                         (Some 0.9) None None)
               = inr ([threat_of spawn 20 default_combat_score warden], [],
                      get_quick_decision
                        [threat_of spawn 20 default_combat_score warden] []
                        0.9 (current_task st))).
  { unfold tactical_analysis. simpl. rewrite Hp, Hh, warden_assessed.
    reflexivity. }
  pose proof (handle_tactical_loaded queued_A_B st st warden_request _ _ _ _
                Hs eq_refl eq_refl eq_refl Ha) as Hh'.
  destruct (fetch_raises_with_engine_threat queued_A_B _ _ warden_request
              _ _ _ Hh' eq_refl eq_refl) as (st2 & Hf & Ht2 & Hq2).
  rewrite Hf. split; [reflexivity|].
  exists st2, (threat_of spawn 20 default_combat_score warden).
  split; [reflexivity|]. split; [rewrite Hq2; exact Hq | exact Ht2].
Qed.

(** C5, the failing input: a new actor is sent the missions "A" and "B",
    then a tactical request with a warden nearby, then DELETE /mission.
    The DELETE takes "A" off the queue and then raises AttributeError where
    the state is saved (the threat stored by the tactical request is an
    instance of tactical.py's [Threat], which has no [to_dict]): no response
    returns "A", and the queue is left as ["B"]. *)
Theorem C5_delete_drops_head_without_returning_it :
  (exists st, state_data after_warden = Some st /\
              mission_queue st = [JStr "A"; JStr "B"]) /\
  fst (_handle_mission delete_request after_warden)
  = inl (AttributeError "to_dict") /\
  fst (fetch delete_request after_warden) = inl (AttributeError "to_dict") /\
  exists st', state_data (snd (fetch delete_request after_warden)) = Some st' /\
              mission_queue st' = [JStr "B"].
Proof.
  destruct after_warden_state as (_ & st & t & Hs & Hq & Ht).
  split; [exists st; auto|].
  pose proof (handle_mission_delete after_warden st _ _ Hs Hq) as Hd.
  cbv zeta in Hd.
  rewrite (serialize_engine_threat (set_mission_queue [JStr "B"] st) t []) in Hd
    by exact Ht.
  split; [now rewrite Hd|].
  destruct (fetch_raises_with_engine_threat after_warden _ _ delete_request
              _ t [] Hd eq_refl Ht) as (st2 & Hf & _ & Hq2).
  rewrite Hf. split; [reflexivity|].
  exists st2. split; [reflexivity | exact Hq2].
Qed.

(** *** The combat scores of the tactical handler *)



End ActorFacts.

(** * Further properties of the tactical engine *)

Module EngineFacts.
Import Tactical TacticalFacts.

(** *** Danger levels *)

Lemma calculate_danger_level_range (b d : R) (hp : Z) (cs : R) :
  0 <= calculate_danger_level b d hp cs <= 1.
Proof.
  unfold calculate_danger_level.
  match goal with |- _ <= Rmin _ (Rmax _ ?x) <= _ =>
    destruct (clamp_cases x) as [[H ->]|[[H ->]|[H ->]]]
  end; lra.
Qed.

Lemma health_factor_pos (hp : Z) : 0 < health_factor hp.
Proof.
  unfold health_factor.
  destruct (hp <? 5)%Z; [lra|]. destruct (hp <? 10)%Z; [lra|].
  destruct (15 <? hp)%Z; lra.
Qed.

Lemma combat_factor_pos (cs : R) : 0.5 <= Rmax 0.5 (1.0 - cs * 0.5).
Proof. apply Rmax_l. Qed.

Lemma distance_factor_nonneg (d : R) : 0 <= Rmax 0.0 (1.0 - d / 20.0).
Proof. pose proof (Rmax_l 0.0 (1.0 - d / 20.0)). lra. Qed.

(** A positive danger level needs a positive rating and a distance below
    20. *)
Lemma positive_danger (b d : R) (hp : Z) (cs : R) :
  0 < calculate_danger_level b d hp cs -> 0 < b /\ d < 20.
Proof.
  unfold calculate_danger_level.
  pose proof (health_factor_pos hp) as Hh.
  pose proof (combat_factor_pos cs) as Hc.
  pose proof (distance_factor_nonneg d) as Hd.
  set (df := Rmax 0.0 (1.0 - d / 20.0)) in *.
  set (cf := Rmax 0.5 (1.0 - cs * 0.5)) in *.
  set (hf := health_factor hp) in *.
  intros Hpos.
  assert (Hraw : 0 < b * df * hf * cf).
  { match type of Hpos with _ < Rmin _ (Rmax _ ?x) =>
      destruct (clamp_cases x) as [[H E]|[[H E]|[H E]]]; rewrite E in Hpos
    end; lra. }
  assert (Hhc : 0 < hf * cf) by (apply Rmult_lt_0_compat; lra).
  assert (Hbd : 0 < b * df).
  { destruct (Rle_or_lt (b * df) 0) as [Hle|]; [|assumption].
    exfalso.
    assert (b * df * (hf * cf) <= 0).
    { replace 0 with (0 * (hf * cf)) by ring.
      apply Rmult_le_compat_r; lra. }
    replace (b * df * hf * cf) with (b * df * (hf * cf)) in Hraw by ring.
    lra. }
  assert (Hdf : 0 < df).
  { destruct (Rle_lt_or_eq_dec 0 df Hd) as [|E]; [assumption|].
    rewrite <- E, Rmult_0_r in Hbd. lra. }
  split.
  - destruct (Rle_or_lt b 0) as [Hb|]; [|assumption]. exfalso.
    assert (b * df <= 0 * df) by (apply Rmult_le_compat_r; lra). lra.
  - subst df. unfold Rmax in Hdf.
    destruct (Rle_dec 0.0 (1.0 - d / 20.0)); lra.
Qed.

Lemma in_assess_threats (pos : Position) (es : list Entity) (hp : Z)
    (cs : R) (t : Threat) :
  In t (assess_threats pos es hp cs) ->
  exists e, In e es /\ t = threat_of pos hp cs e /\ 0.3 <= danger_level t.
Proof.
  unfold assess_threats. intros Hin.
  assert (Hc : In t (candidate_threats pos es hp cs)).
  { apply (Permutation_in t
             (Permutation_sym (sort_desc_perm danger_level _))).
    rewrite <- (firstn_skipn 5 (sort_desc danger_level _)).
    apply in_or_app; auto. }
  unfold candidate_threats in Hc. apply filter_In in Hc.
  destruct Hc as [Hm Hd]. apply in_map_iff in Hm.
  destruct Hm as (e & <- & He). exists e.
  apply negb_true_iff, Rltb_ge in Hd. auto.
Qed.

(** X1: Every threat [assess_threats] reports stems from an entity of the
    input, lies less than 20 away, has a type of positive rating (never
    piglin, villager or animal), and has a danger level in [0.3, 1]. *)
Theorem reported_threats_are_near_and_rated :
  forall (pos : Position) (es : list Entity) (hp : Z) (cs : R) (t : Threat),
    In t (assess_threats pos es hp cs) ->
    (exists e, In e es /\ t = threat_of pos hp cs e) /\
    0 <= distance t < 20 /\
    0.3 <= danger_level t <= 1 /\
    0 < get_or 1.0 (lookup (entity_type t) ENTITY_DANGER_RATINGS) /\
    entity_type t <> "piglin" /\ entity_type t <> "villager" /\
    entity_type t <> "animal".
Proof.
  intros pos es hp cs t Hin.
  destruct (in_assess_threats pos es hp cs t Hin) as (e & He & -> & Hd).
  unfold threat_of in *. cbn [danger_level distance entity_type] in *.
  set (ty := get_or "unknown" (e_type e)) in *.
  assert (Hpos : 0 < calculate_danger_level
            (get_or 1.0 (lookup ty ENTITY_DANGER_RATINGS))
            (euclid pos (entity_position e)) hp cs).
  { eapply Rlt_le_trans; [|exact Hd]. lra. }
  destruct (positive_danger _ _ _ _ Hpos) as [Hb Hlt].
  split; [eauto|]. split.
  { split; [apply sqrt_pos | exact Hlt]. }
  split.
  { split; [exact Hd | apply calculate_danger_level_range]. }
  split; [exact Hb|].
  repeat split; intros E; rewrite E in Hb; simpl in Hb; lra.
Qed.

Lemma reported_threats_witness :
  In (threat_of spawn 20 default_combat_score warden)
     (assess_threats spawn [warden] 20 default_combat_score) /\
  distance (threat_of spawn 20 default_combat_score warden) < 20.
Proof.
  assert (H : In (threat_of spawn 20 default_combat_score warden)
                 (assess_threats spawn [warden] 20 default_combat_score))
    by (rewrite warden_assessed; left; reflexivity).
  split; [exact H|].
  exact (proj2 (proj1 (proj2
    (reported_threats_are_near_and_rated spawn [warden] 20
       default_combat_score _ H)))).
Defined.

Lemma rating_nonneg (ty : string) :
  0 <= get_or 1.0 (lookup ty ENTITY_DANGER_RATINGS).
Proof.
  unfold ENTITY_DANGER_RATINGS. cbn [lookup].
  repeat match goal with
         | |- context [String.eqb ty ?s] =>
             destruct (String.eqb ty s); [cbn [get_or]; lra|]
         end.
  cbn [get_or]. lra.
Qed.

Lemma clamp_monotone (x y : R) :
  x <= y -> Rmin 1.0 (Rmax 0.0 x) <= Rmin 1.0 (Rmax 0.0 y).
Proof.
  intros H.
  destruct (clamp_cases x) as [[Hx ->]|[[Hx ->]|[Hx ->]]];
  destruct (clamp_cases y) as [[Hy ->]|[[Hy ->]|[Hy ->]]]; lra.
Qed.

(** X2: For every entity type, the danger level does not grow with the
    distance nor with the agent's combat score: an entity that is no
    farther, faced by an agent that is no better at combat, is no less
    dangerous. *)
Theorem danger_falls_with_distance_and_combat_score :
  forall (ty : string) (d1 d2 : R) (hp : Z) (cs1 cs2 : R),
    d1 <= d2 -> cs1 <= cs2 ->
    let rating := get_or 1.0 (lookup ty ENTITY_DANGER_RATINGS) in
    calculate_danger_level rating d2 hp cs2
    <= calculate_danger_level rating d1 hp cs1.
Proof.
  intros ty d1 d2 hp cs1 cs2 Hd Hc rating.
  pose proof (rating_nonneg ty) as Hb. fold rating in Hb.
  unfold calculate_danger_level.
  pose proof (health_factor_pos hp) as Hh.
  pose proof (combat_factor_pos cs2) as Hc2.
  pose proof (distance_factor_nonneg d2) as Hd2.
  assert (Hdf : Rmax 0.0 (1.0 - d2 / 20.0) <= Rmax 0.0 (1.0 - d1 / 20.0)).
  { apply Rle_max_compat_l. lra. }
  assert (Hcf : Rmax 0.5 (1.0 - cs2 * 0.5) <= Rmax 0.5 (1.0 - cs1 * 0.5)).
  { apply Rle_max_compat_l. lra. }
  set (df1 := Rmax 0.0 (1.0 - d1 / 20.0)) in *.
  set (df2 := Rmax 0.0 (1.0 - d2 / 20.0)) in *.
  set (cf1 := Rmax 0.5 (1.0 - cs1 * 0.5)) in *.
  set (cf2 := Rmax 0.5 (1.0 - cs2 * 0.5)) in *.
  set (hf := health_factor hp) in *.
  apply clamp_monotone.
  assert (rating * df2 * hf * cf2 <= rating * df1 * hf * cf1); [|lra].
  apply Rmult_le_compat; try lra.
  - apply Rmult_le_pos; [apply Rmult_le_pos|]; lra.
  - apply Rmult_le_compat_r; [lra|].
    apply Rmult_le_compat_l; lra.
Qed.

Lemma danger_falls_witness :
  calculate_danger_level
    (get_or 1.0 (lookup "zombie" ENTITY_DANGER_RATINGS)) 2 20 1
  <= calculate_danger_level
       (get_or 1.0 (lookup "zombie" ENTITY_DANGER_RATINGS)) 1 20 0.
Proof.
  apply (danger_falls_with_distance_and_combat_score "zombie" 1 2 20 0 1);
    lra.
Defined.

(** *** Hazards *)

Lemma dangerous_blocks_bounds (ty : string) (info : HazardInfo) :
  lookup ty dangerous_blocks = Some info ->
  0 <= info_severity info <= 1 /\ (0 <= info_radius info)%Z.
Proof.
  unfold dangerous_blocks. cbn [lookup].
  repeat match goal with
         | |- context [String.eqb ty ?s] =>
             destruct (String.eqb ty s);
             [intros E; injection E as <-; cbn; split; [lra | lia]|]
         end.
  discriminate.
Qed.

Lemma block_hazard_severity (pos : Position) (b : Block) (h : Hazard) :
  block_hazard pos b = inr (Some h) -> 0 <= severity h <= 1.
Proof.
  unfold block_hazard, py_div.
  destruct (lookup _ dangerous_blocks) as [info|] eqn:El; [|discriminate].
  destruct (dangerous_blocks_bounds _ _ El) as [Hs Hr].
  destruct (Rleb _ _) eqn:Hle; [|discriminate].
  destruct (info_radius info =? 0)%Z eqn:Hz; [discriminate|].
  intros E. injection E as <-. cbn [severity].
  apply Z.eqb_neq in Hz.
  assert (Hpos : 0 < IZR (info_radius info)) by (apply IZR_lt; lia).
  unfold Rleb in Hle. destruct (Rle_dec _ _) as [Hd|]; [|discriminate].
  set (d := euclid pos (block_position b)) in *.
  assert (H0 : 0 <= d) by apply sqrt_pos.
  set (r := IZR (info_radius info)) in *.
  assert (Hq : 0 <= d / r <= 1).
  { split.
    - apply Rmult_le_pos; [lra|]. left. now apply Rinv_0_lt_compat.
    - apply (Rmult_le_reg_r r); [lra|]. unfold Rdiv.
      rewrite Rmult_assoc, Rinv_l by lra. lra. }
  split.
  - apply Rmult_le_pos; lra.
  - replace 1 with (1 * 1) by ring. apply Rmult_le_compat; lra.
Qed.

Lemma block_hazards_severity (pos : Position) (blocks : list Block)
    (hs : list Hazard) :
  block_hazards pos blocks = inr hs ->
  Forall (fun h => 0 <= severity h <= 1) hs.
Proof.
  revert hs. induction blocks as [|b blocks IH]; intros hs E; simpl in E.
  - injection E as <-. constructor.
  - destruct (block_hazard pos b) as [|o] eqn:Eb; [discriminate|].
    destruct (block_hazards pos blocks) as [|hs']; [discriminate|].
    injection E as <-. specialize (IH hs' eq_refl).
    destruct o as [h|]; [|exact IH].
    constructor; [exact (block_hazard_severity pos b h Eb) | exact IH].
Qed.

Lemma fall_hazard_severity (pos : Position) (blocks : list Block) :
  Forall (fun h => 0 <= severity h <= 1) (fall_hazard pos blocks).
Proof.
  unfold fall_hazard. destruct (_ && _); [|constructor].
  constructor; [|constructor]. cbn [severity].
  set (n := INR _). assert (0 <= n) by apply pos_INR.
  split.
  - apply Rmin_glb; lra.
  - pose proof (Rmin_l 1.0 (n / 10.0)). lra.
Qed.

Lemma suffocation_hazard_severity (pos : Position) (blocks : list Block) :
  Forall (fun h => 0 <= severity h <= 1) (suffocation_hazard pos blocks).
Proof.
  unfold suffocation_hazard. destruct (filter _ _); [constructor|].
  constructor; [cbn; lra | constructor].
Qed.

(** X3: When [detect_hazards] returns, it returns at most 5 hazards, sorted by
    non-increasing severity, each of a severity in [0, 1]. *)
Theorem detected_hazards_top5_sorted_bounded :
  forall (pos : Position) (blocks : list Block) (hs : list Hazard),
    detect_hazards pos blocks = inr hs ->
    (List.length hs <= 5)%nat /\
    StronglySorted (fun a b => severity b <= severity a) hs /\
    Forall (fun h => 0 <= severity h <= 1) hs.
Proof.
  intros pos blocks hs. unfold detect_hazards, detected_hazards.
  destruct (block_hazards pos blocks) as [|ms] eqn:Em; [discriminate|].
  intros E.
  assert (E' : hs = firstn 5 (sort_desc severity
                 (fall_hazard pos blocks ++ suffocation_hazard pos blocks
                  ++ ms))) by (injection E as <-; reflexivity).
  clear E. subst hs.
  split; [apply firstn_le_length|].
  split; [apply (firstn_sorted severity), sort_desc_sorted|].
  assert (Hall : Forall (fun h => 0 <= severity h <= 1)
                   (fall_hazard pos blocks ++ suffocation_hazard pos blocks
                    ++ ms)).
  { repeat (apply Forall_app; split).
    - apply fall_hazard_severity.
    - apply suffocation_hazard_severity.
    - exact (block_hazards_severity pos blocks ms Em). }
  rewrite Forall_forall in *. intros h Hin. apply Hall.
  apply (Permutation_in h (Permutation_sym (sort_desc_perm severity _))).
  rewrite <- (firstn_skipn 5 (sort_desc severity _)).
  apply in_or_app; auto.
Qed.

Lemma detect_lava_2_east :
  detect_hazards origin [lava_2_east]
  = inr [mkHazard "lava" (mkPosition 2 0 0) (1.0 * (1.0 - 2 / 3))].
Proof.
  assert (Hd : euclid origin (block_position lava_2_east) = 2).
  { unfold euclid; simpl; apply sqrt_of_square; lra. }
  unfold detect_hazards, detected_hazards, block_hazards.
  rewrite (lava_block_hazard origin lava_2_east eq_refl), Hd.
  unfold fall_hazard, suffocation_hazard. simpl.
  Rabs_eval. Rdecide. reflexivity.
Qed.

Lemma detected_hazards_witness :
  exists hs,
    detect_hazards origin [lava_2_east] = inr hs /\
    Forall (fun h => 0 <= severity h <= 1) hs.
Proof.
  eexists. split; [exact detect_lava_2_east|].
  exact (proj2 (proj2 (detected_hazards_top5_sorted_bounded origin
                         [lava_2_east] _ detect_lava_2_east))).
Defined.

(** *** The decision cascade *)

Lemma filter_above_cases {A : Type} (key : A -> R) (bound : R)
    (l : list A) :
  (none_above key bound l /\
   filter (fun x => Rltb bound (key x)) l = []) \/
  (exists x rest, first_above key bound l x /\
                  filter (fun x => Rltb bound (key x)) l = x :: rest).
Proof.
  destruct (filter (fun x => Rltb bound (key x)) l) as [|x rest] eqn:E.
  - left. split; [|reflexivity]. intros y Hy.
    destruct (Rle_or_lt (key y) bound) as [|Hlt]; [assumption|].
    assert (Hin : In y (filter (fun x => Rltb bound (key x)) l)).
    { apply filter_In. split; [exact Hy | now apply Rltb_true]. }
    rewrite E in Hin. destruct Hin.
  - right. exists x, rest. split; [|reflexivity].
    assert (Hx : In x (filter (fun x => Rltb bound (key x)) l))
      by (rewrite E; now left).
    apply filter_In in Hx. destruct Hx as [Hin Hk].
    destruct (filter_first (fun x => Rltb bound (key x)) l x Hin Hk)
      as (h & pre & post & Hl & Hh & Hpre & Hf).
    rewrite E in Hf. injection Hf as <- _.
    exists pre, post. split; [exact Hl|].
    split; [now apply Rltb_lt|].
    intros y Hy. apply Rltb_ge. now apply Hpre.
Qed.

(** The cascade, rule by rule: which rule fires, on which element, and
    the decision it builds. *)
Lemma get_quick_decision_cases (threats : list Threat)
    (hazards : list Hazard) (cs : R) (mission : option string) :
  let d := get_quick_decision threats hazards cs mission in
  (exists h, first_above severity 0.8 hazards h /\ d = flee_from_hazard h) \/
  (none_above severity 0.8 hazards /\
   exists t, first_above danger_level 0.7 threats t /\
     d = if Rltb 0.6 cs then combat_decision t else flee_from_threat t) \/
  (none_above severity 0.8 hazards /\ none_above danger_level 0.7 threats /\
   exists t rest, threats = t :: rest /\ 0.4 < danger_level t /\
     d = if Rltb 0.7 cs then combat_decision t else hold_position t) \/
  (none_above severity 0.8 hazards /\ none_above danger_level 0.7 threats /\
   head_at_most 0.4 threats /\
   exists h, first_above severity 0.4 hazards h /\ d = avoid_hazard h) \/
  (none_above severity 0.8 hazards /\ none_above danger_level 0.7 threats /\
   head_at_most 0.4 threats /\ none_above severity 0.4 hazards /\
   d = continue_mission mission).
Proof.
  cbv zeta. unfold get_quick_decision.
  destruct (filter_above_cases severity 0.8 hazards)
    as [[Hf ->]|(h & r & Hh & ->)]; [|left; eauto].
  right.
  destruct (filter_above_cases danger_level 0.7 threats)
    as [[Hc ->]|(t & r & Ht & ->)]; [|left; eauto].
  right.
  assert (Hlow :
    head_at_most 0.4 threats ->
    (none_above severity 0.8 hazards /\ none_above danger_level 0.7 threats /\
     head_at_most 0.4 threats /\
     exists h, first_above severity 0.4 hazards h /\
       match filter (fun h => Rltb 0.4 (severity h)) hazards with
       | [] => continue_mission mission
       | h :: _ => avoid_hazard h
       end = avoid_hazard h) \/
    (none_above severity 0.8 hazards /\ none_above danger_level 0.7 threats /\
     head_at_most 0.4 threats /\ none_above severity 0.4 hazards /\
     match filter (fun h => Rltb 0.4 (severity h)) hazards with
     | [] => continue_mission mission
     | h :: _ => avoid_hazard h
     end = continue_mission mission)).
  { intros Hhead.
    destruct (filter_above_cases severity 0.4 hazards)
      as [[Hm ->]|(h & r & Hh & ->)]; [right | left]; eauto 10. }
  destruct threats as [|t rest].
  - right. apply Hlow. intros t rest E. discriminate.
  - destruct (Rltb 0.4 (danger_level t)) eqn:E.
    + left. apply Rltb_lt in E. split; [exact Hf|]. split; [exact Hc|].
      exists t, rest. auto.
    + right. apply Hlow. intros t' rest' E'. injection E' as <- <-.
      now apply Rltb_ge.
Qed.

Lemma first_above_In {A : Type} (key : A -> R) (bound : R) (l : list A)
    (x : A) :
  first_above key bound l x -> In x l /\ bound < key x.
Proof.
  intros (pre & post & -> & Hx & _). split; [|exact Hx].
  apply in_or_app. right. now left.
Qed.

Lemma none_above_first {A : Type} (key : A -> R) (bound : R) (l : list A)
    (x : A) :
  none_above key bound l -> first_above key bound l x -> False.
Proof.
  intros Hn Hf. destruct (first_above_In _ _ _ _ Hf) as [Hin Hx].
  specialize (Hn x Hin). lra.
Qed.

Lemma none_above_weaken {A : Type} (key : A -> R) (b1 b2 : R) (l : list A) :
  b1 <= b2 -> none_above key b1 l -> none_above key b2 l.
Proof. intros Hb Hn y Hy. specialize (Hn y Hy). lra. Qed.

(** X4: Rule 2 of the cascade.  With no hazard above 0.8 and some threat of
    danger above 0.7, the decision concerns the first such threat of the
    list: for a combat score above 0.6 it is to attack, with the threat's
    danger as priority, confidence 0.8, and a target 2 units from the threat;
    otherwise it is to flee, with priority 0.9, confidence 0.95, and a target
    10 units from the threat. *)
Theorem critical_threat_attack_or_flee :
  forall (threats : list Threat) (hazards : list Hazard) (cs : R)
         (mission : option string),
    none_above severity 0.8 hazards ->
    (exists t0, In t0 threats /\ 0.7 < danger_level t0) ->
    exists t,
      first_above danger_level 0.7 threats t /\
      let d := get_quick_decision threats hazards cs mission in
      (0.6 < cs ->
       action d = "attack" /\ priority d = danger_level t /\
       confidence d = 0.8 /\
       exists tgt, target_position d = Some tgt /\
                   moved_against_sign 2 (t_position t) tgt) /\
      (cs <= 0.6 ->
       action d = "flee" /\ priority d = 0.9 /\ confidence d = 0.95 /\
       exists tgt, target_position d = Some tgt /\
                   moved_against_sign 10 (t_position t) tgt).
Proof.
  intros threats hazards cs mission Hnf (t0 & Hin0 & Hd0).
  destruct (get_quick_decision_cases threats hazards cs mission)
    as [(h & Hh & _)|[(_ & t & Ht & Hd)|
        [(_ & Hnc & _)|[(_ & Hnc & _)|(_ & Hnc & _)]]]].
  - destruct (none_above_first _ _ _ _ Hnf Hh).
  - exists t. split; [exact Ht|]. cbv zeta. rewrite Hd. split; intros Hcs.
    + rewrite Rltb_true by exact Hcs. simpl.
      repeat split. eexists. split; [reflexivity|].
      apply (displaced_moved (t_position t) 2).
    + rewrite Rltb_false by exact Hcs. simpl.
      repeat split. eexists. split; [reflexivity|].
      apply (displaced_moved (t_position t) 10).
  - specialize (Hnc t0 Hin0). lra.
  - specialize (Hnc t0 Hin0). lra.
  - specialize (Hnc t0 Hin0). lra.
Qed.

(** A creeper of danger 0.8, as in the tests of the module. *)
Lemma critical_threat_witness :
  action (get_quick_decision
            [mkThreat "creeper" (mkPosition 5 64 0) 5.0 0.8 20] [] 0.8 None)
  = "attack" /\
  action (get_quick_decision
            [mkThreat "creeper" (mkPosition 5 64 0) 5.0 0.8 20] [] 0.3 None)
  = "flee".
Proof.
  assert (Hn : none_above severity 0.8 []) by (intros y []).
  assert (He : exists t0,
             In t0 [mkThreat "creeper" (mkPosition 5 64 0) 5.0 0.8 20] /\
             0.7 < danger_level t0).
  { eexists. split; [left; reflexivity | simpl; lra]. }
  split.
  - destruct (critical_threat_attack_or_flee _ [] 0.8 None Hn He)
      as (t & _ & Ha & _).
    apply Ha. lra.
  - destruct (critical_threat_attack_or_flee _ [] 0.3 None Hn He)
      as (t & _ & _ & Hf).
    apply Hf. lra.
Defined.

(** X5: Rule 3 of the cascade.  With no hazard above 0.8 and no threat above
    0.7, a first threat of danger above 0.4 is attacked for a combat score
    above 0.7, and otherwise met by "shield", with the threat's danger as
    priority, confidence 0.7 and no target.  Hazards of severity up to 0.8
    play no part then. *)
Theorem medium_threat_attack_or_shield :
  forall (t : Threat) (rest : list Threat) (hazards : list Hazard) (cs : R)
         (mission : option string),
    none_above severity 0.8 hazards ->
    none_above danger_level 0.7 (t :: rest) ->
    0.4 < danger_level t ->
    let d := get_quick_decision (t :: rest) hazards cs mission in
    priority d = danger_level t /\
    (0.7 < cs ->
     action d = "attack" /\ confidence d = 0.8 /\
     exists tgt, target_position d = Some tgt /\
                 moved_against_sign 2 (t_position t) tgt) /\
    (cs <= 0.7 ->
     action d = "shield" /\ confidence d = 0.7 /\ target_position d = None).
Proof.
  intros t rest hazards cs mission Hnf Hnc Ht.
  destruct (get_quick_decision_cases (t :: rest) hazards cs mission)
    as [(h & Hh & _)|[(_ & t' & Ht' & _)|
        [(_ & _ & t' & rest' & E & _ & Hd)|
         [(_ & _ & Hhead & _)|(_ & _ & Hhead & _)]]]].
  - destruct (none_above_first _ _ _ _ Hnf Hh).
  - destruct (none_above_first _ _ _ _ Hnc Ht').
  - injection E as <- <-. cbv zeta. rewrite Hd.
    split; [destruct (Rltb 0.7 cs); reflexivity|].
    split; intros Hcs.
    + rewrite Rltb_true by exact Hcs. simpl. repeat split.
      eexists. split; [reflexivity|].
      apply (displaced_moved (t_position t) 2).
    + rewrite Rltb_false by exact Hcs. simpl. repeat split.
  - specialize (Hhead t rest eq_refl). lra.
  - specialize (Hhead t rest eq_refl). lra.
Qed.

Lemma medium_threat_witness :
  action (get_quick_decision
            [mkThreat "zombie" (mkPosition 5 64 0) 5.0 0.6 20]
            [mkHazard "fire" (mkPosition 1 64 0) 0.7] 0.5 None)
  = "shield".
Proof.
  assert (Hn : none_above severity 0.8
                 [mkHazard "fire" (mkPosition 1 64 0) 0.7]).
  { intros y [<-|[]]. simpl. lra. }
  assert (Hc : none_above danger_level 0.7
                 [mkThreat "zombie" (mkPosition 5 64 0) 5.0 0.6 20]).
  { intros y [<-|[]]. simpl. lra. }
  assert (Ht : 0.4 < danger_level
                 (mkThreat "zombie" (mkPosition 5 64 0) 5.0 0.6 20))
    by (simpl; lra).
  destruct (medium_threat_attack_or_shield _ [] _ 0.5 None Hn Hc Ht)
    as (_ & _ & Hs).
  apply Hs. lra.
Defined.

(** X6: Rule 4 of the cascade.  With no hazard above 0.8, no threat above 0.7
    and a first threat (if any) of at most 0.4, the first hazard above 0.4
    is dodged: priority its severity, confidence 0.8, target 3 units from
    the hazard. *)
Theorem medium_hazard_dodged :
  forall (threats : list Threat) (hazards : list Hazard) (cs : R)
         (mission : option string),
    none_above severity 0.8 hazards ->
    none_above danger_level 0.7 threats ->
    head_at_most 0.4 threats ->
    (exists h0, In h0 hazards /\ 0.4 < severity h0) ->
    exists h,
      first_above severity 0.4 hazards h /\
      let d := get_quick_decision threats hazards cs mission in
      action d = "dodge" /\ priority d = severity h /\ confidence d = 0.8 /\
      exists tgt, target_position d = Some tgt /\
                  moved_against_sign 3 (h_position h) tgt.
Proof.
  intros threats hazards cs mission Hnf Hnc Hhead (h0 & Hin0 & Hs0).
  destruct (get_quick_decision_cases threats hazards cs mission)
    as [(h & Hh & _)|[(_ & t' & Ht' & _)|
        [(_ & _ & t' & rest' & E & Ht' & _)|
         [(_ & _ & _ & h & Hh & Hd)|(_ & _ & _ & Hnm & _)]]]].
  - destruct (none_above_first _ _ _ _ Hnf Hh).
  - destruct (none_above_first _ _ _ _ Hnc Ht').
  - specialize (Hhead t' rest' E). lra.
  - exists h. split; [exact Hh|]. cbv zeta. rewrite Hd. simpl.
    repeat split. eexists. split; [reflexivity|].
    apply (displaced_moved (h_position h) 3).
  - specialize (Hnm h0 Hin0). lra.
Qed.

Lemma medium_hazard_witness :
  action (get_quick_decision []
            [mkHazard "fire" (mkPosition 1 64 0) 0.7] 0.5 None)
  = "dodge".
Proof.
  assert (Hn : none_above severity 0.8
                 [mkHazard "fire" (mkPosition 1 64 0) 0.7]).
  { intros y [<-|[]]. simpl. lra. }
  assert (Hc : none_above danger_level 0.7 []) by (intros y []).
  assert (Hh : head_at_most 0.4 []) by (intros t rest E; discriminate).
  assert (He : exists h0,
             In h0 [mkHazard "fire" (mkPosition 1 64 0) 0.7] /\
             0.4 < severity h0).
  { eexists. split; [left; reflexivity | simpl; lra]. }
  destruct (medium_hazard_dodged [] _ 0.5 None Hn Hc Hh He)
    as (h & _ & Ha & _).
  exact Ha.
Defined.

(** X7: Rule 5 of the cascade, both ways.  The decision is "hold" exactly when
    no hazard is above 0.4, no threat is above 0.7 and the first threat (if
    any) is at most 0.4; it then has priority 0.1, confidence 0.9, no
    target, and its reasoning names the mission, or "idle" when the mission
    is absent or empty. *)
Theorem hold_iff_area_clear :
  forall (threats : list Threat) (hazards : list Hazard) (cs : R)
         (mission : option string),
    let d := get_quick_decision threats hazards cs mission in
    (action d = "hold" <->
     none_above severity 0.4 hazards /\ none_above danger_level 0.7 threats /\
     head_at_most 0.4 threats) /\
    (action d = "hold" ->
     priority d = 0.1 /\ confidence d = 0.9 /\ target_position d = None /\
     reasoning d
     = AreaClear (match mission with
                  | Some "" | None => "idle"
                  | Some m => m
                  end)).
Proof.
  intros threats hazards cs mission. cbv zeta.
  destruct (get_quick_decision_cases threats hazards cs mission)
    as [(h & Hh & Hd)|[(_ & t & Ht & Hd)|
        [(_ & _ & t & rest & E & Ht & Hd)|
         [(_ & _ & _ & h & Hh & Hd)|(Hnf & Hnc & Hhead & Hnm & Hd)]]]];
    cbv zeta in Hd; rewrite Hd.
  - split; [split|]; try discriminate.
    intros (Hnm & _). exfalso.
    apply (none_above_first severity 0.8 hazards h); [|exact Hh].
    apply (none_above_weaken _ 0.4); [lra | exact Hnm].
  - assert (Hne : action (if Rltb 0.6 cs then combat_decision t
                          else flee_from_threat t) <> "hold")
      by (destruct (Rltb 0.6 cs); discriminate).
    split; [split|]; try (intros H; now destruct (Hne H)).
    intros (_ & Hnc & _). destruct (none_above_first _ _ _ _ Hnc Ht).
  - assert (Hne : action (if Rltb 0.7 cs then combat_decision t
                          else hold_position t) <> "hold")
      by (destruct (Rltb 0.7 cs); discriminate).
    split; [split|]; try (intros H; now destruct (Hne H)).
    intros (_ & _ & Hhead). specialize (Hhead t rest E). lra.
  - split; [split|]; try discriminate.
    intros (Hnm & _). destruct (none_above_first _ _ _ _ Hnm Hh).
  - split; [split; auto|]. intros _. simpl.
    split; [reflexivity|]. split; [reflexivity|]. split; [reflexivity|].
    f_equal. unfold mission_or_idle. destruct mission as [m|]; [|reflexivity].
    destruct m as [|c m]; reflexivity.
Qed.

Lemma unit_interval_of {A : Type} (key : A -> R) (l : list A) (x : A) :
  Forall (fun y => unit_interval (key y)) l -> In x l ->
  unit_interval (key x).
Proof. intros H Hin. rewrite Forall_forall in H. now apply H. Qed.

(** X8: The shape of every decision: its action is one of flee, attack,
    shield, dodge and hold; it has a target exactly when the action is flee,
    attack or dodge; its confidence is in [0, 1]; and so is its priority
    when the danger levels and severities it is given are. *)
Theorem decision_shape :
  forall (threats : list Threat) (hazards : list Hazard) (cs : R)
         (mission : option string),
    let d := get_quick_decision threats hazards cs mission in
    known_action (action d) /\
    (target_position d = None <->
     action d = "shield" \/ action d = "hold") /\
    unit_interval (confidence d) /\
    (Forall (fun t => unit_interval (danger_level t)) threats ->
     Forall (fun h => unit_interval (severity h)) hazards ->
     unit_interval (priority d)).
Proof.
  intros threats hazards cs mission. cbv zeta. unfold known_action.
  destruct (get_quick_decision_cases threats hazards cs mission)
    as [(h & Hh & Hd)|[(_ & t & Ht & Hd)|
        [(_ & _ & t & rest & E & Ht & Hd)|
         [(_ & _ & _ & h & Hh & Hd)|(_ & _ & _ & _ & Hd)]]]];
    cbv zeta in Hd; rewrite Hd; clear Hd.
  - simpl. split; [tauto|]. split.
    { split; [discriminate | intros [H|H]; discriminate]. }
    unfold unit_interval. split; [lra|]. intros; lra.
  - apply first_above_In in Ht. destruct Ht as [Hin _].
    destruct (Rltb 0.6 cs); simpl.
    + split; [tauto|]. split.
      { split; [discriminate | intros [H|H]; discriminate]. }
      split; [unfold unit_interval; lra|]. intros Hts _.
      exact (unit_interval_of danger_level threats t Hts Hin).
    + split; [tauto|]. split.
      { split; [discriminate | intros [H|H]; discriminate]. }
      unfold unit_interval. split; [lra|]. intros; lra.
  - subst threats. destruct (Rltb 0.7 cs); simpl.
    + split; [tauto|]. split.
      { split; [discriminate | intros [H|H]; discriminate]. }
      split; [unfold unit_interval; lra|]. intros Hts _.
      inversion Hts; assumption.
    + split; [tauto|]. split; [tauto|].
      split; [unfold unit_interval; lra|]. intros Hts _.
      inversion Hts; assumption.
  - apply first_above_In in Hh. destruct Hh as [Hin _]. simpl.
    split; [tauto|]. split.
    { split; [discriminate | intros [H|H]; discriminate]. }
    split; [unfold unit_interval; lra|]. intros _ Hhs.
    exact (unit_interval_of severity hazards h Hhs Hin).
  - simpl. split; [tauto|]. split; [tauto|].
    unfold unit_interval. split; [lra|]. intros; lra.
Qed.

End EngineFacts.

(** ** Resources and paths *)

Module PlanningFacts.
Import Tactical TacticalFacts.

Lemma euclid_nonneg (p q : Position) : 0 <= euclid p q.
Proof. unfold euclid. apply sqrt_pos. Qed.

Lemma resource_priority_nonneg (ty : string) (d : R)
    (inv : list (string * Z)) (needs : list string) :
  0 <= calculate_resource_priority ty d inv needs.
Proof.
  unfold calculate_resource_priority. cbv zeta.
  eapply Rle_trans; [|apply Rmax_l]. lra.
Qed.

(** X9: The priority of a resource is never negative, and a resource that is
    no farther, no more plentiful in the inventory, and needed by the
    mission whenever the other is, has no lower priority. *)
Theorem resource_priority_monotone :
  forall (ty : string) (d1 d2 : R) (inv1 inv2 : list (string * Z))
         (needs1 needs2 : list string),
    d1 <= d2 ->
    (inventory_count ty inv1 <= inventory_count ty inv2)%Z ->
    (needed ty needs2 = true -> needed ty needs1 = true) ->
    0 <= calculate_resource_priority ty d2 inv2 needs2
      <= calculate_resource_priority ty d1 inv1 needs1.
Proof.
  intros ty d1 d2 inv1 inv2 needs1 needs2 Hd Hc Hn.
  split; [apply resource_priority_nonneg|].
  unfold calculate_resource_priority, inventory_count in *. cbv zeta.
  set (c1 := get_or 0%Z (lookup ty inv1)) in *.
  set (c2 := get_or 0%Z (lookup ty inv2)) in *.
  apply Rle_max_compat_l.
  assert (Hneed :
    (if needed ty needs2 then 0.0 + 10.0 else 0.0)
    <= (if needed ty needs1 then 0.0 + 10.0 else 0.0)).
  { destruct (needed ty needs2).
    - rewrite (Hn eq_refl). lra.
    - destruct (needed ty needs1); lra. }
  set (n1 := if needed ty needs1 then 0.0 + 10.0 else 0.0) in *.
  set (n2 := if needed ty needs2 then 0.0 + 10.0 else 0.0) in *.
  destruct (Z.ltb_spec c2 10) as [H2|H2];
    destruct (Z.ltb_spec c1 10) as [H1|H1]; try lia.
  - apply IZR_le in Hc.
    rewrite !minus_IZR. nra.
  - assert (0 < IZR (10 - c1)) by (apply IZR_lt; lia). nra.
  - nra.
Qed.

Lemma resource_priority_witness :
  0 <= calculate_resource_priority "oak_log" 20 [("oak_log", 12%Z)] []
    <= calculate_resource_priority "oak_log" 5 [] ["oak_log"].
Proof.
  apply resource_priority_monotone.
  - lra.
  - vm_compute. discriminate.
  - vm_compute. discriminate.
Defined.

Lemma sorted_firstn_dominates {A : Type} (key : A -> R) (n : nat)
    (l : list A) (x : A) :
  StronglySorted (desc key) l -> In x l ->
  In x (firstn n l) \/ forall q, In q (firstn n l) -> key x <= key q.
Proof.
  revert n. induction l as [|a l IH]; intros n Hs Hin; [destruct Hin|].
  destruct n as [|n]; [right; intros q []|].
  inversion Hs as [|? ? Hs' Hall]; subst.
  destruct Hin as [<-|Hin]; [left; now left|].
  destruct (IH n Hs' Hin) as [H|H]; [left; now right|].
  right. intros q [<-|Hq]; [|now apply H].
  rewrite Forall_forall in Hall. exact (Hall x Hin).
Qed.

Lemma in_firstn {A : Type} (n : nat) (l : list A) (x : A) :
  In x (firstn n l) -> In x l.
Proof.
  intros H. rewrite <- (firstn_skipn n l). apply in_or_app. now left.
Qed.

Lemma in_prioritize_resources (resources : list Resource) (pos : Position)
    (inv : list (string * Z)) (needs : list string) (p : Prioritized) :
  In p (prioritize_resources resources pos inv needs) ->
  exists r, In r resources /\ p = prioritized_of pos inv needs r.
Proof.
  unfold prioritize_resources. intros Hin.
  apply in_firstn in Hin.
  apply (Permutation_in _ (Permutation_sym (sort_desc_perm p_priority _)))
    in Hin.
  apply in_map_iff in Hin. destruct Hin as (r & <- & Hr). eauto.
Qed.

(** X10: [prioritize_resources] returns the 10 resources of highest priority
    (all of them when there are fewer), highest first: each entry is the
    input resource with its distance from the agent and its priority, which
    is never negative, and a resource that is left out has a priority no
    higher than any that is returned. *)
Theorem prioritize_resources_top10 :
  forall (resources : list Resource) (pos : Position)
         (inv : list (string * Z)) (needs : list string),
    let out := prioritize_resources resources pos inv needs in
    List.length out = Nat.min 10 (List.length resources) /\
    StronglySorted (desc p_priority) out /\
    (forall p, In p out ->
       0 <= p_priority p /\ 0 <= p_distance p /\
       exists r, In r resources /\ p_resource p = r /\
         p_distance p = euclid pos (resource_position r) /\
         p_priority p
         = calculate_resource_priority (get_or "" (r_type r)) (p_distance p)
             inv needs) /\
    (forall r, In r resources ->
       In (prioritized_of pos inv needs r) out \/
       forall q, In q out ->
         p_priority (prioritized_of pos inv needs r) <= p_priority q).
Proof.
  intros resources pos inv needs. cbv zeta.
  split; [|split; [|split]].
  - unfold prioritize_resources. rewrite length_firstn.
    rewrite <- (Permutation_length (sort_desc_perm p_priority _)).
    now rewrite length_map.
  - apply firstn_sorted, sort_desc_sorted.
  - intros p Hin. apply in_prioritize_resources in Hin.
    destruct Hin as (r & Hr & ->). unfold prioritized_of. cbn.
    split; [apply resource_priority_nonneg|].
    split; [apply euclid_nonneg|].
    exists r. auto.
  - intros r Hr. unfold prioritize_resources.
    apply sorted_firstn_dominates; [apply sort_desc_sorted|].
    apply (Permutation_in _ (sort_desc_perm p_priority _)).
    now apply in_map.
Qed.

(** *** Path adjustment *)

Lemma existsb_false {A : Type} (f : A -> bool) (l : list A) :
  existsb f l = false <-> forall x, In x l -> f x = false.
Proof.
  induction l as [|a l IH]; simpl.
  - split; [intros _ x [] | reflexivity].
  - rewrite orb_false_iff, IH. split.
    + intros [Ha Hl] x [<-|Hx]; auto.
    + intros H. split; [apply H; now left | intros x Hx; apply H; now right].
Qed.

Lemma too_dangerous_clear (threats : list Threat) (hazards : list Hazard)
    (w : Position) :
  too_dangerous threats hazards w = false <-> clear_of threats hazards w.
Proof.
  unfold too_dangerous, clear_of.
  rewrite orb_false_iff, !existsb_false. split.
  - intros [Ht Hh]. split.
    + intros t Hin Hd. specialize (Ht t Hin).
      destruct (Rlt_dec (euclid w (t_position t)) 5.0) as [Hl|Hl]; [|lra].
      rewrite !Rltb_true in Ht by assumption. discriminate.
    + intros h Hin Hs. specialize (Hh h Hin).
      destruct (Rlt_dec (euclid w (h_position h)) 5.0) as [Hl|Hl]; [|lra].
      rewrite !Rltb_true in Hh by assumption. discriminate.
  - intros [Ht Hh]. split.
    + intros t Hin. specialize (Ht t Hin).
      destruct (Rlt_dec 0.5 (danger_level t)) as [Hd|Hd].
      * rewrite (Rltb_false (euclid w (t_position t)) 5.0); [reflexivity|].
        specialize (Ht Hd). lra.
      * rewrite (Rltb_false 0.5 (danger_level t)) by lra.
        apply andb_false_r.
    + intros h Hin. specialize (Hh h Hin).
      destruct (Rlt_dec 0.4 (severity h)) as [Hd|Hd].
      * rewrite (Rltb_false (euclid w (h_position h)) 5.0); [reflexivity|].
        specialize (Hh Hd). lra.
      * rewrite (Rltb_false 0.4 (severity h)) by lra.
        apply andb_false_r.
Qed.

Lemma last_In {A : Type} (l : list A) (d : A) : l <> [] -> In (last l d) l.
Proof.
  induction l as [|a l IH]; intros Hne; [congruence|].
  destruct l as [|b l]; [now left|].
  right. apply IH. discriminate.
Qed.

(** X12: The adjusted path is the waypoints of the path that are clear of the
    threats above 0.5 and the hazards above 0.4, in their order; unless no
    waypoint is clear, when it is the destination alone, dangerous as it is.
    So a path that is not empty never becomes empty, and an empty one stays
    empty. *)
Theorem adjusted_path_clear_or_destination :
  forall (path : list Position) (threats : list Threat)
         (hazards : list Hazard),
    let out := adjust_pathfinding_for_threats path threats hazards in
    (path = [] <-> out = []) /\
    ((exists w, In w path /\ clear_of threats hazards w) ->
     out = filter (fun w => negb (too_dangerous threats hazards w)) path /\
     forall w, In w out <-> In w path /\ clear_of threats hazards w) /\
    ((forall w, In w path -> ~ clear_of threats hazards w) ->
     forall first rest, path = first :: rest ->
       out = [last path first] /\ ~ clear_of threats hazards (last path first)).
Proof.
  intros path threats hazards. cbv zeta.
  unfold adjust_pathfinding_for_threats.
  set (f := fun w => negb (too_dangerous threats hazards w)).
  assert (Hf : forall w, f w = true <-> clear_of threats hazards w).
  { intros w. unfold f. rewrite negb_true_iff. apply too_dangerous_clear. }
  destruct path as [|first rest].
  - split; [tauto|]. split.
    + intros (w & [] & _).
    + intros _ ? ? E. discriminate.
  - set (path := first :: rest).
    destruct (filter f path) as [|a l] eqn:E.
    + split; [split; discriminate|]. split.
      * intros (w & Hin & Hc). exfalso.
        assert (Hw : In w (filter f path))
          by (apply filter_In; split; [exact Hin | now apply Hf]).
        rewrite E in Hw. destruct Hw.
      * intros Hnone first' rest' E'. injection E' as <- <-.
        split; [reflexivity|]. apply Hnone.
        apply last_In. discriminate.
    + split; [split; discriminate|]. split.
      * intros _. split; [reflexivity|]. intros w. rewrite <- E.
        rewrite filter_In, Hf. tauto.
      * intros Hnone. exfalso.
        assert (Ha : In a (filter f path)) by (rewrite E; now left).
        apply filter_In in Ha. destruct Ha as [Hin Ha].
        apply (Hnone a Hin). now apply Hf.
Qed.

Lemma filter_idem {A : Type} (f : A -> bool) (l : list A) :
  filter f (filter f l) = filter f l.
Proof.
  apply filter_all. intros x Hx. apply filter_In in Hx. tauto.
Qed.

(** X13: Adjusting a path twice is adjusting it once; and a path is left as
    it is when every threat is at most 0.5 and every hazard at most 0.4,
    whatever their distances. *)
Theorem adjust_path_idempotent_and_neutral :
  forall (path : list Position) (threats : list Threat)
         (hazards : list Hazard),
    adjust_pathfinding_for_threats
      (adjust_pathfinding_for_threats path threats hazards) threats hazards
    = adjust_pathfinding_for_threats path threats hazards /\
    (none_above danger_level 0.5 threats -> none_above severity 0.4 hazards ->
     adjust_pathfinding_for_threats path threats hazards = path).
Proof.
  intros path threats hazards. split.
  - unfold adjust_pathfinding_for_threats.
    set (f := fun w => negb (too_dangerous threats hazards w)).
    destruct path as [|first rest]; [reflexivity|].
    set (path := first :: rest).
    destruct (filter f path) as [|a l] eqn:E.
    + cbn [filter]. destruct (f (last path first)) eqn:El; [|reflexivity].
      exfalso.
      assert (Hw : In (last path first) (filter f path)).
      { apply filter_In. split; [|exact El]. apply last_In. discriminate. }
      rewrite E in Hw. destruct Hw.
    + rewrite <- E. rewrite filter_idem. rewrite E. reflexivity.
  - intros Ht Hh. unfold adjust_pathfinding_for_threats.
    destruct path as [|first rest]; [reflexivity|].
    rewrite filter_all; [reflexivity|].
    intros w _. rewrite negb_true_iff. apply too_dangerous_clear.
    split.
    + intros t Hin Hd. specialize (Ht t Hin). lra.
    + intros h Hin Hs. specialize (Hh h Hin). lra.
Qed.

End PlanningFacts.

(** ** The actor over its life *)

Module ServiceFacts.
Import Tactical Actor TacticalFacts ActorFacts.

(** *** What is loaded and what is stored *)

Lemma preserves_ret (id : string) {A : Type} (x : A) : preserves id (ret x).
Proof. intros a Hid H. split; [exact H | exact Hid]. Qed.

Lemma preserves_raise (id : string) {A : Type} (e : exn) :
  preserves id (@raise A e).
Proof. intros a Hid H. split; [exact H | exact Hid]. Qed.

Lemma preserves_lift (id : string) {A : Type} (r : result A) :
  preserves id (lift r).
Proof. intros a Hid H. split; [exact H | exact Hid]. Qed.

Lemma preserves_get_actor (id : string) : preserves id get_actor.
Proof. intros a Hid H. split; [exact H | exact Hid]. Qed.

Lemma preserves_get_state (id : string) : preserves id get_state.
Proof.
  intros a Hid H. unfold get_state.
  destruct (state_data a); (split; [exact H | exact Hid]).
Qed.

Lemma preserves_utcnow (id : string) : preserves id utcnow.
Proof. intros a Hid H. split; [exact H | exact Hid]. Qed.

Lemma preserves_set_self_agent_id (id id' : string) :
  preserves id (set_self_agent_id id').
Proof. intros a Hid H. split; [exact H | exact Hid]. Qed.

Lemma preserves_request_json (id : string) (request : Request) :
  preserves id (request_json request).
Proof.
  unfold request_json. destruct (req_body request);
    [apply preserves_ret | apply preserves_raise].
Qed.

Lemma preserves_bind (id : string) {A B : Type} (m : M A) (k : A -> M B) :
  preserves id m -> (forall x, preserves id (k x)) -> preserves id (bind m k).
Proof.
  intros Hm Hk a Hid Ha. unfold bind. destruct (Hm a Hid Ha) as [H1 H2].
  destruct (m a) as [[e|x] a']; simpl in *; [split; [exact H1 | exact H2]|].
  exact (Hk x a' H2 H1).
Qed.

Lemma preserves_try_except (id : string) {A : Type} (m : M A)
    (handler : exn -> M A) :
  preserves id m -> (forall e, preserves id (handler e)) ->
  preserves id (try_except m handler).
Proof.
  intros Hm Hh a Hid Ha. unfold try_except. destruct (Hm a Hid Ha) as [H1 H2].
  destruct (m a) as [[e|x] a']; simpl in *; [|split; [exact H1 | exact H2]].
  exact (Hh e a' H2 H1).
Qed.

Lemma preserves_put_state (id : string) (st : AgentState) :
  state_sound id st -> preserves id (put_state st).
Proof.
  intros Hst a Hid [Hm Hs]. split; [|exact Hid]. split.
  - intros st' E. simpl in E. injection E as <-. simpl. now rewrite Hid.
  - exact Hs.
Qed.

Lemma preserves_with_state (id : string) {B : Type} (k : AgentState -> M B) :
  (forall st, state_sound id st -> preserves id (k st)) ->
  preserves id (bind get_state k).
Proof.
  intros Hk a Hid Ha. unfold bind, get_state.
  destruct (state_data a) as [st|] eqn:E; simpl; [|split; [exact Ha | exact Hid]].
  apply Hk; [|exact Hid|exact Ha]. rewrite <- Hid. apply (proj1 Ha), E.
Qed.

Lemma preserves_modify_state (id : string) (f : AgentState -> AgentState) :
  (forall st, state_sound id st -> state_sound id (f st)) ->
  preserves id (modify_state f).
Proof.
  intros Hf. unfold modify_state. apply preserves_with_state.
  intros st Hst. apply preserves_put_state, Hf, Hst.
Qed.

Lemma preserves_update_if_present (id : string) {A B : Type}
    (field : option A) (decode : A -> result B)
    (set : B -> AgentState -> AgentState) :
  (forall x st, state_sound id st -> state_sound id (set x st)) ->
  preserves id (update_if_present field decode set).
Proof.
  intros Hset. unfold update_if_present.
  destruct field; [|apply preserves_ret].
  apply preserves_bind; [apply preserves_lift|].
  intros x. apply preserves_modify_state, Hset.
Qed.

(** An object of the engine has no [to_dict]: a list of them is written
    only when it is empty. *)
Lemma engine_made_to_dict {A : Type} (f : pyclass * A -> result json)
    (l : list (pyclass * A)) (ds : list json) :
  (forall o, fst o = TacticalClass -> f o = inl (AttributeError "to_dict")) ->
  engine_made l -> map_result f l = inr ds -> l = [].
Proof.
  intros Hf Hl. destruct l as [|o l]; [reflexivity|].
  inversion Hl as [|? ? Ho _]; subst. simpl. now rewrite (Hf o Ho).
Qed.

Lemma Threat_to_dict_engine (o : pyclass * Threat) :
  fst o = TacticalClass -> Threat_to_dict o = inl (AttributeError "to_dict").
Proof. intros H. unfold Threat_to_dict. now rewrite H. Qed.

Lemma Hazard_to_dict_engine (o : pyclass * Hazard) :
  fst o = TacticalClass -> Hazard_to_dict o = inl (AttributeError "to_dict").
Proof. intros H. unfold Hazard_to_dict. now rewrite H. Qed.

(** What a state without threats and hazards is stored as reads back as the
    state, with the last 100 of its telemetry events. *)
Lemma deserialize_serialized_calm (st : AgentState) :
  calm st ->
  exists data,
    _serialize_state st = inr data /\ truthy data = true /\
    _deserialize_state data
    = inr (set_telemetry_events (last_n 100 (telemetry_events st)) st).
Proof.
  intros [Ht Hh]. unfold _serialize_state. rewrite Ht, Hh. simpl.
  eexists; split; [reflexivity|]. split; [reflexivity|].
  unfold _deserialize_state. simpl.
  rewrite status_value_roundtrip. simpl.
  destruct st; simpl in *; subst.
  destruct position0, current_task0; reflexivity.
Qed.

Lemma serialize_sound (id : string) (st : AgentState) (data : json) :
  state_sound id st -> _serialize_state st = inr data -> stored_sound id data.
Proof.
  intros (Hid & Ht & Hh) Hd.
  assert (Hcalm : calm st).
  { unfold _serialize_state in Hd.
    destruct (map_result Threat_to_dict _) as [|ts] eqn:Et; [discriminate|].
    destruct (map_result Hazard_to_dict _) as [|hs] eqn:Eh; [discriminate|].
    split.
    - exact (engine_made_to_dict _ _ _ Threat_to_dict_engine Ht Et).
    - exact (engine_made_to_dict _ _ _ Hazard_to_dict_engine Hh Eh). }
  destruct (deserialize_serialized_calm st Hcalm) as (data' & Hd' & Htr & Hde).
  rewrite Hd in Hd'. injection Hd' as <-.
  split; [exact Htr|].
  eexists. split; [exact Hde|]. destruct Hcalm. now destruct st.
Qed.

Lemma preserves_storage_put (id : string) (st : AgentState) (data : json) :
  state_sound id st -> _serialize_state st = inr data ->
  preserves id (storage_put data).
Proof.
  intros Hst Hd a Hid [Hm Hs]. split; [|exact Hid]. split; [exact Hm|].
  intros data' E. simpl in E. injection E as <-. simpl. rewrite Hid.
  exact (serialize_sound id st data Hst Hd).
Qed.

Ltac sound_set :=
  let st := fresh "st" in
  intros st; intros; destruct st; unfold state_sound in *; simpl in *;
  assumption.

Lemma preserves_get_actor_bind (id : string) {B : Type}
    (k : ActorObj -> M B) :
  (forall a, durable_id a = id -> sound a ->
     sound (snd (k a a)) /\ durable_id (snd (k a a)) = id) ->
  preserves id (bind get_actor k).
Proof. intros H a Hid Ha. exact (H a Hid Ha). Qed.

Lemma preserves_lift_bind (id : string) {A B : Type} (r : result A)
    (k : A -> M B) :
  (forall x, r = inr x -> preserves id (k x)) ->
  preserves id (bind (lift r) k).
Proof.
  intros H a Hid Ha. unfold bind, lift.
  destruct r as [e|x]; [split; [exact Ha | exact Hid]|].
  exact (H x eq_refl a Hid Ha).
Qed.

(** The goal on the actor [a] follows from the computation preserving
    soundness. *)
Ltac as_preserves a Hid Ha :=
  match goal with
  | |- sound (snd (?m a)) /\ durable_id _ = ?id =>
      let H := fresh in
      cut (preserves id m); [intros H; exact (H a Hid Ha)|]
  end.

Lemma preserves_save_state (id : string) : preserves id _save_state.
Proof.
  unfold _save_state. apply preserves_get_actor_bind. intros a Hid Ha.
  destruct (state_data a) as [st|] eqn:Es; [|split; [exact Ha | exact Hid]].
  assert (Hst : state_sound id st) by (rewrite <- Hid; apply (proj1 Ha), Es).
  as_preserves a Hid Ha.
  apply preserves_lift_bind. intros data Ed.
  apply preserves_bind; [apply (preserves_storage_put id st data Hst Ed)|].
  intros _. apply preserves_bind; [apply preserves_utcnow|]. intros now.
  apply preserves_modify_state. sound_set.
Qed.

Lemma preserves_initialize_state (id : string) : preserves id initialize_state.
Proof.
  unfold initialize_state. apply preserves_get_actor_bind. intros a Hid Ha.
  as_preserves a Hid Ha.
  apply preserves_bind; [apply preserves_set_self_agent_id|]. intros _.
  apply preserves_bind; [apply preserves_utcnow|]. intros now.
  apply preserves_bind; [|intros _; apply preserves_save_state].
  apply preserves_put_state. split; [exact Hid|].
  split; constructor.
Qed.

Lemma preserves_ensure_loaded (id : string) : preserves id _ensure_loaded.
Proof.
  unfold _ensure_loaded. apply preserves_get_actor_bind. intros a Hid Ha.
  destruct (state_data a) as [st|] eqn:Es; [split; [exact Ha | exact Hid]|].
  destruct (storage a) as [data|] eqn:Ed;
    [|apply preserves_initialize_state; assumption].
  destruct (truthy data);
    [|apply preserves_initialize_state; assumption].
  as_preserves a Hid Ha.
  apply preserves_lift_bind. intros st E.
  apply preserves_put_state.
  destruct (proj2 Ha data Ed) as (_ & st' & E' & Hi & Ht & Hh).
  rewrite E in E'. injection E' as <-.
  split; [now rewrite <- Hid|]. unfold engine_made. rewrite Ht, Hh.
  split; constructor.
Qed.

Lemma preserves_log_telemetry (id : string) (event_type : string)
    (data : json) :
  preserves id (_log_telemetry event_type data).
Proof.
  unfold _log_telemetry.
  apply preserves_bind; [apply preserves_ensure_loaded|]. intros _.
  apply preserves_bind; [apply preserves_utcnow|]. intros now.
  apply preserves_bind; [apply preserves_modify_state; sound_set|]. intros _.
  apply preserves_with_state. intros st Hst.
  apply preserves_bind; [|intros _; apply preserves_save_state].
  destruct (_ <? _)%nat; [|apply preserves_ret].
  apply preserves_put_state. revert Hst. revert st. sound_set.
Qed.

Lemma preserves_handle_sync (id : string) (request : Request) :
  preserves id (_handle_sync request).
Proof.
  unfold _handle_sync.
  apply preserves_bind; [apply preserves_ensure_loaded|]. intros _.
  destruct (String.eqb (method request) "GET").
  { apply preserves_bind; [apply preserves_get_state|]. intros st.
    apply preserves_bind; [apply preserves_lift|]. intros d.
    apply preserves_ret. }
  destruct (String.eqb (method request) "POST"); [|apply preserves_ret].
  apply preserves_bind; [apply preserves_request_json|]. intros body.
  repeat (apply preserves_bind;
          [apply preserves_update_if_present; intros ?; sound_set
          | intros _]).
  apply preserves_bind.
  { destruct (b_mission body); [|apply preserves_ret].
    apply preserves_modify_state. sound_set. }
  intros _. apply preserves_bind; [apply preserves_save_state|]. intros _.
  apply preserves_bind; [apply preserves_get_state|]. intros st.
  apply preserves_bind; [apply preserves_utcnow|]. intros now.
  apply preserves_ret.
Qed.

Lemma preserves_handle_mission (id : string) (request : Request) :
  preserves id (_handle_mission request).
Proof.
  unfold _handle_mission.
  apply preserves_bind; [apply preserves_ensure_loaded|]. intros _.
  destruct (String.eqb (method request) "GET").
  { apply preserves_bind; [apply preserves_get_state|]. intros st.
    apply preserves_ret. }
  destruct (String.eqb (method request) "POST").
  { apply preserves_bind; [apply preserves_request_json|]. intros body.
    destruct (negb _); [apply preserves_ret|].
    apply preserves_bind; [apply preserves_modify_state; sound_set|].
    intros _.
    apply preserves_bind; [apply preserves_save_state|]. intros _.
    apply preserves_bind; [apply preserves_get_state|]. intros st.
    apply preserves_ret. }
  destruct (String.eqb (method request) "DELETE"); [|apply preserves_ret].
  apply preserves_with_state. intros st Hst.
  destruct (mission_queue st) as [|completed rest]; [apply preserves_ret|].
  apply preserves_bind.
  { apply preserves_put_state. revert Hst. revert st. sound_set. }
  intros _.
  apply preserves_bind; [apply preserves_save_state|]. intros _.
  apply preserves_ret.
Qed.

Lemma engine_made_pair {A : Type} (l : list A) :
  engine_made (map (pair TacticalClass) l).
Proof.
  unfold engine_made. rewrite Forall_forall. intros o Ho.
  apply in_map_iff in Ho. destruct Ho as (x & <- & _). reflexivity.
Qed.

Lemma preserves_erase_bind (id : string) {A B : Type} (m : Traced A)
    (k : A -> Traced B) :
  preserves id (erase m) -> (forall x, preserves id (erase (k x))) ->
  preserves id (erase (bindT m k)).
Proof.
  intros Hm Hk a Hid Ha. rewrite erase_bindT.
  exact (preserves_bind id _ _ Hm Hk a Hid Ha).
Qed.

Lemma preserves_quiet (id : string) {A : Type} (m : M A) :
  preserves id m -> preserves id (erase (quiet m)).
Proof. intros H a Hid Ha. exact (H a Hid Ha). Qed.

Lemma preserves_engine_call (id : string) {A : Type} (c : EngineCall)
    (r : result A) :
  preserves id (erase (engine_call c r)).
Proof. intros a Hid Ha. split; [exact Ha | exact Hid]. Qed.

Lemma preserves_retT (id : string) {A : Type} (x : A) :
  preserves id (erase (retT x)).
Proof. intros a Hid Ha. split; [exact Ha | exact Hid]. Qed.

Lemma preserves_handle_tactical (id : string) (request : Request) :
  preserves id (_handle_tactical request).
Proof.
  unfold _handle_tactical, _handle_tactical_calls.
  apply preserves_erase_bind;
    [apply preserves_quiet, preserves_ensure_loaded|]. intros _.
  destruct (negb _); [apply preserves_retT|].
  apply preserves_erase_bind;
    [apply preserves_quiet, preserves_request_json|]. intros body.
  apply preserves_erase_bind;
    [apply preserves_quiet, preserves_update_if_present; intros ?; sound_set|].
  intros _.
  apply preserves_erase_bind; [apply preserves_quiet, preserves_get_state|].
  intros st. cbv zeta.
  apply preserves_erase_bind; [apply preserves_engine_call|]. intros threats.
  apply preserves_erase_bind; [apply preserves_engine_call|]. intros hazards.
  apply preserves_erase_bind.
  { apply preserves_quiet, preserves_modify_state. intros st0 (Hi & _ & _).
    split; [now destruct st0|].
    split; [apply (engine_made_pair threats)
           | apply (engine_made_pair hazards)]. }
  intros _.
  apply preserves_erase_bind; [apply preserves_quiet, preserves_get_state|].
  intros st'.
  apply preserves_erase_bind; [apply preserves_engine_call|]. intros decision.
  apply preserves_quiet.
  apply preserves_bind; [apply preserves_lift|]. intros dd.
  apply preserves_bind; [apply preserves_log_telemetry|]. intros _.
  apply preserves_bind; [apply preserves_save_state|]. intros _.
  repeat (apply preserves_bind; [apply preserves_lift|]; intros ?).
  apply preserves_bind; [apply preserves_utcnow|]. intros now.
  apply preserves_ret.
Qed.

Lemma preserves_handle_telemetry (id : string) (request : Request) :
  preserves id (_handle_telemetry request).
Proof.
  unfold _handle_telemetry.
  apply preserves_bind; [apply preserves_ensure_loaded|]. intros _.
  destruct (negb _); [apply preserves_ret|].
  apply preserves_bind; [apply preserves_request_json|]. intros body.
  apply preserves_bind; [apply preserves_log_telemetry|]. intros _.
  apply preserves_ret.
Qed.

Lemma preserves_handle_health (id : string) : preserves id _handle_health.
Proof.
  unfold _handle_health.
  apply preserves_bind; [apply preserves_get_actor|]. intros a.
  apply preserves_bind; [apply preserves_utcnow|]. intros now.
  apply preserves_ret.
Qed.

Lemma preserves_fetch (id : string) (request : Request) :
  preserves id (fetch request).
Proof.
  unfold fetch. apply preserves_try_except.
  - unfold route.
    repeat match goal with
           | |- preserves _ (if ?c then _ else _) => destruct c
           end;
      auto using preserves_handle_sync, preserves_handle_mission,
        preserves_handle_tactical, preserves_handle_telemetry,
        preserves_handle_health, preserves_ret.
  - intros e. unfold internal_error, _log_error.
    apply preserves_bind; [apply preserves_log_telemetry|]. intros _.
    apply preserves_ret.
Qed.

Lemma reachable_sound (a : ActorObj) : reachable a -> sound a.
Proof.
  induction 1 as [id now | a request _ IH | a _ IH | a ty data _ IH
                 | a _ IH | a now _ IH].
  - split; intros ? **; discriminate.
  - exact (proj1 (preserves_fetch (durable_id a) request a eq_refl IH)).
  - exact (proj1 (preserves_save_state (durable_id a) a eq_refl IH)).
  - exact (proj1 (preserves_log_telemetry (durable_id a) ty data a eq_refl IH)).
  - split; [intros st E; discriminate | exact (proj2 IH)].
  - exact IH.
Qed.

(** X14: The id never changes.  Whatever requests, saves, logged events and
    restarts an actor went through, the agent id of its loaded state is the
    id of the durable object, and so is the "agentId" it has stored. *)
Theorem agent_id_is_the_durable_id :
  forall a : ActorObj,
    reachable a ->
    (forall st, state_data a = Some st -> agent_id st = durable_id a) /\
    (forall d, storage a = Some (JDict d) ->
       dict_get "agentId" d = Some (JStr (durable_id a))).
Proof.
  intros a Hr. destruct (reachable_sound a Hr) as [Hm Hs]. split.
  - intros st E. exact (proj1 (Hm st E)).
  - intros d E. destruct (Hs _ E) as (_ & st & Hd & Hid & _).
    unfold _deserialize_state in Hd. simpl in Hd.
    unfold subscript in Hd at 1.
    destruct (dict_get "agentId" d) as [v|]; [|discriminate].
    simpl in Hd. destruct v; try discriminate. simpl in Hd.
    rbind_ok Hd. injection Hd as <-. simpl in Hid. now subst.
Qed.

Lemma agent_id_witness :
  reachable (snd (fetch telemetry_request (new_actor "steve-1" 0%Z))) /\
  match state_data (snd (fetch telemetry_request (new_actor "steve-1" 0%Z)))
  with
  | Some st => agent_id st = "steve-1"
  | None => True
  end.
Proof.
  assert (Hr : reachable
                 (snd (fetch telemetry_request (new_actor "steve-1" 0%Z))))
    by apply reach_fetch, reach_new.
  split; [exact Hr|].
  destruct (state_data _) as [st|] eqn:E; [|exact I].
  exact (proj1 (agent_id_is_the_durable_id _ Hr) st E).
Defined.

(** X15: What is stored always loads. Whatever an actor went through, when
    the object is built again its state loads without an exception, with the
    actor's id and without threats and hazards: these are never stored. *)
Theorem restart_loads_the_stored_state :
  forall a : ActorObj,
    reachable a ->
    exists st,
      fst (_ensure_loaded (restarted a)) = inr tt /\
      state_data (snd (_ensure_loaded (restarted a))) = Some st /\
      agent_id st = durable_id a /\ calm st.
Proof.
  intros a Hr. destruct (reachable_sound a Hr) as [_ Hs].
  unfold _ensure_loaded, bind, get_actor, restarted. simpl.
  destruct (storage a) as [data|] eqn:Ed.
  - destruct (Hs data eq_refl) as (Htr & st & Hd & Hid & Hcalm).
    rewrite Htr. unfold lift. rewrite Hd. simpl.
    exists st. repeat split; tauto.
  - unfold initialize_state, bind, get_actor, set_self_agent_id, utcnow,
      put_state, _save_state, bind, get_actor, lift. simpl.
    eexists. split; [reflexivity|]. split; [reflexivity|].
    repeat split.
Qed.

Lemma restart_witness :
  reachable (restarted (snd (fetch warden_request idle_restart))) /\
  fst (_ensure_loaded
         (restarted (restarted (snd (fetch warden_request idle_restart)))))
  = inr tt.
Proof.
  assert (Hr : reachable (restarted (snd (fetch warden_request idle_restart)))).
  { apply reach_restart, reach_fetch. unfold idle_restart. apply reach_new. }
  split; [exact Hr|].
  destruct (restart_loads_the_stored_state _ Hr) as (st & E & _).
  exact E.
Defined.

(** *** The routes *)

Lemma substring_all (s : string) : substring 0 (String.length s) s = s.
Proof. induction s as [|c s IH]; simpl; [reflexivity | now rewrite IH]. Qed.

Lemma last_char_String (c : Ascii.ascii) (s : string) :
  s <> EmptyString -> last_char (String c s) = last_char s.
Proof. destruct s; [congruence | reflexivity]. Qed.

Lemma last_char_substring (s : string) (m k : nat) :
  (m + k = String.length s)%nat -> k <> 0%nat ->
  last_char (substring m k s) = last_char s.
Proof.
  revert m. induction s as [|c s IH]; intros m Hlen Hk; simpl in Hlen.
  - lia.
  - destruct m as [|m].
    + simpl in Hlen. subst k. simpl. now rewrite substring_all.
    + simpl. rewrite IH by lia.
      symmetry. apply last_char_String. intros ->. simpl in Hlen. lia.
Qed.

Lemma endswith_last_char (s suffix : string) :
  endswith s suffix = true -> suffix <> EmptyString ->
  last_char s = last_char suffix.
Proof.
  unfold endswith. intros H Hne. apply andb_true_iff in H.
  destruct H as [Hle Heq]. apply Nat.leb_le in Hle.
  apply String.eqb_eq in Heq.
  transitivity (last_char (substring (String.length s - String.length suffix)
                             (String.length suffix) s));
    [|now rewrite Heq].
  symmetry. apply last_char_substring; [lia|].
  destruct suffix; [congruence | simpl; lia].
Qed.

(** The suffixes of the five routes end in five different characters: a
    path has at most one of them, so the order of the tests in [fetch]
    decides nothing. *)
Lemma endswith_exclusive (s suf1 suf2 : string) :
  endswith s suf1 = true -> suf1 <> EmptyString -> suf2 <> EmptyString ->
  last_char suf1 <> last_char suf2 -> endswith s suf2 = false.
Proof.
  intros H1 Hn1 Hn2 Hdiff. destruct (endswith s suf2) eqn:H2; [|reflexivity].
  apply endswith_last_char in H1; [|exact Hn1].
  apply endswith_last_char in H2; [|exact Hn2]. congruence.
Qed.

Ltac other_route H :=
  rewrite (endswith_exclusive _ _ _ H) by discriminate.

Lemma route_tactical (request : Request) :
  endswith (path request) "/tactical" = true ->
  route request = _handle_tactical request.
Proof.
  intros H. unfold route. do 2 other_route H. now rewrite H.
Qed.

Lemma route_sync (request : Request) :
  endswith (path request) "/sync" = true ->
  route request = _handle_sync request.
Proof. intros H. unfold route. now rewrite H. Qed.

Lemma route_mission (request : Request) :
  endswith (path request) "/mission" = true ->
  route request = _handle_mission request.
Proof. intros H. unfold route. other_route H. now rewrite H. Qed.

Lemma bindT_raises {A B : Type} (m : Traced A) (k : A -> Traced B)
    (a : ActorObj) :
  (forall x a', exists e, fst (erase (k x) a') = inl e) ->
  exists e, fst (erase (bindT m k) a) = inl e.
Proof.
  intros H. rewrite erase_bindT. unfold bind.
  destruct (erase m a) as [[e|x] a']; [simpl; eauto|].
  apply H.
Qed.

(** X16: A POST to /tactical is never answered with a decision.  The handler
    raises on every actor and every body, at the latest where it calls
    [to_dict] on the decision; [fetch] then answers with status 500, or the
    logging of the error raises as well. *)
Theorem tactical_post_never_answered :
  forall (request : Request) (a : ActorObj),
    endswith (path request) "/tactical" = true ->
    method request = "POST" ->
    (exists e, fst (_handle_tactical request a) = inl e) /\
    (forall r, fst (fetch request a) = inr r -> resp_status r = 500%Z).
Proof.
  intros request a Hpath Hmeth.
  assert (Hraise : forall a0, exists e,
            fst (_handle_tactical request a0) = inl e).
  { intros a0. unfold _handle_tactical, _handle_tactical_calls.
    apply bindT_raises. intros _ a1.
    rewrite Hmeth.
    change (negb ("POST" =? "POST")%string) with false. cbv iota.
    apply bindT_raises. intros body a2.
    apply bindT_raises. intros _ a3.
    apply bindT_raises. intros st a4. cbv zeta.
    apply bindT_raises. intros threats a5.
    apply bindT_raises. intros hazards a6.
    apply bindT_raises. intros _ a7.
    apply bindT_raises. intros st' a8.
    apply bindT_raises. intros decision a9.
    unfold erase, quiet, bind, lift, tactical_decision_to_dict. simpl.
    eauto. }
  split; [apply Hraise|].
  intros r. unfold fetch, try_except. rewrite (route_tactical request Hpath).
  destruct (Hraise a) as [e He].
  destruct (_handle_tactical request a) as [[e0|r0] a'];
    [|discriminate].
  unfold internal_error, bind.
  destruct (_log_error "fetch" (exn_message e0) a') as [[e1|u] a''];
    simpl; [discriminate|].
  intros E. injection E as <-. reflexivity.
Qed.

Lemma tactical_post_witness :
  exists e, fst (_handle_tactical warden_request idle_actor) = inl e.
Proof.
  exact (proj1 (tactical_post_never_answered warden_request idle_actor
                  eq_refl eq_refl)).
Defined.

(** *** The mission queue *)

Lemma calm_serializes (st : AgentState) :
  calm st -> exists data, _serialize_state st = inr data.
Proof. intros [Ht Hh]. now apply serialize_without_threats. Qed.

Lemma fetch_post_calm (a : ActorObj) (st : AgentState) (m : json) :
  state_data a = Some st -> calm st -> truthy m = true ->
  exists st',
    state_data (snd (fetch (post_mission m) a)) = Some st' /\ calm st' /\
    mission_queue st' = mission_queue st ++ [m].
Proof.
  intros Hs Hcalm Hm. unfold fetch, try_except.
  rewrite (route_mission (post_mission m) eq_refl).
  rewrite (handle_mission_post a st m Hs Hm). cbv zeta.
  destruct (calm_serializes (set_mission_queue (mission_queue st ++ [m]) st))
    as [data Hd]; [destruct Hcalm; split; assumption|].
  rewrite Hd. simpl. eexists. split; [reflexivity|].
  destruct Hcalm. split; [split; assumption | reflexivity].
Qed.

Lemma fetch_delete_calm (a : ActorObj) (st : AgentState) (m : json)
    (rest : list json) :
  state_data a = Some st -> calm st -> mission_queue st = m :: rest ->
  exists a' st',
    fetch delete_request a = (completed_response m, a') /\
    state_data a' = Some st' /\ calm st' /\ mission_queue st' = rest.
Proof.
  intros Hs Hcalm Hq. unfold fetch, try_except.
  rewrite (route_mission delete_request eq_refl).
  rewrite (handle_mission_delete a st m rest Hs Hq). cbv zeta.
  destruct (calm_serializes (set_mission_queue rest st))
    as [data Hd]; [destruct Hcalm; split; assumption|].
  rewrite Hd. do 2 eexists. split; [reflexivity|].
  split; [reflexivity|].
  destruct Hcalm. split; [split; assumption | reflexivity].
Qed.

Lemma post_all_calm (ms : list json) (a : ActorObj) (st : AgentState) :
  state_data a = Some st -> calm st ->
  Forall (fun m => truthy m = true) ms ->
  exists st',
    state_data (post_all ms a) = Some st' /\ calm st' /\
    mission_queue st' = mission_queue st ++ ms.
Proof.
  revert a st. induction ms as [|m ms IH]; intros a st Hs Hcalm Hms.
  - exists st. rewrite app_nil_r. auto.
  - inversion Hms as [|? ? Hm Hms']; subst.
    destruct (fetch_post_calm a st m Hs Hcalm Hm) as (st1 & Hs1 & Hc1 & Hq1).
    destruct (IH _ st1 Hs1 Hc1 Hms') as (st' & Hs' & Hc' & Hq').
    exists st'. simpl. split; [exact Hs'|]. split; [exact Hc'|].
    rewrite Hq', Hq1, <- app_assoc. reflexivity.
Qed.

Lemma complete_n_calm (q rest : list json) (a : ActorObj) (st : AgentState) :
  state_data a = Some st -> calm st -> mission_queue st = q ++ rest ->
  exists a' st',
    complete_n (List.length q) a = (map completed_response q, a') /\
    state_data a' = Some st' /\ calm st' /\ mission_queue st' = rest.
Proof.
  revert a st. induction q as [|m q IH]; intros a st Hs Hcalm Hq.
  - exists a, st. auto.
  - destruct (fetch_delete_calm a st m (q ++ rest) Hs Hcalm Hq)
      as (a1 & st1 & Hf & Hs1 & Hc1 & Hq1).
    destruct (IH a1 st1 Hs1 Hc1 Hq1) as (a' & st' & Hn & Hs' & Hc' & Hq').
    exists a', st'. simpl. rewrite Hf, Hn. auto.
Qed.

(** X17: The queue is first in, first out.  On a loaded actor without threats
    and hazards, once the missions [ms] are posted, as many DELETE requests
    as there are missions queued complete them in the order they were
    queued, those queued before first; the queue is then empty and one more
    DELETE is answered with status 404. *)
Theorem mission_queue_first_in_first_out :
  forall (a : ActorObj) (st : AgentState) (ms : list json),
    state_data a = Some st -> calm st ->
    Forall (fun m => truthy m = true) ms ->
    exists a' st',
      complete_n (List.length (mission_queue st ++ ms)) (post_all ms a)
      = (map completed_response (mission_queue st ++ ms), a') /\
      state_data a' = Some st' /\ mission_queue st' = [] /\
      fst (fetch delete_request a')
      = inr (mkResponse (JDict [ ("error", JStr "No missions to complete") ])
                        404).
Proof.
  intros a st ms Hs Hcalm Hms.
  destruct (post_all_calm ms a st Hs Hcalm Hms) as (st1 & Hs1 & Hc1 & Hq1).
  destruct (complete_n_calm (mission_queue st ++ ms) [] (post_all ms a) st1
              Hs1 Hc1) as (a' & st' & Hn & Hs' & Hc' & Hq').
  { now rewrite app_nil_r. }
  exists a', st'. split; [exact Hn|]. split; [exact Hs'|].
  split; [exact Hq'|].
  unfold fetch, try_except.
  rewrite (route_mission delete_request eq_refl).
  now rewrite (handle_mission_delete_empty a' st' Hs' Hq').
Qed.

Lemma mission_queue_witness :
  fst (complete_n 2 (post_all [JStr "A"; JStr "B"] idle_actor))
  = [completed_response (JStr "A"); completed_response (JStr "B")].
Proof.
  destruct (mission_queue_first_in_first_out idle_actor _
              [JStr "A"; JStr "B"] eq_refl (conj eq_refl eq_refl)
              (Forall_cons (JStr "A") (eq_refl true)
                 (Forall_cons (JStr "B") (eq_refl true) (Forall_nil _))))
    as (a' & st' & E & _).
  exact (f_equal fst E).
Defined.

(** *** Updates that fail half way *)

(** X18: A sync that is refused is half applied.  On a loaded actor, when a
    POST to /sync carries a position and a status that is none of the six,
    the status, health and hunger of the state stay as they were, whatever
    the body says, but the position of the body is already in the loaded
    state, whether [fetch] then answers or raises.  When the state has no
    threats and hazards, [fetch] answers with status 500, and the position
    is stored as well: the error is logged, and logging saves. *)
Theorem refused_sync_keeps_the_position :
  forall (a : ActorObj) (st : AgentState) (request : Request) (body : Body)
         (d : list (string * json)) (p : Position) (s : string) (e : exn),
    state_data a = Some st ->
    endswith (path request) "/sync" = true -> method request = "POST" ->
    req_body request = Some body ->
    b_position body = Some d -> Position_from_dict d = inr p ->
    b_status body = Some s -> AgentStatus_of_value s = inl e ->
    (exists st',
       state_data (snd (fetch request a)) = Some st' /\ position st' = p /\
       status st' = status st /\ health st' = health st /\
       hunger st' = hunger st) /\
    (calm st ->
     exists r data stored,
       fst (fetch request a) = inr r /\ resp_status r = 500%Z /\
       storage (snd (fetch request a)) = Some data /\
       _deserialize_state data = inr stored /\ position stored = p).
Proof.
  intros a st request body d p s e Hs Hpath Hmeth Hb Hpos Hp Hst He.
  unfold fetch, try_except. rewrite (route_sync request Hpath).
  assert (Hh : _handle_sync request a
               = (inl e, with_state a (set_position p st))).
  { unfold _handle_sync, bind.
    rewrite (ensure_loaded_loaded a st Hs), Hmeth. simpl.
    unfold request_json. rewrite Hb. simpl.
    rewrite Hpos, Hst. unfold update_if_present, bind, lift.
    rewrite Hp, He. unfold modify_state, bind, get_state. rewrite Hs.
    reflexivity. }
  rewrite Hh.
  rewrite (internal_error_loaded (with_state a (set_position p st))
             (set_position p st) e eq_refl).
  cbv zeta.
  set (st1 := set_telemetry_events _ (set_position p st)).
  split.
  - destruct (_serialize_state st1);
      (eexists; split; [reflexivity|]; repeat split).
  - intros Hcalm.
    assert (Hc1 : calm st1) by (destruct Hcalm; split; assumption).
    destruct (deserialize_serialized_calm st1 Hc1) as (data & Hd & _ & Hde).
    rewrite Hd. do 3 eexists.
    split; [reflexivity|]. split; [reflexivity|].
    split; [reflexivity|]. split; [exact Hde | reflexivity].
Qed.

Lemma refused_sync_witness :
  exists st',
    state_data (snd (fetch sync_moved idle_actor)) = Some st' /\
    position st' = mkPosition 7 64 7 /\ health st' = 20%Z.
Proof.
  destruct (proj1 (refused_sync_keeps_the_position idle_actor _ sync_moved _
                     _ (mkPosition 7 64 7) "dancing" (ValueError "dancing")
                     eq_refl eq_refl eq_refl eq_refl eq_refl eq_refl eq_refl
                     eq_refl))
    as (st' & Hs & Hp & _ & Hh & _).
  exists st'. split; [exact Hs|]. split; [exact Hp | exact Hh].
Defined.

(** *** Saving and loading *)

(** X19: A saved state survives a restart, but for the time of the save.  On a
    loaded actor whose state has no threats and hazards and at most 100
    telemetry events, [_save_state] stores the state and then stamps
    [last_active]; when the object is built again, what loads is the state
    as it was before the stamp. *)
Theorem saved_state_survives_restart :
  forall (a : ActorObj) (st : AgentState),
    state_data a = Some st -> calm st ->
    (List.length (telemetry_events st) <= 100)%nat ->
    exists a1 a2,
      _save_state a = (inr tt, a1) /\
      state_data a1 = Some (set_last_active (clock a) st) /\
      _ensure_loaded (restarted a1) = (inr tt, a2) /\
      state_data a2 = Some st.
Proof.
  intros a st Hs [Ht Hh] Hlen.
  destruct (roundtrip_without_threats st Ht Hh Hlen) as (data & Hd & Hde).
  rewrite (save_state_loaded a st Hs), Hd.
  do 2 eexists. split; [reflexivity|]. split; [reflexivity|].
  unfold _ensure_loaded, bind, get_actor, restarted, saved. simpl.
  assert (Htr : truthy data = true).
  { destruct (serialize_is_dict st data Hd) as (dd & ->).
    unfold _serialize_state in Hd. rewrite Ht, Hh in Hd. simpl in Hd.
    injection Hd as <-. reflexivity. }
  rewrite Htr. unfold lift. rewrite Hde. simpl.
  split; reflexivity.
Qed.

Lemma saved_state_witness :
  exists a1 a2,
    _save_state idle_actor = (inr tt, a1) /\
    _ensure_loaded (restarted a1) = (inr tt, a2) /\
    state_data a2 = state_data idle_actor.
Proof.
  destruct (saved_state_survives_restart idle_actor _ eq_refl
              (conj eq_refl eq_refl) (Nat.le_0_l 100))
    as (a1 & a2 & E1 & _ & E2 & E3).
  exists a1, a2. split; [exact E1|]. split; [exact E2 | exact E3].
Defined.


(** *** Requests that are always answered *)

























End ServiceFacts.

(** ** The telemetry logger and the periodic sync *)

Module SyncFlowFacts.
Import Sync.

Lemma last_n_snoc {A : Type} (n : nat) (l : list A) (x : A) :
  last_n (S n) (l ++ [x]) = last_n n l ++ [x].
Proof.
  unfold last_n. rewrite length_app. simpl.
  replace (List.length l + 1 - S n)%nat with (List.length l - n)%nat by lia.
  rewrite skipn_app.
  replace (List.length l - n - List.length l)%nat with 0%nat by lia.
  reflexivity.
Qed.

Lemma log_buffer (tl : TelemetryLogger) (now : datetime) (ty : string)
    (data : json) :
  (0 < buffer_size tl)%Z ->
  buffer (snd (log tl now ty data))
  = last_n (Z.to_nat (buffer_size tl))
      (buffer tl ++ [mkTelemetryEvent ty now (tl_agent_id tl) data]).
Proof.
  intros Hsize. unfold log. cbn [snd set_buffer buffer].
  set (appended := buffer tl ++ _).
  destruct (Z.ltb_spec (buffer_size tl) (Z.of_nat (List.length appended)))
    as [Hlt|Hge].
  - unfold slice_last. now rewrite (proj2 (Z.ltb_lt 0 (buffer_size tl)) Hsize).
  - symmetry. apply last_n_short. lia.
Qed.

(** X21: A logger of a positive size keeps the newest events. [log] returns
    the event it made, with the reading of the clock and the logger's agent
    id, and the buffer afterwards is the last [buffer_size] events of the
    old buffer with the new event at its end: events are dropped from the
    front only, and only as many as exceed the size. *)
Theorem logger_keeps_the_newest :
  forall (tl : TelemetryLogger) (now : datetime) (ty : string) (data : json),
    (0 < buffer_size tl)%Z ->
    let event := fst (log tl now ty data) in
    let tl' := snd (log tl now ty data) in
    event = mkTelemetryEvent ty now (tl_agent_id tl) data /\
    (exists dropped kept,
       buffer tl = dropped ++ kept /\ buffer tl' = kept ++ [event]) /\
    List.length (buffer tl')
    = Nat.min (Z.to_nat (buffer_size tl)) (List.length (buffer tl) + 1) /\
    buffer_size tl' = buffer_size tl /\ tl_agent_id tl' = tl_agent_id tl.
Proof.
  intros tl now ty data Hsize. cbv zeta.
  split; [reflexivity|].
  rewrite (log_buffer tl now ty data Hsize).
  destruct (Z.to_nat (buffer_size tl)) as [|n] eqn:En; [lia|].
  cbn [fst log]. rewrite last_n_snoc. split; [|split; [|split]].
  - destruct (last_n_suffix n (buffer tl)) as [dropped Hd].
    exists dropped, (last_n n (buffer tl)). split; [exact Hd | reflexivity].
  - rewrite length_app, last_n_length. cbn [List.length]. lia.
  - reflexivity.
  - reflexivity.
Qed.

Lemma logger_witness :
  List.length (buffer (snd (log full_logger 30%Z "tactical" JNull))) = 2%nat.
Proof.
  exact (proj1 (proj2 (proj2 (logger_keeps_the_newest full_logger 30%Z
                                "tactical" JNull eq_refl)))).
Defined.

(** X22: A logger of size 0 is not an empty logger but an unbounded one: the
    test for trimming holds at every event, and the slice [buffer[-0:]] it
    then takes is the whole buffer.  Whatever is logged stays. *)
Theorem logger_of_size_zero_never_trims :
  forall (tl : TelemetryLogger) (entries : list (datetime * string * json)),
    buffer_size tl = 0%Z ->
    buffer (log_all tl entries) = buffer tl ++ map (event_of tl) entries.
Proof.
  intros tl entries. revert tl.
  induction entries as [|[[now ty] data] rest IH]; intros tl Hsize.
  - simpl. now rewrite app_nil_r.
  - change (log_all tl ((now, ty, data) :: rest))
      with (log_all (snd (log tl now ty data)) rest).
    assert (Hlog : snd (log tl now ty data)
                   = set_buffer tl
                       (buffer tl
                        ++ [mkTelemetryEvent ty now (tl_agent_id tl) data])).
    { unfold log. cbn [snd]. rewrite Hsize.
      rewrite length_app. simpl.
      replace (0 <? Z.of_nat (List.length (buffer tl) + 1))%Z with true
        by (symmetry; apply Z.ltb_lt; lia).
      reflexivity. }
    rewrite Hlog. rewrite IH by exact Hsize.
    simpl. rewrite <- app_assoc. reflexivity.
Qed.

Lemma logger_of_size_zero_witness :
  List.length
    (buffer (log_all (mkTelemetryLogger "steve-1" 0 [])
               [ (1%Z, "a", JNull); (2%Z, "b", JNull); (3%Z, "c", JNull) ]))
  = 3%nat.
Proof.
  rewrite (logger_of_size_zero_never_trims
             (mkTelemetryLogger "steve-1" 0 []) _ eq_refl).
  reflexivity.
Defined.

Lemma slice_first_nonneg {A : Type} (k : Z) (l : list A) :
  (0 <= k)%Z -> slice_first k l = firstn (Z.to_nat k) l.
Proof.
  intros H. unfold slice_first.
  now rewrite (proj2 (Z.ltb_ge k 0) H).
Qed.

(** The events [get_events] sorts: those of the buffer that pass the
    filters. *)
Lemma get_events_fst (tl : TelemetryLogger) (ty : option string)
    (since : option datetime) (limit : Z) :
  exists matching,
    fst (get_events tl ty since limit)
    = slice_first limit (sort_desc timestamp_key matching) /\
    forall e, In e matching <->
      In e (buffer tl) /\
      (type_given ty = true -> ty = Some (te_event_type e)) /\
      (forall t, since = Some t -> (t <= te_timestamp e)%Z).
Proof.
  unfold get_events. cbn [fst]. eexists. split; [reflexivity|].
  intros e. destruct (type_given ty) eqn:Ety; destruct since as [t|].
  - rewrite !filter_In. unfold of_type, not_before.
    rewrite String.eqb_eq, Z.leb_le.
    destruct ty as [ty|]; [|discriminate]. simpl. split.
    + intros [[Hin Hty] Ht]. split; [exact Hin|]. split.
      * intros _. now rewrite Hty.
      * intros t' E. injection E as <-. exact Ht.
    + intros (Hin & Hty & Ht). split; [split; [exact Hin|]|].
      * specialize (Hty eq_refl). now injection Hty.
      * now apply Ht.
  - rewrite filter_In. unfold of_type. rewrite String.eqb_eq.
    destruct ty as [ty|]; [|discriminate]. simpl. split.
    + intros [Hin Hty]. split; [exact Hin|]. split.
      * intros _. now rewrite Hty.
      * intros t' E. discriminate.
    + intros (Hin & Hty & _). split; [exact Hin|].
      specialize (Hty eq_refl). now injection Hty.
  - rewrite filter_In. unfold not_before. rewrite Z.leb_le. split.
    + intros [Hin Ht]. split; [exact Hin|]. split; [discriminate|].
      intros t' E. injection E as <-. exact Ht.
    + intros (Hin & _ & Ht). split; [exact Hin | now apply Ht].
  - split.
    + intros Hin. split; [exact Hin|]. split; [discriminate|].
      intros t' E. discriminate.
    + tauto.
Qed.

(** X23: What [get_events] returns, for a limit that is not negative: at most
    [limit] events, newest first, each an event of the buffer that passes
    the filters given (an empty type is no filter); and an event that
    passes them and is left out is no newer than any that is returned. *)
Theorem get_events_newest_first :
  forall (tl : TelemetryLogger) (ty : option string)
         (since : option datetime) (limit : Z),
    (0 <= limit)%Z ->
    let out := fst (get_events tl ty since limit) in
    let passes := fun e =>
      In e (buffer tl) /\
      (type_given ty = true -> ty = Some (te_event_type e)) /\
      (forall t, since = Some t -> (t <= te_timestamp e)%Z) in
    (List.length out <= Z.to_nat limit)%nat /\
    StronglySorted (desc timestamp_key) out /\
    (forall e, In e out -> passes e) /\
    (forall e, passes e ->
       In e out \/
       forall q, In q out -> (te_timestamp e <= te_timestamp q)%Z).
Proof.
  intros tl ty since limit Hlimit. cbv zeta.
  destruct (get_events_fst tl ty since limit) as (matching & -> & Hm).
  rewrite (slice_first_nonneg _ _ Hlimit).
  split; [rewrite length_firstn; lia|].
  split; [apply firstn_sorted, sort_desc_sorted|].
  split.
  - intros e Hin. apply Hm. apply PlanningFacts.in_firstn in Hin.
    exact (Permutation_in _
             (Permutation_sym (sort_desc_perm timestamp_key matching)) Hin).
  - intros e He. apply Hm in He.
    destruct (PlanningFacts.sorted_firstn_dominates timestamp_key
                (Z.to_nat limit) (sort_desc timestamp_key matching) e)
      as [H|H].
    + apply sort_desc_sorted.
    + exact (Permutation_in _ (sort_desc_perm timestamp_key matching) He).
    + now left.
    + right. intros q Hq. apply le_IZR. exact (H q Hq).
Qed.

Lemma get_events_witness :
  (List.length (fst (get_events full_logger None None 1)) <= 1)%nat.
Proof.
  exact (proj1 (get_events_newest_first full_logger None None 1 Z.le_0_1)).
Defined.

(** X24: Reading the events reorders the buffer. When [get_events] is given
    no type (or the empty one) and no time, the list it sorts is the buffer
    itself: afterwards the buffer holds the same events newest first. With a
    filter the buffer is left as it was. *)
Theorem get_events_sorts_the_buffer_in_place :
  forall (tl : TelemetryLogger) (ty : option string)
         (since : option datetime) (limit : Z),
    let tl' := snd (get_events tl ty since limit) in
    (type_given ty = false -> since = None ->
     buffer tl' = sort_desc timestamp_key (buffer tl) /\
     Permutation (buffer tl) (buffer tl') /\
     StronglySorted (desc timestamp_key) (buffer tl')) /\
    (type_given ty = true \/ since <> None -> tl' = tl).
Proof.
  intros tl ty since limit. cbv zeta. unfold get_events. cbn [snd]. split.
  - intros Hty ->. rewrite Hty. cbn [negb andb set_buffer buffer].
    split; [reflexivity|].
    split; [apply sort_desc_perm | apply sort_desc_sorted].
  - intros [Hty|Hs].
    + now rewrite Hty.
    + destruct since; [|congruence]. now rewrite andb_false_r.
Qed.

(** X25: The consequence for [log].  On a full logger, the event logged after
    an unfiltered [get_events] does not push out the event that was logged
    first, but the one the sort put first, an event of the greatest
    timestamp: the buffer then holds the other events, newest first, and
    the new one at the end. *)
Theorem log_after_get_events_drops_a_newest_event :
  forall (tl : TelemetryLogger) (limit : Z) (now : datetime) (ty : string)
         (data : json),
    (0 < buffer_size tl)%Z ->
    List.length (buffer tl) = Z.to_nat (buffer_size tl) ->
    let read := snd (get_events tl None None limit) in
    exists newest rest,
      sort_desc timestamp_key (buffer tl) = newest :: rest /\
      Permutation (buffer tl) (newest :: rest) /\
      (forall e, In e (buffer tl) ->
                 (te_timestamp e <= te_timestamp newest)%Z) /\
      StronglySorted (desc timestamp_key) rest /\
      buffer (snd (log read now ty data))
      = rest ++ [fst (log read now ty data)].
Proof.
  intros tl limit now ty data Hsize Hlen. cbv zeta.
  assert (Hb : buffer (snd (get_events tl None None limit))
               = sort_desc timestamp_key (buffer tl)) by reflexivity.
  assert (Hperm : Permutation (buffer tl)
                    (buffer (snd (get_events tl None None limit))))
    by (rewrite Hb; apply sort_desc_perm).
  assert (Hsorted : StronglySorted (desc timestamp_key)
                      (buffer (snd (get_events tl None None limit))))
    by (rewrite Hb; apply sort_desc_sorted).
  set (read := snd (get_events tl None None limit)) in *.
  assert (Hsz : buffer_size read = buffer_size tl) by reflexivity.
  assert (Hlen' : List.length (buffer read) = Z.to_nat (buffer_size tl))
    by (rewrite <- (Permutation_length Hperm); exact Hlen).
  destruct (buffer read) as [|newest rest] eqn:Eb.
  { simpl in Hlen'. lia. }
  exists newest, rest. split; [symmetry; exact Hb|].
  split; [exact Hperm|].
  inversion Hsorted as [|? ? Hrest Hall]; subst.
  split; [|split; [exact Hrest|]].
  - intros e He. apply (Permutation_in _ Hperm) in He.
    destruct He as [<-|He]; [lia|].
    rewrite Forall_forall in Hall. apply le_IZR. exact (Hall e He).
  - rewrite log_buffer by (rewrite Hsz; exact Hsize).
    rewrite Hsz, Eb. cbn [fst log].
    destruct (Z.to_nat (buffer_size tl)) as [|n] eqn:En; [lia|].
    rewrite last_n_snoc. f_equal.
    unfold last_n. simpl in Hlen'. injection Hlen' as Hlen'.
    cbn [List.length]. rewrite Hlen'.
    replace (S n - n)%nat with 1%nat by lia. reflexivity.
Qed.

Lemma log_after_get_events_witness :
  exists newest rest,
    sort_desc timestamp_key (buffer full_logger) = newest :: rest /\
    StronglySorted (desc timestamp_key) rest /\
    buffer (snd (log (snd (get_events full_logger None None 100)) 30%Z
                   "tactical" JNull))
    = rest ++ [mkTelemetryEvent "tactical" 30%Z "steve-1" JNull].
Proof.
  destruct (log_after_get_events_drops_a_newest_event full_logger 100 30%Z
              "tactical" JNull eq_refl eq_refl)
    as (newest & rest & Hs & _ & _ & Hr & Hb).
  exists newest, rest. split; [exact Hs|]. split; [exact Hr | exact Hb].
Defined.

Lemma filter_split_length {A : Type} (f : A -> bool) (l : list A) :
  (List.length (filter f l) + List.length (filter (fun x => negb (f x)) l)
   = List.length l)%nat.
Proof.
  induction l as [|x l IH]; [reflexivity|]. simpl.
  destruct (f x); simpl; lia.
Qed.

(** X26: [clear_events] returns the number of events it removed, which is
    never negative. Without a time it empties the buffer; with one it
    removes exactly the events before that time and keeps the others in
    their order, and clearing again with the same time removes nothing. *)
Theorem clear_events_counts_what_it_removes :
  forall (tl : TelemetryLogger) (before : option datetime),
    let n := fst (clear_events tl before) in
    let tl' := snd (clear_events tl before) in
    (0 <= n)%Z /\
    Z.of_nat (List.length (buffer tl))
    = (n + Z.of_nat (List.length (buffer tl')))%Z /\
    fst (clear_events tl' before) = 0%Z /\
    match before with
    | None => buffer tl' = []
    | Some t =>
        buffer tl' = filter (not_before t) (buffer tl) /\
        n = Z.of_nat
              (List.length
                 (filter (fun e => (te_timestamp e <? t)%Z) (buffer tl)))
    end.
Proof.
  intros tl [t|]; cbv zeta; unfold clear_events; cbn [fst snd set_buffer buffer].
  - assert (H := filter_split_length (not_before t) (buffer tl)).
    assert (E : filter (fun x => negb (not_before t x)) (buffer tl)
                = filter (fun e => (te_timestamp e <? t)%Z) (buffer tl)).
    { apply filter_ext. intros e. unfold not_before.
      destruct (Z.leb_spec t (te_timestamp e));
        destruct (Z.ltb_spec (te_timestamp e) t); try reflexivity; lia. }
    rewrite E in H.
    split; [lia|]. split; [lia|]. split.
    + rewrite PlanningFacts.filter_idem. lia.
    + split; [reflexivity | lia].
  - split; [lia|]. split; [simpl; lia|]. split; reflexivity.
Qed.

(** *** When a sync is due *)

(** X27: After the body of [sync_state] has run, whether it returned or
    raised (whatever the send did: the source's own sends nothing), no sync
    is due until the interval has passed since the call: a sync that failed
    is not tried again sooner than one that succeeded.  A manager that
    never synced is always due. *)
Theorem sync_is_due_when_the_interval_has_passed :
  forall (send : json -> result unit) (m : SyncManager) (agent_state : json)
         (now : datetime),
    let m' := snd (sync_state_sending send m agent_state) in
    last_sync (sm_sync_state m') = Some (sm_clock m) /\
    config m' = config m /\
    (fst (should_sync (sm_at_time m' now)) = true <->
     IZR (sync_interval_seconds (config m)) * 1000000
     <= IZR (now - sm_clock m)) /\
    (last_sync (sm_sync_state m) = None -> fst (should_sync m) = true).
Proof.
  intros send m agent_state now. cbv zeta.
  assert (H : last_sync (sm_sync_state (snd (sync_state_sending send m agent_state)))
              = Some (sm_clock m) /\
              config (snd (sync_state_sending send m agent_state)) = config m).
  { unfold sync_state_sending. cbv zeta.
    destruct (send _); split; reflexivity. }
  destruct H as [Hl Hc]. split; [exact Hl|]. split; [exact Hc|]. split.
  - unfold should_sync, sm_at_time. cbn [sm_sync_state sm_clock config].
    rewrite Hl, Hc. cbn [fst]. unfold total_seconds.
    set (i := IZR (sync_interval_seconds (config m))).
    set (d := IZR (now - sm_clock m)).
    unfold Rleb. destruct (Rle_dec i (d / 1000000)) as [H|H].
    + split; [intros _; lra | reflexivity].
    + split; [discriminate | intros H'; exfalso; apply H; lra].
  - intros Hn. unfold should_sync. now rewrite Hn.
Qed.

(** X28: The periodic sync never syncs. When no sync is due it returns a
    result that says so; when one is due it raises TypeError, because the
    attribute [sync_state] that [__init__] sets hides the method of that
    name. Either way nothing is sent, the sync state is as before and the
    telemetry buffer is untouched; and a manager that never synced is always
    due, so on a manager as [__init__] builds it every call raises. *)
Theorem periodic_sync_never_syncs :
  forall (send : json -> result unit) (m : SyncManager) (agent_state : json)
         (tl : TelemetryLogger),
    let r := perform_periodic_sync send m agent_state tl in
    snd r = tl /\
    sm_sync_state (snd (fst r)) = sm_sync_state m /\
    match fst (fst r) with
    | inr res =>
        fst (should_sync m) = false /\
        synced res = false /\ telemetrySent res = false /\
        missions res = JList []
    | inl e =>
        fst (should_sync m) = true /\
        e = TypeError "'SyncState' object is not callable"
    end /\
    (last_sync (sm_sync_state m) = None ->
     fst (fst r) = inl (TypeError "'SyncState' object is not callable")).
Proof.
  intros send m agent_state tl. cbv zeta. unfold perform_periodic_sync.
  assert (Hs : sm_sync_state (snd (should_sync m)) = sm_sync_state m).
  { unfold should_sync. destruct (last_sync (sm_sync_state m)); reflexivity. }
  destruct (should_sync m) as [due m1] eqn:E. cbn [fst snd] in *.
  destruct due; cbn [negb call_sync_state fst snd].
  - split; [reflexivity|]. split; [exact Hs|].
    split; [split; reflexivity|]. intros _. reflexivity.
  - split; [reflexivity|]. split; [exact Hs|].
    split; [repeat split|]. intros Hn.
    unfold should_sync in E. rewrite Hn in E. discriminate.
Qed.

End SyncFlowFacts.
